(** * config_to_json: the configuration-language translator

    A shallow embedding of [config_to_json.py] (classes [Lexer] and
    [Parser], function [convert_to_json]) and the proofs of its
    specification.

    Modelling conventions.
    - A Python [str] is a [string]; a character is a code point below 256
      and the character predicates ([isspace], [isdigit], ...) are Python's
      on that range.
    - A Python [int] is a [Z] (arbitrary precision); the interpreter's
      limits (recursion depth, digit count of [int()], memory) are outside
      the model.
    - A raised exception is the [Raise] case of [outcome]; [self.error]
      raises [SyntaxError] with the formatted message.
    - The lexer's [text], [pos] and [current_char] are represented by the
      unread suffix [text[pos:]]. *)

From Stdlib Require Import ZArith Ascii Lia DecimalString.
From Stdlib Require String.
From stdpp Require Import gmap strings list fin_maps.

Set Warnings "-register-all".

Local Open Scope Z_scope.

(** ** Python values and exceptions *)

Inductive Value : Type :=
| VInt (n : Z)
| VStr (s : string)
| VList (l : list Value).

Inductive exn : Type :=
| SyntaxError (msg : string)
| TypeError
| ValueError
| IndexError
| ZeroDivisionError
| SystemExit (code : Z).

Inductive outcome (A : Type) : Type :=
| Ok (a : A)
| Raise (e : exn)
| OutOfFuel.

Arguments Ok {A} a.
Arguments Raise {A} e.
Arguments OutOfFuel {A}.

Definition bind {A B : Type} (m : outcome A) (k : A -> outcome B) : outcome B :=
  match m with
  | Ok a => k a
  | Raise e => Raise e
  | OutOfFuel => OutOfFuel
  end.

Notation "'do' x <- m ; k" := (bind m (fun x => k))
  (at level 10, x name, m at level 100, k at level 200).
Notation "'do' ' p <- m ; k" := (bind m (fun p => k))
  (at level 10, p pattern, m at level 100, k at level 200).

Definition is_ok {A : Type} (r : outcome A) : bool :=
  match r with Ok _ => true | _ => false end.

Definition is_raise {A : Type} (r : outcome A) : bool :=
  match r with Raise _ => true | _ => false end.

Definition is_syntax_error {A : Type} (r : outcome A) : bool :=
  match r with Raise (SyntaxError _) => true | _ => false end.

(** ** Characters *)

Definition ord (c : ascii) : Z := Z.of_N (N_of_ascii c).

Definition in_range (lo hi : Z) (c : ascii) : bool :=
  (lo <=? ord c) && (ord c <=? hi).

Definition ascii_eqb (a b : ascii) : bool := Ascii.eqb a b.

Definition opt_is (o : option ascii) (c : ascii) : bool :=
  match o with Some a => ascii_eqb a c | None => false end.

(** [str.isspace], [str.isdigit], [str.isalpha], [str.islower],
    [str.isalnum], [str.isprintable] on code points below 256. *)
Definition isspace (c : ascii) : bool :=
  in_range 9 13 c || in_range 28 32 c || in_range 133 133 c || in_range 160 160 c.

Definition isdigit (c : ascii) : bool :=
  in_range 48 57 c || in_range 178 179 c || in_range 185 185 c.

Definition isalpha (c : ascii) : bool :=
  in_range 65 90 c || in_range 97 122 c || in_range 170 170 c
  || in_range 181 181 c || in_range 186 186 c || in_range 192 214 c
  || in_range 216 246 c || in_range 248 255 c.

Definition islower (c : ascii) : bool :=
  in_range 97 122 c || in_range 170 170 c || in_range 181 181 c
  || in_range 186 186 c || in_range 223 246 c || in_range 248 255 c.

Definition isalnum (c : ascii) : bool :=
  isalpha c || isdigit c || in_range 188 190 c.

Definition isprintable (c : ascii) : bool :=
  in_range 32 126 c || in_range 161 172 c || in_range 174 255 c.

(** The hexadecimal digits, as the three explicit comparisons of
    [read_number]. *)
Definition is_hex_char (c : ascii) : bool :=
  in_range 48 57 c || in_range 97 102 c || in_range 65 70 c.

(** ** Strings: [str()], [repr()] and [int()] *)

Definition str_of_Z (n : Z) : string := NilZero.string_of_int (Z.to_int n).
Definition str_of_nat (n : nat) : string := str_of_Z (Z.of_nat n).
Definition str_of_char (c : ascii) : string := String c EmptyString.

Fixpoint contains_char (c : ascii) (s : string) : bool :=
  match s with
  | EmptyString => false
  | String a s' => ascii_eqb a c || contains_char c s'
  end.

Definition hex_digit_char (n : Z) : ascii :=
  if n <? 10 then ascii_of_N (Z.to_N (48 + n)) else ascii_of_N (Z.to_N (87 + n)).

Definition hex_escape (c : ascii) : string :=
  "\x" +:+ String (hex_digit_char (ord c / 16)) (String (hex_digit_char (ord c mod 16)) EmptyString).

Definition repr_char (quote c : ascii) : string :=
  if ascii_eqb c quote || ascii_eqb c "\" then String "\" (str_of_char c)
  else if ascii_eqb c "009" then "\t"
  else if ascii_eqb c "010" then "\n"
  else if ascii_eqb c "013" then "\r"
  else if (ord c <? 32) || (ord c =? 127) then hex_escape c
  else if ord c <? 127 then str_of_char c
  else if isprintable c then str_of_char c
  else hex_escape c.

Fixpoint repr_chars (quote : ascii) (s : string) : string :=
  match s with
  | EmptyString => EmptyString
  | String c s' => repr_char quote c +:+ repr_chars quote s'
  end.

(** [repr] of a [str]: single quotes, unless the text has a single quote
    and no double quote. *)
Definition repr_str (s : string) : string :=
  let quote : ascii :=
    if contains_char "'" s && negb (contains_char "034" s) then "034"%char else "'"%char in
  String quote (repr_chars quote s) +:+ str_of_char quote.

Fixpoint py_repr (v : Value) : string :=
  match v with
  | VInt n => str_of_Z n
  | VStr s => repr_str s
  | VList l => "[" +:+ String.concat ", " (List.map py_repr l) +:+ "]"
  end.

Definition py_str (v : Value) : string :=
  match v with
  | VStr s => s
  | _ => py_repr v
  end.

(** [int(s, base)] for base 10 and 16: surrounding white space is
    stripped, one sign is allowed, base 16 accepts the prefix [0x]/[0X]
    (and one underscore after it), digits may be separated by single
    underscores.  [None] stands for [ValueError]. *)
Definition int_space (c : ascii) : bool :=
  in_range 9 13 c || in_range 32 32 c || in_range 133 133 c || in_range 160 160 c.

Definition digit_value (base : Z) (c : ascii) : option Z :=
  let d :=
    if in_range 48 57 c then Some (ord c - 48)
    else if in_range 97 122 c then Some (ord c - 87)
    else if in_range 65 90 c then Some (ord c - 55)
    else None in
  match d with
  | Some v => if v <? base then Some v else None
  | None => None
  end.

Fixpoint int_digits (base : Z) (l : list ascii) (acc : Z) (after_underscore : bool)
  : option Z :=
  match l with
  | [] => if after_underscore then None else Some acc
  | c :: l' =>
      if ascii_eqb c "_" then
        if after_underscore then None else int_digits base l' acc true
      else
        match digit_value base c with
        | Some d => int_digits base l' (acc * base + d) false
        | None => None
        end
  end.

Fixpoint drop_spaces (l : list ascii) : list ascii :=
  match l with
  | c :: l' => if int_space c then drop_spaces l' else l
  | [] => []
  end.

Definition int_unsigned (base : Z) (l : list ascii) : option Z :=
  let l1 :=
    match l with
    | z :: x :: l' =>
        if (base =? 16) && ascii_eqb z "0" && (ascii_eqb x "x" || ascii_eqb x "X")
        then match l' with
             | u :: l'' => if ascii_eqb u "_" then l'' else l'
             | [] => l'
             end
        else l
    | _ => l
    end in
  match l1 with
  | c :: _ => if ascii_eqb c "_" then None else int_digits base l1 0 false
  | [] => None
  end.

Definition py_int (base : Z) (s : string) : option Z :=
  let l := rev (drop_spaces (rev (drop_spaces (String.list_ascii_of_string s)))) in
  match l with
  | c :: l' =>
      if ascii_eqb c "-" then Z.opp <$> int_unsigned base l'
      else if ascii_eqb c "+" then int_unsigned base l'
      else int_unsigned base l
  | [] => None
  end.

(** ** Tokens *)

Inductive TokenType : Type :=
| COMMENT_SINGLE | COMMENT_MULTI_START | COMMENT_MULTI_END
| DEFINE | CONST_EXPR_START | CONST_EXPR_END
| ARRAY_START | ARRAY_END
| STRING | NUMBER | HEX_NUMBER | NAME | OPERATOR | FUNCTION | COMMA | EOF.

#[global] Instance TokenType_eq_dec : EqDecision TokenType.
Proof. solve_decision. Defined.

(** [str(token_type)], as the f-strings of the error messages print it. *)
Definition TokenType_str (t : TokenType) : string :=
  "TokenType." +:+
  match t with
  | COMMENT_SINGLE => "COMMENT_SINGLE"
  | COMMENT_MULTI_START => "COMMENT_MULTI_START"
  | COMMENT_MULTI_END => "COMMENT_MULTI_END"
  | DEFINE => "DEFINE"
  | CONST_EXPR_START => "CONST_EXPR_START"
  | CONST_EXPR_END => "CONST_EXPR_END"
  | ARRAY_START => "ARRAY_START"
  | ARRAY_END => "ARRAY_END"
  | STRING => "STRING"
  | NUMBER => "NUMBER"
  | HEX_NUMBER => "HEX_NUMBER"
  | NAME => "NAME"
  | OPERATOR => "OPERATOR"
  | FUNCTION => "FUNCTION"
  | COMMA => "COMMA"
  | EOF => "EOF"
  end.

Module Token.
Record t : Type := mk { type : TokenType; value : string; line : nat; col : nat }.
End Token.

(** ** The lexer *)

Module Lexer.

(** [rest] is [self.text[self.pos:]]; [self.current_char] is its first
    character, [None] at the end of the text. *)
Record t : Type := mk { rest : string; line : nat; col : nat }.

Definition init (text : string) : t := mk text 1 1.

Definition current_char (self : t) : option ascii :=
  match rest self with
  | String c _ => Some c
  | EmptyString => None
  end.

(** The text of [f"Lexer error at {self.line}:{self.col}: {message}"]. *)
Definition error_text (ln cl : nat) (message : string) : string :=
  "Lexer error at " +:+ str_of_nat ln +:+ ":" +:+ str_of_nat cl +:+ ": " +:+ message.

Definition error {A : Type} (self : t) (message : string) : outcome A :=
  Raise (SyntaxError (error_text (line self) (col self) message)).

Definition advance (self : t) : t :=
  match rest self with
  | String c s' =>
      if ascii_eqb c "010" then mk s' (line self + 1)%nat 1
      else mk s' (line self) (col self + 1)%nat
  | EmptyString => mk EmptyString (line self) (col self + 1)%nat
  end.

Definition peek (self : t) (n : nat) : option ascii := String.get n (rest self).

(** The loop [while self.current_char is not None and P(self.current_char):
    result += self.current_char; self.advance()], shared by
    [skip_whitespace], [skip_single_comment], [read_name] and
    [read_number]; it returns [result] and the lexer after the run. *)
Fixpoint scan_while (P : ascii -> bool) (s : string) (ln cl : nat) (result : string)
  : (string * t)%type :=
  let self := mk s ln cl in
  match s with
  | String c s' =>
      if P c then scan_while P s' (line (advance self)) (col (advance self))
                             (result +:+ str_of_char c)
      else (result, self)
  | EmptyString => (result, self)
  end.

Definition run_while (P : ascii -> bool) (self : t) : (string * t)%type :=
  scan_while P (rest self) (line self) (col self) EmptyString.

Definition skip_whitespace (self : t) : t := snd (run_while isspace self).

Definition skip_single_comment (self : t) : t :=
  let self1 := snd (run_while (fun c => negb (ascii_eqb c "010")) self) in
  if opt_is (current_char self1) "010" then advance self1 else self1.

Fixpoint skip_multi_comment_loop (s : string) (ln cl : nat) : outcome t :=
  let self := mk s ln cl in
  match s with
  | String c s' =>
      if ascii_eqb c "#" && opt_is (peek self 1) ">" then Ok (advance (advance self))
      else skip_multi_comment_loop s' (line (advance self)) (col (advance self))
  | EmptyString => error self "Unclosed multi-line comment"
  end.

Definition skip_multi_comment (self : t) : outcome t :=
  let self2 := advance (advance self) in
  skip_multi_comment_loop (rest self2) (line self2) (col self2).

Definition name_char (c : ascii) : bool := isalnum c || ascii_eqb c "_".

Definition read_name (self : t) : (string * t)%type := run_while name_char self.

Definition read_number (self : t) : outcome (string * t)%type :=
  let decimal := Ok (run_while isdigit self) in
  if opt_is (current_char self) "0" then
    match peek self 1 with
    | None => Raise TypeError
    | Some x =>
        if ascii_eqb x "x" || ascii_eqb x "X" then
          let self2 := advance (advance self) in
          Ok (scan_while is_hex_char (rest self2) (line self2) (col self2)
                         ("0" +:+ str_of_char x))
        else decimal
    end
  else decimal.

Fixpoint read_string_loop (s : string) (ln cl : nat) (result : string)
  : outcome (string * t)%type :=
  let self := mk s ln cl in
  match s with
  | String c s' =>
      if ascii_eqb c "034" then
        match s' with
        | String c' s'' =>
            if ascii_eqb c' "034" then
              let self2 := advance (advance self) in
              read_string_loop s'' (line self2) (col self2) (result +:+ str_of_char c)
            else Ok (result, advance self)
        | EmptyString => Ok (result, advance self)
        end
      else read_string_loop s' (line (advance self)) (col (advance self))
                            (result +:+ str_of_char c)
  | EmptyString => error self "Unclosed string"
  end.

Definition read_string (self : t) : outcome (string * t)%type :=
  let self2 := advance (advance self) in
  read_string_loop (rest self2) (line self2) (col self2) EmptyString.

Definition starts_with_0x (number : string) : bool :=
  match number with
  | String z (String x _) => ascii_eqb z "0" && (ascii_eqb x "x" || ascii_eqb x "X")
  | _ => false
  end.

Definition is_operator_char (c : ascii) : bool :=
  ascii_eqb c "+" || ascii_eqb c "-" || ascii_eqb c "*" || ascii_eqb c "/".

Definition is_operator_name (name : string) : bool :=
  String.eqb name "+" || String.eqb name "-" || String.eqb name "*"
  || String.eqb name "/".

(** The [while] loop of [get_next_token]: one unit of [fuel] per
    iteration; [continue] is the recursive call. *)
Fixpoint get_next_token_loop (fuel : nat) (self : t) : outcome (Token.t * t)%type :=
  match fuel with
  | O => OutOfFuel
  | S fuel' =>
      match current_char self with
      | None => Ok (Token.mk EOF EmptyString (line self) (col self), self)
      | Some c =>
          let start_line := line self in
          let start_col := col self in
          if isspace c then
            get_next_token_loop fuel' (skip_whitespace self)
          else if ascii_eqb c "%" then
            get_next_token_loop fuel' (skip_single_comment (advance self))
          else if ascii_eqb c "<" && opt_is (peek self 1) "#" then
            do self1 <- skip_multi_comment self;
            get_next_token_loop fuel' self1
          else if ascii_eqb c "." && opt_is (peek self 1) "{" then
            Ok (Token.mk CONST_EXPR_START ".{" start_line start_col,
                advance (advance self))
          else if ascii_eqb c "}" && opt_is (peek self 1) "." then
            Ok (Token.mk CONST_EXPR_END "}." start_line start_col,
                advance (advance self))
          else if ascii_eqb c "@" && opt_is (peek self 1) "034" then
            do '(value, self1) <- read_string self;
            Ok (Token.mk STRING value start_line start_col, self1)
          else if ascii_eqb c "(" then
            let '(name, self1) := read_name (advance self) in
            if String.eqb name "define" then
              Ok (Token.mk DEFINE "define" start_line start_col, self1)
            else error self1 ("Unexpected token after '(': " +:+ name)
          else if ascii_eqb c "[" then
            Ok (Token.mk ARRAY_START "[" start_line start_col, advance self)
          else if ascii_eqb c "]" then
            Ok (Token.mk ARRAY_END "]" start_line start_col, advance self)
          else if ascii_eqb c "," then
            Ok (Token.mk COMMA "," start_line start_col, advance self)
          else if isdigit c then
            do '(number, self1) <- read_number self;
            if starts_with_0x number then
              Ok (Token.mk HEX_NUMBER number start_line start_col, self1)
            else Ok (Token.mk NUMBER number start_line start_col, self1)
          else if isalpha c && islower c then
            let '(name, self1) := read_name self in
            if String.eqb name "abs" then
              Ok (Token.mk FUNCTION name start_line start_col, self1)
            else if is_operator_name name then
              Ok (Token.mk OPERATOR name start_line start_col, self1)
            else Ok (Token.mk NAME name start_line start_col, self1)
          else if is_operator_char c then
            Ok (Token.mk OPERATOR (str_of_char c) start_line start_col, advance self)
          else error self ("Unexpected character: " +:+ str_of_char c)
      end
  end.

Definition get_next_token (self : t) : outcome (Token.t * t)%type :=
  get_next_token_loop (S (String.length (rest self))) self.

End Lexer.

(** ** Python operations on values *)

Definition isinstance_str (v : Value) : bool :=
  match v with VStr _ => true | _ => false end.

Definition isinstance_int (v : Value) : bool :=
  match v with VInt _ => true | _ => false end.

Fixpoint str_repeat (s : string) (n : nat) : string :=
  match n with O => EmptyString | S n' => s +:+ str_repeat s n' end.

Fixpoint list_repeat {A : Type} (l : list A) (n : nat) : list A :=
  match n with O => [] | S n' => l ++ list_repeat l n' end.

(** [a + b] *)
Definition py_add (a b : Value) : outcome Value :=
  match a, b with
  | VInt x, VInt y => Ok (VInt (x + y))
  | VStr x, VStr y => Ok (VStr (x +:+ y))
  | VList x, VList y => Ok (VList (x ++ y))
  | _, _ => Raise TypeError
  end.

(** [a - b] *)
Definition py_sub (a b : Value) : outcome Value :=
  match a, b with
  | VInt x, VInt y => Ok (VInt (x - y))
  | _, _ => Raise TypeError
  end.

(** [a * b]: a product of integers, or a sequence repeated. *)
Definition py_mul (a b : Value) : outcome Value :=
  match a, b with
  | VInt x, VInt y => Ok (VInt (x * y))
  | VStr x, VInt n | VInt n, VStr x => Ok (VStr (str_repeat x (Z.to_nat n)))
  | VList x, VInt n | VInt n, VList x => Ok (VList (list_repeat x (Z.to_nat n)))
  | _, _ => Raise TypeError
  end.

(** [a // b]: floor division of integers. *)
Definition py_floordiv (a b : Value) : outcome Value :=
  match a, b with
  | VInt x, VInt y => if y =? 0 then Raise ZeroDivisionError else Ok (VInt (x / y))
  | _, _ => Raise TypeError
  end.

(** [abs(arg)] *)
Definition py_abs (arg : Value) : outcome Value :=
  match arg with
  | VInt x => Ok (VInt (Z.abs x))
  | _ => Raise TypeError
  end.

(** [b == 0] *)
Definition py_eq_zero (b : Value) : bool :=
  match b with VInt y => y =? 0 | _ => false end.

(** [int(s)] and [int(s, 16)] *)
Definition int_ (base : Z) (s : string) : outcome Z :=
  match py_int base s with
  | Some n => Ok n
  | None => Raise ValueError
  end.

(** [stack.pop()] on a Python list: the last element. *)
Definition pop (stack : list Value) : outcome (Value * list Value)%type :=
  match rev stack with
  | x :: r => Ok (x, rev r)
  | [] => Raise IndexError
  end.

(** ** The Config: a [dict] in insertion order *)

Definition Config : Type := list (string * Value).

(** [config[key] = value] *)
Fixpoint dict_set (key : string) (value : Value) (config : Config) : Config :=
  match config with
  | [] => [(key, value)]
  | (k, v) :: config' =>
      if String.eqb k key then (k, value) :: config'
      else (k, v) :: dict_set key value config'
  end.

(** [config.get(key)] *)
Fixpoint dict_get (key : string) (config : Config) : option Value :=
  match config with
  | [] => None
  | (k, v) :: config' => if String.eqb k key then Some v else dict_get key config'
  end.

(** ** The parser *)

Module Parser.

Record t : Type := mk {
  lexer : Lexer.t;
  current_token : Token.t;
  constants : gmap string Value
}.

(** [Parser.__init__] *)
Definition init (lexer : Lexer.t) : outcome t :=
  do '(tok, lexer1) <- Lexer.get_next_token lexer;
  Ok (mk lexer1 tok ∅).

Definition error {A : Type} (self : t) (message : string) : outcome A :=
  Raise (SyntaxError ("Parser error at "
                      +:+ str_of_nat (Token.line (current_token self)) +:+ ":"
                      +:+ str_of_nat (Token.col (current_token self)) +:+ ": "
                      +:+ message)).

Definition cur_type (self : t) : TokenType := Token.type (current_token self).

Definition is_type (self : t) (token_type : TokenType) : bool :=
  bool_decide (cur_type self = token_type).

Definition eat (token_type : TokenType) (self : t) : outcome t :=
  if is_type self token_type then
    do '(tok, lexer1) <- Lexer.get_next_token (lexer self);
    Ok (mk lexer1 tok (constants self))
  else
    error self ("Expected " +:+ TokenType_str token_type +:+ ", got "
                +:+ TokenType_str (cur_type self)).

(** Lines 383-407: an operator token inside [parse_const_expression_body];
    [self] is the parser after [eat(OPERATOR)]. *)
Definition body_operator (self : t) (op : string) (stack : list Value)
  : outcome (list Value) :=
  if (length stack <? 2)%nat then
    error self ("Not enough operands for operator " +:+ op)
  else
    do '(b, stack1) <- pop stack;
    do '(a, stack2) <- pop stack1;
    if String.eqb op "+" then
      if isinstance_str a || isinstance_str b then
        Ok (stack2 ++ [VStr (py_str a +:+ py_str b)])
      else do r <- py_add a b; Ok (stack2 ++ [r])
    else if String.eqb op "-" then do r <- py_sub a b; Ok (stack2 ++ [r])
    else if String.eqb op "*" then do r <- py_mul a b; Ok (stack2 ++ [r])
    else if String.eqb op "/" then
      if py_eq_zero b then error self "Division by zero"
      else do r <- py_floordiv a b; Ok (stack2 ++ [r])
    else error self ("Unknown operator: " +:+ op).

(** Lines 409-424: a function token inside [parse_const_expression_body]. *)
Definition body_function (self : t) (func : string) (stack : list Value)
  : outcome (list Value) :=
  if String.eqb func "abs" then
    if (length stack <? 1)%nat then
      error self ("Not enough arguments for function " +:+ func)
    else
      do '(arg, stack1) <- pop stack;
      if isinstance_int arg then do r <- py_abs arg; Ok (stack1 ++ [r])
      else error self ("Function " +:+ func +:+ " expects numeric argument")
  else error self ("Unknown function: " +:+ func).

(** One iteration of the loop of [parse_const_expression_body]. *)
Definition body_step (self : t) (stack : list Value) : outcome (list Value * t)%type :=
  let token := current_token self in
  match Token.type token with
  | NUMBER =>
      do self1 <- eat NUMBER self;
      do n <- int_ 10 (Token.value token);
      Ok (stack ++ [VInt n], self1)
  | HEX_NUMBER =>
      do self1 <- eat HEX_NUMBER self;
      do n <- int_ 16 (Token.value token);
      Ok (stack ++ [VInt n], self1)
  | NAME =>
      let name := Token.value token in
      do self1 <- eat NAME self;
      match constants self1 !! name with
      | Some v => Ok (stack ++ [v], self1)
      | None => Ok (stack ++ [VStr name], self1)
      end
  | OPERATOR =>
      do self1 <- eat OPERATOR self;
      do stack1 <- body_operator self1 (Token.value token) stack;
      Ok (stack1, self1)
  | FUNCTION =>
      do self1 <- eat FUNCTION self;
      do stack1 <- body_function self1 (Token.value token) stack;
      Ok (stack1, self1)
  | ty => error self ("Unexpected token in constant expression: " +:+ TokenType_str ty)
  end.

Fixpoint body_loop (fuel : nat) (self : t) (stack : list Value)
  : outcome (list Value * t)%type :=
  match fuel with
  | O => OutOfFuel
  | S fuel' =>
      if is_type self CONST_EXPR_END || is_type self EOF then Ok (stack, self)
      else do '(stack1, self1) <- body_step self stack;
           body_loop fuel' self1 stack1
  end.

Definition parse_const_expression_body (fuel : nat) (self : t)
  : outcome (Value * t)%type :=
  do '(stack, self1) <- body_loop fuel self [];
  match stack with
  | [v] => Ok (v, self1)
  | _ => error self1 "Invalid constant expression"
  end.

(** Lines 475-496: an operator token inside [parse_const_expression]. *)
Definition expr_operator (self : t) (op : string) (stack : list Value)
  : outcome (list Value) :=
  if (length stack <? 2)%nat then
    error self ("Not enough operands for operator " +:+ op)
  else
    do '(b, stack1) <- pop stack;
    do '(a, stack2) <- pop stack1;
    if String.eqb op "+" then do r <- py_add a b; Ok (stack2 ++ [r])
    else if String.eqb op "-" then do r <- py_sub a b; Ok (stack2 ++ [r])
    else if String.eqb op "*" then do r <- py_mul a b; Ok (stack2 ++ [r])
    else if String.eqb op "/" then
      if py_eq_zero b then error self "Division by zero"
      else do r <- py_floordiv a b; Ok (stack2 ++ [r])
    else error self ("Unknown operator: " +:+ op).

(** Lines 498-509: a function token inside [parse_const_expression]. *)
Definition expr_function (self : t) (func : string) (stack : list Value)
  : outcome (list Value) :=
  if String.eqb func "abs" then
    if (length stack <? 1)%nat then
      error self ("Not enough arguments for function " +:+ func)
    else
      do '(arg, stack1) <- pop stack;
      do r <- py_abs arg;
      Ok (stack1 ++ [r])
  else error self ("Unknown function: " +:+ func).

(** One iteration of the loop of [parse_const_expression]. *)
Definition expr_step (self : t) (stack : list Value) : outcome (list Value * t)%type :=
  let token := current_token self in
  match Token.type token with
  | NUMBER =>
      do self1 <- eat NUMBER self;
      do n <- int_ 10 (Token.value token);
      Ok (stack ++ [VInt n], self1)
  | HEX_NUMBER =>
      do self1 <- eat HEX_NUMBER self;
      do n <- int_ 16 (Token.value token);
      Ok (stack ++ [VInt n], self1)
  | NAME =>
      let name := Token.value token in
      do self1 <- eat NAME self;
      match constants self1 !! name with
      | Some v => Ok (stack ++ [v], self1)
      | None =>
          match py_int 10 name with
          | Some n => Ok (stack ++ [VInt n], self1)
          | None => error self1 ("Unknown constant: " +:+ name)
          end
      end
  | OPERATOR =>
      do self1 <- eat OPERATOR self;
      do stack1 <- expr_operator self1 (Token.value token) stack;
      Ok (stack1, self1)
  | FUNCTION =>
      do self1 <- eat FUNCTION self;
      do stack1 <- expr_function self1 (Token.value token) stack;
      Ok (stack1, self1)
  | ty => error self ("Unexpected token in constant expression: " +:+ TokenType_str ty)
  end.

Fixpoint expr_loop (fuel : nat) (self : t) (stack : list Value)
  : outcome (list Value * t)%type :=
  match fuel with
  | O => OutOfFuel
  | S fuel' =>
      if is_type self CONST_EXPR_END then Ok (stack, self)
      else do '(stack1, self1) <- expr_step self stack;
           expr_loop fuel' self1 stack1
  end.

Definition parse_const_expression (fuel : nat) (first_arg : option string) (self : t)
  : outcome (Value * t)%type :=
  do self1 <- eat CONST_EXPR_START self;
  do stack <-
    match first_arg with
    | Some name =>
        match constants self1 !! name with
        | Some v => Ok [v]
        | None =>
            match py_int 10 name with
            | Some n => Ok [VInt n]
            | None => error self1 ("Invalid constant expression argument: " +:+ name)
            end
        end
    | None => Ok []
    end;
  do '(stack1, self2) <- expr_loop fuel self1 stack;
  do self3 <- eat CONST_EXPR_END self2;
  match stack1 with
  | [v] => Ok (v, self3)
  | _ => error self3 "Invalid constant expression"
  end.

(** The [while] loop of [parse_array]; [parse_value] is the recursive
    call. *)
Fixpoint array_loop (parse_value : t -> outcome (Value * t)%type)
    (fuel : nat) (self : t) (values : list Value) : outcome (list Value * t)%type :=
  match fuel with
  | O => OutOfFuel
  | S fuel' =>
      if is_type self COMMA then
        do self1 <- eat COMMA self;
        do '(v, self2) <- parse_value self1;
        array_loop parse_value fuel' self2 (values ++ [v])
      else Ok (values, self)
  end.

Definition parse_array_with (parse_value : t -> outcome (Value * t)%type)
    (fuel : nat) (self : t) : outcome (Value * t)%type :=
  do self1 <- eat ARRAY_START self;
  do '(values, self2) <-
    (if negb (is_type self1 ARRAY_END) then
       do '(v, self2) <- parse_value self1;
       array_loop parse_value fuel self2 [v]
     else Ok ([], self1));
  do self3 <- eat ARRAY_END self2;
  Ok (VList values, self3).

Fixpoint parse_value (fuel : nat) (self : t) : outcome (Value * t)%type :=
  match fuel with
  | O => OutOfFuel
  | S fuel' =>
      let token := current_token self in
      match Token.type token with
      | NUMBER =>
          do self1 <- eat NUMBER self;
          do n <- int_ 10 (Token.value token);
          Ok (VInt n, self1)
      | HEX_NUMBER =>
          do self1 <- eat HEX_NUMBER self;
          do n <- int_ 16 (Token.value token);
          Ok (VInt n, self1)
      | STRING =>
          do self1 <- eat STRING self;
          Ok (VStr (Token.value token), self1)
      | ARRAY_START => parse_array_with (parse_value fuel') fuel' self
      | NAME =>
          let name := Token.value token in
          do self1 <- eat NAME self;
          if is_type self1 CONST_EXPR_START then
            parse_const_expression fuel' (Some name) self1
          else
            match constants self1 !! name with
            | Some v => Ok (v, self1)
            | None => Ok (VStr name, self1)
            end
      | CONST_EXPR_START =>
          do self1 <- eat CONST_EXPR_START self;
          do '(result, self2) <- parse_const_expression_body fuel' self1;
          do self3 <- eat CONST_EXPR_END self2;
          Ok (result, self3)
      | ty => error self ("Unexpected token in value: " +:+ TokenType_str ty)
      end
  end.

Definition parse_array (fuel : nat) (self : t) : outcome (Value * t)%type :=
  parse_array_with (parse_value fuel) fuel self.

Definition parse_define (fuel : nat) (self : t) : outcome t :=
  do self1 <- eat DEFINE self;
  if negb (is_type self1 NAME) then error self1 "Expected name after define"
  else
    let name := Token.value (current_token self1) in
    do self2 <- eat NAME self1;
    do '(value, self3) <- parse_value fuel self2;
    Ok (mk (lexer self3) (current_token self3) (<[name := value]> (constants self3))).

(** One key/value pair of [parse_config] (lines 547-557): the key and
    its value. *)
Definition parse_pair (fuel : nat) (self : t) : outcome (string * Value * t)%type :=
  let key := Token.value (current_token self) in
  do self1 <- eat NAME self;
  do '(value, self2) <-
    (if is_type self1 CONST_EXPR_START then parse_const_expression fuel None self1
     else parse_value fuel self1);
  Ok (key, value, self2).

Fixpoint parse_config_loop (fuel : nat) (self : t) (config : Config) : outcome Config :=
  match fuel with
  | O => OutOfFuel
  | S fuel' =>
      if is_type self EOF then Ok config
      else if is_type self DEFINE then
        do self1 <- parse_define fuel' self;
        parse_config_loop fuel' self1 config
      else if is_type self NAME then
        do '(key, value, self1) <- parse_pair fuel' self;
        parse_config_loop fuel' self1 (dict_set key value config)
      else error self ("Unexpected token: " +:+ TokenType_str (cur_type self))
  end.

Definition parse_config (fuel : nat) (self : t) : outcome Config :=
  parse_config_loop fuel self [].

End Parser.

(** ** The translation *)

(** The core of [convert_to_json]: [Lexer(input_text)], [Parser(lexer)],
    [parser.parse_config()].  Every loop iteration and every nested call
    of the parser consumes a character, so one unit of fuel per character
    (and one more) is enough: see [parse_text_total]. *)
Definition parse_text (input_text : string) : outcome Config :=
  do parser <- Parser.init (Lexer.init input_text);
  Parser.parse_config (S (String.length input_text)) parser.

(** [convert_to_json]: the constructors run outside the [try]; inside it
    both handlers end in [sys.exit(1)] (what they print to the error
    stream is not modelled). *)
Definition convert_to_json (input_text : string) : outcome Config :=
  do parser <- Parser.init (Lexer.init input_text);
  match Parser.parse_config (S (String.length input_text)) parser with
  | Ok config => Ok config
  | Raise (SyntaxError _) => Raise (SystemExit 1)
  | Raise _ => Raise (SystemExit 1)
  | OutOfFuel => OutOfFuel
  end.

(** ** Notions used by the specification *)

(** The double quote character and a quoted string literal of the
    configuration language. *)
Definition dquote : string := String "034" EmptyString.
Definition literal (body : string) : string := "@" +:+ dquote +:+ body +:+ dquote.

Definition newline : string := String "010" EmptyString.

(** The number of characters the lexer has not read. *)
Abbreviation unread l := (String.length (Lexer.rest l)).

(** The exceptions the lexer and the parser raise: the parse error of
    [self.error], and the [TypeError] and [ValueError] of Python's own
    operations. *)
Definition raised (e : exn) : Prop :=
  match e with
  | SyntaxError _ | TypeError | ValueError => True
  | IndexError | ZeroDivisionError | SystemExit _ => False
  end.

(** [ensures r Q]: the computation [r] ends (it does not run out of
    fuel); when it returns a value, [Q] holds of it; when it raises, the
    exception is one of [raised]. *)
Definition ensures {A : Type} (r : outcome A) (Q : A -> Prop) : Prop :=
  match r with
  | Ok a => Q a
  | Raise e => raised e
  | OutOfFuel => False
  end.

(** What one call of [get_next_token] guarantees: a token other than the
    end of input takes at least one character. *)
Definition token_post (l : Lexer.t) (r : outcome (Token.t * Lexer.t)) : Prop :=
  ensures r (fun '(tok, l1) =>
    (unread l1 <= unread l)%nat /\ (Token.type tok <> EOF -> (unread l1 < unread l)%nat)).

(** The token stream of a lexer, up to and including the end-of-input
    token. *)
Fixpoint all_tokens (fuel : nat) (l : Lexer.t) : outcome (list Token.t) :=
  match fuel with
  | O => OutOfFuel
  | S fuel' =>
      do '(tok, l1) <- Lexer.get_next_token l;
      if bool_decide (Token.type tok = EOF) then Ok [tok]
      else do toks <- all_tokens fuel' l1; Ok (tok :: toks)
  end.

(** [scans_to l l']: the lexer, started at [l], stands at [l'] at the top
    of the loop of [get_next_token], after whole tokens, runs of white
    space and closed comments. *)
Inductive scans_to : Lexer.t -> Lexer.t -> Prop :=
| scans_here l : scans_to l l
| scans_token l tok l1 l' :
    Lexer.get_next_token l = Ok (tok, l1) ->
    Token.type tok <> EOF ->
    scans_to l1 l' ->
    scans_to l l'
| scans_space l c l' :
    Lexer.current_char l = Some c ->
    isspace c = true ->
    scans_to (Lexer.skip_whitespace l) l' ->
    scans_to l l'
| scans_line_comment l l' :
    Lexer.current_char l = Some "%"%char ->
    scans_to (Lexer.skip_single_comment (Lexer.advance l)) l' ->
    scans_to l l'
| scans_block_comment l l1 l' :
    Lexer.current_char l = Some "<"%char ->
    Lexer.peek l 1 = Some "#"%char ->
    Lexer.skip_multi_comment l = Ok l1 ->
    scans_to l1 l' ->
    scans_to l l'.

(** No [#>] occurs in [s]. *)
Fixpoint no_comment_end (s : string) : bool :=
  match s with
  | EmptyString => true
  | String c s' =>
      negb (ascii_eqb c "#" && match s' with String c' _ => ascii_eqb c' ">" | _ => false end)
      && no_comment_end s'
  end.

(** Every double quote of [s], read from the left, is the first of a
    doubled pair: no quote closes the literal. *)
Fixpoint no_string_end (s : string) : bool :=
  match s with
  | EmptyString => true
  | String c s' =>
      if ascii_eqb c "034" then
        match s' with
        | String c' s'' => ascii_eqb c' "034" && no_string_end s''
        | EmptyString => false
        end
      else no_string_end s'
  end.

Definition after2 (s : string) : string :=
  match s with String _ (String _ s') => s' | _ => EmptyString end.

(** The text ends inside a multi-line comment that is never closed. *)
Definition ends_in_comment (text : string) : Prop :=
  exists l, scans_to (Lexer.init text) l
    /\ Lexer.current_char l = Some "<"%char
    /\ Lexer.peek l 1 = Some "#"%char
    /\ no_comment_end (after2 (Lexer.rest l)) = true.

(** The text ends inside a string literal that is never closed. *)
Definition ends_in_string (text : string) : Prop :=
  exists l, scans_to (Lexer.init text) l
    /\ Lexer.current_char l = Some "@"%char
    /\ Lexer.peek l 1 = Some "034"%char
    /\ no_string_end (after2 (Lexer.rest l)) = true.

(** The number of arrays that are open after a token, when [depth] were
    open before it (a stray [ARRAY_END] at depth 0 closes nothing). *)
Definition bracket (depth : nat) (tok : Token.t) : nat :=
  match Token.type tok with
  | ARRAY_START => S depth
  | ARRAY_END => pred depth
  | _ => depth
  end.

Fixpoint array_depth (depth : nat) (toks : list Token.t) : nat :=
  match toks with
  | [] => depth
  | tok :: toks' => array_depth (bracket depth tok) toks'
  end.

(** The text ends inside an array: at the end of its token stream an
    array is still open. *)
Definition ends_in_array (text : string) : Prop :=
  exists fuel toks, all_tokens fuel (Lexer.init text) = Ok toks
    /\ (0 < array_depth 0 toks)%nat.

(** The tokens the parser takes from the lexer between two of its
    states (the constants are not looked at). *)
Inductive consumes : Parser.t -> list Token.t -> Parser.t -> Prop :=
| consumes_nil p p' :
    Parser.lexer p = Parser.lexer p' ->
    Parser.current_token p = Parser.current_token p' ->
    consumes p [] p'
| consumes_cons p tok l toks p' :
    Parser.cur_type p <> EOF ->
    Lexer.get_next_token (Parser.lexer p) = Ok (tok, l) ->
    consumes (Parser.mk l tok ∅) toks p' ->
    consumes p (Parser.current_token p :: toks) p'.

(** The parser moves from [p] to [p'] over tokens that close the arrays
    they open, and no other. *)
Definition advances (p p' : Parser.t) : Prop :=
  exists toks, consumes p toks p' /\ forall depth, array_depth depth toks = depth.

(** What is left to read: the unread characters, and the current token
    unless it is the end of input. *)
Definition remaining (p : Parser.t) : nat :=
  (String.length (Lexer.rest (Parser.lexer p))
   + if Parser.is_type p EOF then 0 else 1)%nat.

(** The key/value pairs of the top-level loop in input order: the loop of
    [parse_config] with the assignments [config[key] = value] recorded
    instead of performed. *)
Fixpoint parse_entries_loop (fuel : nat) (self : Parser.t)
  : outcome (list (string * Value)) :=
  match fuel with
  | O => OutOfFuel
  | S fuel' =>
      if Parser.is_type self EOF then Ok []
      else if Parser.is_type self DEFINE then
        do self1 <- Parser.parse_define fuel' self;
        parse_entries_loop fuel' self1
      else if Parser.is_type self NAME then
        do '(key, value, self1) <- Parser.parse_pair fuel' self;
        do entries <- parse_entries_loop fuel' self1;
        Ok ((key, value) :: entries)
      else Parser.error self ("Unexpected token: " +:+ TokenType_str (Parser.cur_type self))
  end.

Definition parse_entries (input_text : string) : outcome (list (string * Value)) :=
  do parser <- Parser.init (Lexer.init input_text);
  parse_entries_loop (S (String.length input_text)) parser.

(** [top_level fuel p config fuel' p' config']: the loop of
    [parse_config], started with [fuel] in state [p] with the Config
    [config], begins a later iteration with [fuel'] in state [p'] with the
    Config [config']. *)
Inductive top_level : nat -> Parser.t -> Config -> nat -> Parser.t -> Config -> Prop :=
| top_here fuel p config : top_level fuel p config fuel p config
| top_define fuel p config p1 fuel' p' config' :
    Parser.is_type p EOF = false ->
    Parser.is_type p DEFINE = true ->
    Parser.parse_define fuel p = Ok p1 ->
    top_level fuel p1 config fuel' p' config' ->
    top_level (S fuel) p config fuel' p' config'
| top_pair fuel p config key value p1 fuel' p' config' :
    Parser.is_type p EOF = false ->
    Parser.is_type p DEFINE = false ->
    Parser.is_type p NAME = true ->
    Parser.parse_pair fuel p = Ok (key, value, p1) ->
    top_level fuel p1 (dict_set key value config) fuel' p' config' ->
    top_level (S fuel) p config fuel' p' config'.

(** The value of the last pair with key [key]. *)
Fixpoint last_value (key : string) (entries : list (string * Value)) : option Value :=
  match entries with
  | [] => None
  | (k, v) :: entries' =>
      match last_value key entries' with
      | Some v' => Some v'
      | None => if String.eqb k key then Some v else None
      end
  end.

(** The Config after the assignments [config[key] = value] of the pairs,
    in order. *)
Definition config_of (entries : list (string * Value)) (config : Config) : Config :=
  fold_left (fun c '(key, value) => dict_set key value c) entries config.

(** [q] is the floor of the rational [a / b]. *)
Definition is_floor (a b q : Z) : Prop :=
  (0 < b -> q * b <= a < (q + 1) * b) /\ (b < 0 -> (q + 1) * b < a <= q * b).

(** ** Further notions *)

(** Every character of [s] satisfies [P]. *)
Fixpoint string_forall (P : ascii -> bool) (s : string) : bool :=
  match s with
  | EmptyString => true
  | String c s' => P c && string_forall P s'
  end.

(** The line and column of the lexer after [advance] over the characters
    of [s], from line [ln] and column [cl]. *)
Fixpoint pos_after (s : string) (ln cl : nat) : nat * nat :=
  match s with
  | EmptyString => (ln, cl)
  | String c s' =>
      if ascii_eqb c "010" then pos_after s' (ln + 1)%nat 1%nat
      else pos_after s' ln (cl + 1)%nat
  end.

(** [reads l consumed l1]: from [l] the lexer has read exactly the
    characters [consumed], and stands at [l1] with the line and column
    that [advance] gives over them. *)
Definition reads (l : Lexer.t) (consumed : string) (l1 : Lexer.t) : Prop :=
  Lexer.rest l = consumed +:+ Lexer.rest l1
  /\ (Lexer.line l1, Lexer.col l1) = pos_after consumed (Lexer.line l) (Lexer.col l).

(** The first character of [s], if any, fails [P]. *)
Definition stops_at (P : ascii -> bool) (s : string) : Prop :=
  match s with
  | String c _ => P c = false
  | EmptyString => True
  end.

(** A string with every double quote doubled: the body of a string
    literal that denotes it. *)
Fixpoint escape_quotes (s : string) : string :=
  match s with
  | EmptyString => EmptyString
  | String c s' =>
      if ascii_eqb c "034" then String c (String c (escape_quotes s'))
      else String c (escape_quotes s')
  end.

(** The characters of the text that a token stands for. *)
Definition lexeme_of (tok : Token.t) : string :=
  match Token.type tok with
  | STRING => "@" +:+ dquote +:+ escape_quotes (Token.value tok) +:+ dquote
  | DEFINE => "(define"
  | EOF => EmptyString
  | _ => Token.value tok
  end.

(** [token_at l tok l1]: from [l] the lexer has read some skipped
    characters and then the lexeme of [tok], it stands at [l1], and the
    line and column of [tok] are those of the first character of its
    lexeme. *)
Definition token_at (l : Lexer.t) (tok : Token.t) (l1 : Lexer.t) : Prop :=
  exists skipped,
    reads l (skipped +:+ lexeme_of tok) l1
    /\ (Token.line tok, Token.col tok) = pos_after skipped (Lexer.line l) (Lexer.col l).

(** What the value of a token looks like, by its type. *)
Definition token_shape (tok : Token.t) : Prop :=
  let value := Token.value tok in
  match Token.type tok with
  | COMMENT_SINGLE | COMMENT_MULTI_START | COMMENT_MULTI_END => False
  | DEFINE => value = "define"
  | CONST_EXPR_START => value = ".{"
  | CONST_EXPR_END => value = "}."
  | ARRAY_START => value = "["
  | ARRAY_END => value = "]"
  | COMMA => value = ","
  | EOF => value = EmptyString
  | STRING => True
  | NUMBER =>
      value <> EmptyString /\ string_forall isdigit value = true
  | HEX_NUMBER =>
      exists x digits,
        value = String "0" (String x digits)
        /\ (x = "x"%char \/ x = "X"%char)
        /\ string_forall is_hex_char digits = true
  | NAME =>
      exists c r,
        value = String c r
        /\ isalpha c && islower c = true
        /\ string_forall Lexer.name_char r = true
        /\ value <> "abs"
  | OPERATOR => value = "+" \/ value = "-" \/ value = "*" \/ value = "/"
  | FUNCTION => value = "abs"
  end.

(** [s] does not begin with a double quote. *)
Definition no_quote_first (s : string) : Prop :=
  match s with
  | String c _ => c <> "034"%char
  | EmptyString => True
  end.

(** The lexer at the text [r] after [advance] over the characters of
    [consumed] from line [ln] and column [cl]. *)
Definition lexer_after (consumed r : string) (ln cl : nat) : Lexer.t :=
  Lexer.mk r (fst (pos_after consumed ln cl)) (snd (pos_after consumed ln cl)).

Definition not_newline (c : ascii) : bool := negb (ascii_eqb c "010").

(** A name of the language: a lower-case letter, then letters, digits
    and underscores, and not the function name [abs]. *)
Definition is_name (s : string) : Prop :=
  exists c r,
    s = String c r
    /\ isalpha c && islower c = true
    /\ string_forall Lexer.name_char r = true
    /\ s <> "abs".

(** The number of values a token of a constant expression takes from the
    stack. *)
Definition arity (ty : TokenType) : nat :=
  match ty with
  | OPERATOR => 2
  | FUNCTION => 1
  | _ => 0
  end.

(** The keys of a Config, in its order. *)
Definition keys (config : Config) : list string := map fst config.

(** [e] is a lexical error whose line and column are those of the lexer
    after reading some prefix of the text that is unread at [l]. *)
Definition lexical_error_at (l : Lexer.t) (e : exn) : Prop :=
  exists consumed l' message,
    reads l consumed l'
    /\ e = SyntaxError (Lexer.error_text (Lexer.line l') (Lexer.col l') message).

(** The unread text of [l] ends with the digit [0]. *)
Definition ends_with_zero (l : Lexer.t) : Prop :=
  exists consumed, Lexer.rest l = consumed +:+ "0".

(** A character that begins no token: a letter that is not lower-case,
    an underscore, an opening brace or a closing parenthesis. *)
Definition stray_char (c : ascii) : bool :=
  (isalpha c && negb (islower c)) || ascii_eqb c "_" || ascii_eqb c "{" || ascii_eqb c ")".

(** A text of white space and comments only. *)
Inductive blank : string -> Prop :=
| blank_end : blank EmptyString
| blank_space c s : isspace c = true -> blank s -> blank (String c s)
| blank_line body s :
    string_forall not_newline body = true -> blank s ->
    blank ("%" +:+ body +:+ newline +:+ s)
| blank_last_line body :
    string_forall not_newline body = true -> blank ("%" +:+ body)
| blank_block body s :
    no_comment_end body = true -> blank s -> blank ("<#" +:+ body +:+ "#>" +:+ s).

(** One of the digits [0] to [9]. *)
Definition ascii_digit (c : ascii) : bool := in_range 48 57 c.

(** The texts of the tests of [test_config_parser.py] that are written
    in ASCII, as their triple-quoted strings denote them. *)

Definition test_basic_parsing_config : string :=
  newline +:+
  "        server_name @" +:+ dquote +:+ "Test Server" +:+ dquote +:+ newline +:+
  "        port 8080" +:+ newline +:+
  "        max_connections 100" +:+ newline +:+
  "        ".

Definition test_arrays_config : string :=
  newline +:+
  "        allowed_ips [ @" +:+ dquote +:+ "192.168.1.1" +:+ dquote +:+ ", @" +:+ dquote +:+ "10.0.0.1" +:+ dquote +:+ ", @" +:+ dquote +:+ "127.0.0.1" +:+ dquote +:+ " ]" +:+ newline +:+
  "        ports [ 80, 443, 8080 ]" +:+ newline +:+
  "        mixed_array [ 1, @" +:+ dquote +:+ "two" +:+ dquote +:+ ", 0x03 ]" +:+ newline +:+
  "        ".

Definition test_define_constants_config : string :=
  newline +:+
  "        (define max_users 100)" +:+ newline +:+
  "        (define app_name @" +:+ dquote +:+ "My Application" +:+ dquote +:+ ")" +:+ newline +:+
  newline +:+
  "        current_users 50" +:+ newline +:+
  "        application app_name" +:+ newline +:+
  "        ".

Definition test_nested_const_expressions_config : string :=
  newline +:+
  "        (define base 10)" +:+ newline +:+
  "        (define offset .{base 5 +}.)" +:+ newline +:+
  newline +:+
  "        result .{offset base *}." +:+ newline +:+
  "        ".

Definition test_hex_numbers_config : string :=
  newline +:+
  "        hex_small 0x0A" +:+ newline +:+
  "        hex_big 0xFF" +:+ newline +:+
  "        hex_upper 0XABCD" +:+ newline +:+
  "        ".

Definition test_complex_array_config : string :=
  newline +:+
  "        (define increment 5)" +:+ newline +:+
  newline +:+
  "        complex_array [" +:+ newline +:+
  "            .{increment 1 +}." +:+ newline +:+
  "            @" +:+ dquote +:+ "string" +:+ dquote +:+ newline +:+
  "            [ 1, 2, 3 ]" +:+ newline +:+
  "            0x10" +:+ newline +:+
  "        ]" +:+ newline +:+
  "        ".

Definition test_string_escaping_config : string :=
  newline +:+
  "        quoted @" +:+ dquote +:+ "He said " +:+ dquote +:+ "Hello, World!" +:+ dquote +:+ dquote +:+ newline +:+
  "        double_quotes @" +:+ dquote +:+ "This is a " +:+ dquote +:+ "test" +:+ dquote +:+ " string" +:+ dquote +:+ newline +:+
  "        ".


(** * Proofs *)

(** ** The outcome monad *)

Lemma bind_ok {A B : Type} (m : outcome A) (k : A -> outcome B) (b : B) :
  bind m k = Ok b -> exists a, m = Ok a /\ k a = Ok b.
Proof. destruct m; simpl; intros H; try discriminate; eauto. Qed.

Lemma bind_ret {A B : Type} (a : A) (k : A -> outcome B) : bind (Ok a) k = k a.
Proof. reflexivity. Qed.


(** ** The lexer consumes its input *)

Lemma scan_while_le P s ln cl acc :
  (unread (snd (Lexer.scan_while P s ln cl acc)) <= String.length s)%nat.
Proof.
  revert ln cl acc. induction s as [|c s IH]; intros ln cl acc; simpl; [lia|].
  destruct (P c); simpl; [|lia].
  etrans; [apply IH|lia].
Qed.

Lemma run_while_le P l : (unread (snd (Lexer.run_while P l)) <= unread l)%nat.
Proof. apply scan_while_le. Qed.

Lemma run_while_lt P l c :
  Lexer.current_char l = Some c -> P c = true ->
  (unread (snd (Lexer.run_while P l)) < unread l)%nat.
Proof.
  unfold Lexer.run_while, Lexer.current_char. destruct l as [s ln cl]; simpl.
  destruct s as [|c' s]; intros Hc HP; simplify_eq. simpl. rewrite HP.
  eapply Nat.le_lt_trans; [apply scan_while_le|lia].
Qed.

Lemma advance_le l : (unread (Lexer.advance l) <= unread l)%nat.
Proof.
  unfold Lexer.advance. destruct l as [s ln cl]; simpl.
  destruct s as [|c s]; simpl; [lia|]. destruct (ascii_eqb c "010"); simpl; lia.
Qed.

Lemma advance_lt l c :
  Lexer.current_char l = Some c -> (unread (Lexer.advance l) < unread l)%nat.
Proof.
  unfold Lexer.advance, Lexer.current_char. destruct l as [s ln cl]; simpl.
  destruct s as [|c' s]; intros Hc; simplify_eq. destruct (ascii_eqb c "010"); simpl; lia.
Qed.

Lemma rest_advance_cons c s ln cl :
  Lexer.rest (Lexer.advance (Lexer.mk (String c s) ln cl)) = s.
Proof. unfold Lexer.advance; simpl. destruct (ascii_eqb c "010"); reflexivity. Qed.

Lemma skip_whitespace_lt l c :
  Lexer.current_char l = Some c -> isspace c = true ->
  (unread (Lexer.skip_whitespace l) < unread l)%nat.
Proof. apply run_while_lt. Qed.

Lemma skip_single_comment_le l : (unread (Lexer.skip_single_comment l) <= unread l)%nat.
Proof.
  unfold Lexer.skip_single_comment.
  pose proof (run_while_le (fun c => negb (ascii_eqb c "010")) l) as H.
  destruct (opt_is _ _); [etrans; [apply advance_le|]|]; exact H.
Qed.

Lemma skip_multi_comment_loop_le s ln cl l :
  Lexer.skip_multi_comment_loop s ln cl = Ok l -> (unread l <= String.length s)%nat.
Proof.
  revert ln cl. induction s as [|c s IH]; intros ln cl; simpl; [discriminate|].
  destruct (ascii_eqb c "#" && opt_is _ _).
  - intros [= <-].
    etrans; [apply advance_le|]. etrans; [apply advance_le|]. simpl. lia.
  - intros H. apply IH in H. lia.
Qed.

Lemma skip_multi_comment_lt l l1 c :
  Lexer.current_char l = Some c ->
  Lexer.skip_multi_comment l = Ok l1 -> (unread l1 < unread l)%nat.
Proof.
  unfold Lexer.skip_multi_comment. intros Hc H.
  apply skip_multi_comment_loop_le in H.
  pose proof (advance_le (Lexer.advance l)). pose proof (advance_lt _ _ Hc). lia.
Qed.

Lemma read_string_loop_le s ln cl acc r l :
  Lexer.read_string_loop s ln cl acc = Ok (r, l) -> (unread l <= String.length s)%nat.
Proof.
  remember (String.length s) as n eqn:Hn.
  assert (Hle : (String.length s <= n)%nat) by lia. clear Hn.
  revert s Hle ln cl acc r l. induction n as [|n IH]; intros s Hle ln cl acc r l.
  { destruct s; simpl in *; [discriminate|lia]. }
  destruct s as [|c s']; simpl; [discriminate|]. simpl in Hle.
  destruct (ascii_eqb c "034").
  - destruct s' as [|c' s'']; simpl.
    + intros [= <- <-]. rewrite rest_advance_cons. simpl. clear IH. lia.
    + destruct (ascii_eqb c' "034").
      * intros H. apply IH in H; clear IH; simpl in *; lia.
      * intros [= <- <-]. rewrite rest_advance_cons. simpl in *. lia.
  - intros H. apply IH in H; clear IH; simpl; lia.
Qed.

Lemma read_string_lt l r l1 c :
  Lexer.current_char l = Some c ->
  Lexer.read_string l = Ok (r, l1) -> (unread l1 < unread l)%nat.
Proof.
  unfold Lexer.read_string. intros Hc H.
  apply read_string_loop_le in H.
  pose proof (advance_le (Lexer.advance l)). pose proof (advance_lt _ _ Hc). lia.
Qed.

Lemma read_number_lt l r l1 c :
  Lexer.current_char l = Some c -> isdigit c = true ->
  Lexer.read_number l = Ok (r, l1) -> (unread l1 < unread l)%nat.
Proof.
  unfold Lexer.read_number. intros Hc Hd H.
  assert (Hdec : forall r l1, Ok (Lexer.run_while isdigit l) = Ok (r, l1) ->
                              (unread l1 < unread l)%nat).
  { intros r' l' [= E]. pose proof (run_while_lt isdigit l c Hc Hd) as Hlt.
    rewrite E in Hlt. exact Hlt. }
  destruct (opt_is _ _); [|eauto].
  destruct (Lexer.peek l 1) as [x|]; [|discriminate].
  destruct (ascii_eqb x "x" || ascii_eqb x "X"); [|eauto].
  injection H as H.
  match type of H with Lexer.scan_while ?P ?s ?a ?b ?acc = _ =>
    pose proof (scan_while_le P s a b acc) as Hle end.
  rewrite H in Hle. simpl in Hle.
  pose proof (advance_le (Lexer.advance l)). pose proof (advance_lt _ _ Hc). lia.
Qed.

Lemma read_name_le l : (unread (snd (Lexer.read_name l)) <= unread l)%nat.
Proof. apply run_while_le. Qed.

Lemma read_name_lt l c :
  Lexer.current_char l = Some c -> Lexer.name_char c = true ->
  (unread (snd (Lexer.read_name l)) < unread l)%nat.
Proof. apply run_while_lt. Qed.

Lemma isalpha_name_char c : isalpha c = true -> Lexer.name_char c = true.
Proof. unfold Lexer.name_char, isalnum. intros ->. reflexivity. Qed.

Lemma skip_multi_comment_loop_ends s ln cl :
  ensures (Lexer.skip_multi_comment_loop s ln cl) (fun _ => True).
Proof.
  revert ln cl. induction s as [|a s IHs]; intros ln cl; simpl; [exact I|].
  destruct (_ && _); [exact I|]. apply IHs.
Qed.

Lemma read_string_loop_ends s ln cl acc :
  ensures (Lexer.read_string_loop s ln cl acc) (fun _ => True).
Proof.
  remember (String.length s) as n eqn:Hn.
  assert (Hle : (String.length s <= n)%nat) by lia. clear Hn.
  revert s Hle ln cl acc. induction n as [|n IH]; intros s Hle ln cl acc.
  { destruct s; simpl in *; [exact I|lia]. }
  destruct s as [|c s']; simpl; [exact I|]. simpl in Hle.
  destruct (ascii_eqb c "034").
  - destruct s' as [|c' s'']; simpl; [exact I|].
    destruct (ascii_eqb c' "034"); [|exact I].
    apply IH. simpl in Hle. lia.
  - apply IH. lia.
Qed.

Lemma read_number_ends l : ensures (Lexer.read_number l) (fun _ => True).
Proof.
  unfold Lexer.read_number. destruct (opt_is _ _); [|exact I].
  destruct (Lexer.peek l 1); [|exact I].
  destruct (_ || _); exact I.
Qed.

Lemma token_post_mono l l0 r :
  (unread l <= unread l0)%nat -> token_post l r -> token_post l0 r.
Proof.
  unfold token_post. destruct r as [[tok l1]| |]; simpl; auto.
  intros Hle [H1 H2]; split; [lia|]. intros H'. specialize (H2 H'). lia.
Qed.

Lemma get_next_token_loop_post fuel l :
  (unread l < fuel)%nat -> token_post l (Lexer.get_next_token_loop fuel l).
Proof.
  revert l. induction fuel as [|fuel IH]; intros l Hf; [lia|].
  unfold token_post in *.
  simpl. destruct (Lexer.current_char l) as [c|] eqn:Hc; [|simpl; split; [lia|done]].
  pose proof (advance_lt _ _ Hc) as Hadv.
  pose proof (advance_le (Lexer.advance l)) as Hadv2.
  destruct (isspace c) eqn:Hsp.
  { pose proof (skip_whitespace_lt _ _ Hc Hsp).
    eapply token_post_mono; [|apply IH]; lia. }
  destruct (ascii_eqb c "%").
  { pose proof (skip_single_comment_le (Lexer.advance l)).
    eapply token_post_mono; [|apply IH]; lia. }
  destruct (ascii_eqb c "<" && opt_is (Lexer.peek l 1) "#").
  { pose proof (skip_multi_comment_loop_ends
                  (Lexer.rest (Lexer.advance (Lexer.advance l)))
                  (Lexer.line (Lexer.advance (Lexer.advance l)))
                  (Lexer.col (Lexer.advance (Lexer.advance l)))) as Hends.
    fold (Lexer.skip_multi_comment l) in Hends.
    destruct (Lexer.skip_multi_comment l) as [l1| |] eqn:Hm; simpl; [|exact Hends|exact Hends].
    pose proof (skip_multi_comment_lt _ _ _ Hc Hm).
    eapply token_post_mono; [|apply IH]; lia. }
  destruct (ascii_eqb c "." && opt_is (Lexer.peek l 1) "{"). { simpl. split; intros; lia. }
  destruct (ascii_eqb c "}" && opt_is (Lexer.peek l 1) "."). { simpl. split; intros; lia. }
  destruct (ascii_eqb c "@" && opt_is (Lexer.peek l 1) "034").
  { pose proof (read_string_loop_ends
                  (Lexer.rest (Lexer.advance (Lexer.advance l)))
                  (Lexer.line (Lexer.advance (Lexer.advance l)))
                  (Lexer.col (Lexer.advance (Lexer.advance l))) EmptyString) as Hends.
    fold (Lexer.read_string l) in Hends.
    destruct (Lexer.read_string l) as [[v l1]| |] eqn:Hr; simpl; [|exact Hends|exact Hends].
    pose proof (read_string_lt _ _ _ _ Hc Hr). split; intros; lia. }
  destruct (ascii_eqb c "(").
  { destruct (Lexer.read_name (Lexer.advance l)) as [name l1] eqn:Hn.
    pose proof (read_name_le (Lexer.advance l)) as Hle. rewrite Hn in Hle. simpl in Hle.
    destruct (String.eqb name "define"); simpl; [split; intros; lia|exact I]. }
  destruct (ascii_eqb c "["). { simpl. split; intros; lia. }
  destruct (ascii_eqb c "]"). { simpl. split; intros; lia. }
  destruct (ascii_eqb c ","). { simpl. split; intros; lia. }
  destruct (isdigit c) eqn:Hd.
  { pose proof (read_number_ends l) as Hends.
    destruct (Lexer.read_number l) as [[v l1]| |] eqn:Hr; simpl; [|exact Hends|exact Hends].
    pose proof (read_number_lt _ _ _ _ Hc Hd Hr).
    destruct (Lexer.starts_with_0x v); simpl; split; intros; lia. }
  destruct (isalpha c && islower c) eqn:Hal.
  { apply andb_true_iff in Hal as [Hal _].
    pose proof (read_name_lt l c Hc (isalpha_name_char _ Hal)) as Hlt.
    destruct (Lexer.read_name l) as [name l1]. simpl in Hlt.
    destruct (String.eqb name "abs"); [simpl; split; intros; lia|].
    destruct (Lexer.is_operator_name name); simpl; split; intros; lia. }
  destruct (Lexer.is_operator_char c); simpl; [split; intros; lia|exact I].
Qed.

Lemma get_next_token_post l : token_post l (Lexer.get_next_token l).
Proof. apply get_next_token_loop_post. lia. Qed.


(** The fuel of [get_next_token_loop] does not matter once it exceeds
    the number of unread characters. *)
Lemma get_next_token_loop_fuel f1 f2 l :
  (unread l < f1)%nat -> (unread l < f2)%nat ->
  Lexer.get_next_token_loop f1 l = Lexer.get_next_token_loop f2 l.
Proof.
  revert f2 l. induction f1 as [|f1 IH]; intros f2 l H1 H2; [lia|].
  destruct f2 as [|f2]; [lia|]. simpl.
  destruct (Lexer.current_char l) as [c|] eqn:Hc; [|done].
  pose proof (advance_lt _ _ Hc) as Hadv.
  destruct (isspace c) eqn:Hsp.
  { pose proof (skip_whitespace_lt _ _ Hc Hsp). apply IH; lia. }
  destruct (ascii_eqb c "%").
  { pose proof (skip_single_comment_le (Lexer.advance l)). apply IH; lia. }
  destruct (ascii_eqb c "<" && opt_is (Lexer.peek l 1) "#"); [|done].
  destruct (Lexer.skip_multi_comment l) as [l1| |] eqn:Hm; simpl; [|done|done].
  pose proof (skip_multi_comment_lt _ _ _ Hc Hm). apply IH; lia.
Qed.


Lemma get_next_token_space l c :
  Lexer.current_char l = Some c -> isspace c = true ->
  Lexer.get_next_token l = Lexer.get_next_token (Lexer.skip_whitespace l).
Proof.
  intros Hc Hsp. pose proof (skip_whitespace_lt _ _ Hc Hsp).
  unfold Lexer.get_next_token at 1. simpl. rewrite Hc, Hsp.
  apply get_next_token_loop_fuel; lia.
Qed.

Lemma get_next_token_line_comment l :
  Lexer.current_char l = Some "%"%char ->
  Lexer.get_next_token l
  = Lexer.get_next_token (Lexer.skip_single_comment (Lexer.advance l)).
Proof.
  intros Hc. pose proof (advance_lt _ _ Hc).
  pose proof (skip_single_comment_le (Lexer.advance l)).
  unfold Lexer.get_next_token at 1. simpl. rewrite Hc. simpl.
  apply get_next_token_loop_fuel; lia.
Qed.

Lemma get_next_token_block_comment l :
  Lexer.current_char l = Some "<"%char -> Lexer.peek l 1 = Some "#"%char ->
  Lexer.get_next_token l
  = (do l1 <- Lexer.skip_multi_comment l; Lexer.get_next_token l1).
Proof.
  intros Hc Hp. unfold Lexer.get_next_token at 1. simpl. rewrite Hc, Hp. simpl.
  destruct (Lexer.skip_multi_comment l) as [l1| |] eqn:Hm; simpl; [|done|done].
  pose proof (skip_multi_comment_lt _ _ _ Hc Hm).
  apply get_next_token_loop_fuel; lia.
Qed.

Lemma get_next_token_string l :
  Lexer.current_char l = Some "@"%char -> Lexer.peek l 1 = Some "034"%char ->
  Lexer.get_next_token l
  = (do '(value, l1) <- Lexer.read_string l;
     Ok (Token.mk STRING value (Lexer.line l) (Lexer.col l), l1)).
Proof.
  intros Hc Hp. unfold Lexer.get_next_token. simpl. rewrite Hc, Hp. reflexivity.
Qed.

(** ** Unclosed comments and strings *)

Lemma skip_multi_comment_loop_unclosed s ln cl :
  no_comment_end s = true ->
  exists ln' cl', Lexer.skip_multi_comment_loop s ln cl
    = Raise (SyntaxError (Lexer.error_text ln' cl' "Unclosed multi-line comment")).
Proof.
  revert ln cl. induction s as [|c s IH]; intros ln cl; simpl.
  - intros _. exists ln, cl. reflexivity.
  - intros [Hc Hs]%andb_true_iff. apply negb_true_iff in Hc.
    replace (opt_is (Lexer.peek _ 1) ">")
      with (match s with String c' _ => ascii_eqb c' ">" | _ => false end)
      by (destruct s; reflexivity).
    rewrite Hc. apply IH, Hs.
Qed.

Lemma read_string_loop_unclosed s ln cl acc :
  no_string_end s = true ->
  exists ln' cl', Lexer.read_string_loop s ln cl acc
    = Raise (SyntaxError (Lexer.error_text ln' cl' "Unclosed string")).
Proof.
  remember (String.length s) as n eqn:Hn.
  assert (Hle : (String.length s <= n)%nat) by lia. clear Hn.
  revert s Hle ln cl acc. induction n as [|n IH]; intros s Hle ln cl acc.
  { destruct s; simpl in *; [|lia]. intros _. exists ln, cl. reflexivity. }
  destruct s as [|c s']; simpl; [intros _; exists ln, cl; reflexivity|]. simpl in Hle.
  destruct (ascii_eqb c "034").
  - destruct s' as [|c' s'']; simpl; [discriminate|].
    intros [-> Hs]%andb_true_iff. apply IH; [simpl in Hle; lia|exact Hs].
  - intros Hs. apply IH; [lia|exact Hs].
Qed.

Lemma rest_advance2 l c :
  Lexer.current_char l = Some c ->
  Lexer.rest (Lexer.advance (Lexer.advance l)) = after2 (Lexer.rest l).
Proof.
  destruct l as [s ln cl]. unfold Lexer.current_char; simpl.
  destruct s as [|c1 s]; [discriminate|]. intros _.
  unfold Lexer.advance at 2. simpl.
  destruct (ascii_eqb c1 "010"); destruct s as [|c2 s]; simpl;
    unfold Lexer.advance; simpl; try reflexivity;
    destruct (ascii_eqb c2 "010"); reflexivity.
Qed.

Lemma unclosed_comment_raises l :
  Lexer.current_char l = Some "<"%char -> Lexer.peek l 1 = Some "#"%char ->
  no_comment_end (after2 (Lexer.rest l)) = true ->
  exists ln cl, Lexer.get_next_token l
    = Raise (SyntaxError (Lexer.error_text ln cl "Unclosed multi-line comment")).
Proof.
  intros Hc Hp Hno. rewrite get_next_token_block_comment by assumption.
  unfold Lexer.skip_multi_comment.
  rewrite <- (rest_advance2 _ _ Hc) in Hno.
  destruct (skip_multi_comment_loop_unclosed _
              (Lexer.line (Lexer.advance (Lexer.advance l)))
              (Lexer.col (Lexer.advance (Lexer.advance l))) Hno) as (ln & cl & E).
  exists ln, cl. rewrite E. reflexivity.
Qed.

Lemma unclosed_string_raises l :
  Lexer.current_char l = Some "@"%char -> Lexer.peek l 1 = Some "034"%char ->
  no_string_end (after2 (Lexer.rest l)) = true ->
  exists ln cl, Lexer.get_next_token l
    = Raise (SyntaxError (Lexer.error_text ln cl "Unclosed string")).
Proof.
  intros Hc Hp Hno. rewrite get_next_token_string by assumption.
  unfold Lexer.read_string.
  rewrite <- (rest_advance2 _ _ Hc) in Hno.
  destruct (read_string_loop_unclosed _
              (Lexer.line (Lexer.advance (Lexer.advance l)))
              (Lexer.col (Lexer.advance (Lexer.advance l))) EmptyString Hno) as (ln & cl & E).
  exists ln, cl. rewrite E. reflexivity.
Qed.

(** ** The token stream *)

Lemma all_tokens_scan l l' e :
  scans_to l l' -> Lexer.get_next_token l' = Raise e ->
  exists fuel, all_tokens fuel l = Raise e.
Proof.
  intros Hs He. induction Hs as [l|l tok l1 l' Ht Hne _ IH|l c l' Hc Hsp _ IH
                                |l l' Hc _ IH|l l1 l' Hc Hp Hm _ IH].
  - exists 1%nat. simpl. rewrite He. reflexivity.
  - destruct (IH He) as [fuel E]. exists (S fuel). simpl. rewrite Ht. simpl.
    rewrite bool_decide_eq_false_2 by assumption. rewrite E. reflexivity.
  - destruct (IH He) as [fuel E]. exists fuel. destruct fuel as [|fuel]; [discriminate|].
    simpl in *. rewrite (get_next_token_space _ _ Hc Hsp). exact E.
  - destruct (IH He) as [fuel E]. exists fuel. destruct fuel as [|fuel]; [discriminate|].
    simpl in *. rewrite (get_next_token_line_comment _ Hc). exact E.
  - destruct (IH He) as [fuel E]. exists fuel. destruct fuel as [|fuel]; [discriminate|].
    simpl in *. rewrite (get_next_token_block_comment _ Hc Hp), Hm. exact E.
Qed.

Lemma all_tokens_ok_raise f1 f2 l toks e :
  all_tokens f1 l = Ok toks -> all_tokens f2 l = Raise e -> False.
Proof.
  revert f2 l toks. induction f1 as [|f1 IH]; intros f2 l toks; [discriminate|].
  destruct f2 as [|f2]; [discriminate|]. simpl.
  destruct (Lexer.get_next_token l) as [[tok l1]| |]; simpl; try discriminate.
  destruct (bool_decide _); [discriminate|].
  destruct (all_tokens f1 l1) eqn:E1; simpl; try discriminate.
  destruct (all_tokens f2 l1) eqn:E2; simpl; try discriminate.
  intros _ [= <-]. eapply IH; eassumption.
Qed.

Lemma all_tokens_functional f1 f2 l toks1 toks2 :
  all_tokens f1 l = Ok toks1 -> all_tokens f2 l = Ok toks2 -> toks1 = toks2.
Proof.
  revert f2 l toks1 toks2. induction f1 as [|f1 IH]; intros f2 l toks1 toks2; [discriminate|].
  destruct f2 as [|f2]; [discriminate|]. simpl.
  destruct (Lexer.get_next_token l) as [[tok l1]| |]; simpl; try discriminate.
  destruct (bool_decide _); [congruence|].
  destruct (all_tokens f1 l1) eqn:E1; simpl; try discriminate.
  destruct (all_tokens f2 l1) eqn:E2; simpl; try discriminate.
  intros [= <-] [= <-]. f_equal. eapply IH; eassumption.
Qed.

(** ** The parser consumes the token stream *)

Lemma ensures_bind {A B : Type} (m : outcome A) (k : A -> outcome B) (Q : B -> Prop) :
  ensures m (fun a => ensures (k a) Q) -> ensures (bind m k) Q.
Proof. destruct m; simpl; auto. Qed.

Lemma ensures_mono {A : Type} (r : outcome A) (Q Q' : A -> Prop) :
  ensures r Q -> (forall a, Q a -> Q' a) -> ensures r Q'.
Proof. destruct r; simpl; auto. Qed.


Lemma ensures_ends {A : Type} (r : outcome A) (Q : A -> Prop) :
  ensures r Q -> r <> OutOfFuel.
Proof. intros H ->. exact H. Qed.


Lemma ensures_error {A : Type} p msg (Q : A -> Prop) : ensures (Parser.error p msg) Q.
Proof. exact I. Qed.

Lemma is_type_true p ty : Parser.is_type p ty = true <-> Parser.cur_type p = ty.
Proof. unfold Parser.is_type. apply bool_decide_eq_true. Qed.

Lemma is_type_false p ty : Parser.is_type p ty = false <-> Parser.cur_type p <> ty.
Proof. unfold Parser.is_type. apply bool_decide_eq_false. Qed.

Lemma consumes_same p q toks p' :
  Parser.lexer p = Parser.lexer q -> Parser.current_token p = Parser.current_token q ->
  consumes p toks p' -> consumes q toks p'.
Proof.
  intros Hl Hc H. destruct H as [p p' H1 H2|p tok l toks p' Hne Ht H].
  - apply consumes_nil; congruence.
  - rewrite Hc. eapply consumes_cons; [|rewrite <- Hl; exact Ht|exact H].
    unfold Parser.cur_type in *. congruence.
Qed.

Lemma consumes_app p toks1 p1 toks2 p2 :
  consumes p toks1 p1 -> consumes p1 toks2 p2 -> consumes p (toks1 ++ toks2) p2.
Proof.
  intros H1 H2. induction H1 as [p p1 Hl Hc|p tok l toks p1 Hne Ht H IH]; simpl.
  - eapply consumes_same; [symmetry; exact Hl|symmetry; exact Hc|exact H2].
  - eapply consumes_cons; eauto.
Qed.

Lemma consumes_one p tok l c :
  Parser.cur_type p <> EOF -> Lexer.get_next_token (Parser.lexer p) = Ok (tok, l) ->
  consumes p [Parser.current_token p] (Parser.mk l tok c).
Proof.
  intros Hne Ht. eapply consumes_cons; [exact Hne|exact Ht|].
  apply consumes_nil; reflexivity.
Qed.

Lemma consumes_remaining p toks p' :
  consumes p toks p' -> (remaining p' + length toks <= remaining p)%nat.
Proof.
  induction 1 as [p p' Hl Hc|p tok l toks p' Hne Ht H IH]; simpl.
  - unfold remaining, Parser.is_type, Parser.cur_type. rewrite Hl, Hc. lia.
  - pose proof (get_next_token_post (Parser.lexer p)) as Hp. rewrite Ht in Hp.
    destruct Hp as [Hle Hlt].
    apply is_type_false in Hne.
    assert (Hstep : (remaining (Parser.mk l tok ∅) + 1 <= remaining p)%nat).
    { unfold remaining. rewrite Hne. simpl.
      unfold Parser.is_type, Parser.cur_type. simpl.
      destruct (bool_decide (Token.type tok = EOF)) eqn:E; [lia|].
      apply bool_decide_eq_false in E. specialize (Hlt E). lia. }
    lia.
Qed.

Lemma array_depth_app depth toks1 toks2 :
  array_depth depth (toks1 ++ toks2) = array_depth (array_depth depth toks1) toks2.
Proof.
  revert depth. induction toks1 as [|t toks1 IH]; intros depth; simpl; [reflexivity|].
  apply IH.
Qed.

Lemma advances_refl p : advances p p.
Proof. exists []. split; [apply consumes_nil; reflexivity|]. reflexivity. Qed.

Lemma advances_trans p1 p2 p3 : advances p1 p2 -> advances p2 p3 -> advances p1 p3.
Proof.
  intros (t1 & H1 & B1) (t2 & H2 & B2). exists (t1 ++ t2). split.
  - eapply consumes_app; eassumption.
  - intros depth. by rewrite array_depth_app, B1, B2.
Qed.

Lemma advances_remaining p p' : advances p p' -> (remaining p' <= remaining p)%nat.
Proof. intros (toks & H & _). apply consumes_remaining in H. lia. Qed.

Lemma advances_constants p p' c :
  advances p p' ->
  advances p (Parser.mk (Parser.lexer p') (Parser.current_token p') c).
Proof.
  intros H. eapply advances_trans; [exact H|].
  exists []. split; [apply consumes_nil; reflexivity|]. reflexivity.
Qed.

(** [eat] takes exactly the current token, which has the expected
    type. *)
Lemma eat_ensures ty p :
  ty <> EOF ->
  ensures (Parser.eat ty p) (fun p1 =>
    consumes p [Parser.current_token p] p1
    /\ Parser.cur_type p = ty
    /\ Parser.constants p1 = Parser.constants p
    /\ (remaining p1 < remaining p)%nat).
Proof.
  intros Hne. unfold Parser.eat.
  destruct (Parser.is_type p ty) eqn:E; [|exact I].
  apply is_type_true in E.
  pose proof (get_next_token_post (Parser.lexer p)) as Hp.
  unfold token_post in Hp.
  destruct (Lexer.get_next_token (Parser.lexer p)) as [[tok l]| |] eqn:Ht; simpl; [|exact Hp|exact Hp].
  assert (Hc : consumes p [Parser.current_token p] (Parser.mk l tok (Parser.constants p))).
  { apply consumes_one; [congruence|exact Ht]. }
  repeat split; [exact Hc|exact E|].
  apply consumes_remaining in Hc. simpl in Hc. lia.
Qed.

Lemma eat_advances ty p :
  ty <> EOF -> ty <> ARRAY_START -> ty <> ARRAY_END ->
  ensures (Parser.eat ty p) (fun p1 =>
    advances p p1 /\ Parser.constants p1 = Parser.constants p
    /\ (remaining p1 < remaining p)%nat).
Proof.
  intros H1 H2 H3. eapply ensures_mono; [apply eat_ensures, H1|].
  intros p1 (Hc & Hty & Hk & Hr). repeat split; [|exact Hk|exact Hr].
  exists [Parser.current_token p]. split; [exact Hc|].
  intros depth. simpl. unfold bracket. unfold Parser.cur_type in Hty. rewrite Hty.
  destruct ty; done.
Qed.

Lemma int_ensures base s (Q : Z -> Prop) : (forall n, Q n) -> ensures (int_ base s) Q.
Proof. intros H. unfold int_. destruct (py_int base s); simpl; auto. Qed.

Lemma pop_ensures stack (Q : Value * list Value -> Prop) :
  stack <> [] ->
  (forall x r, stack = r ++ [x] -> Q (x, r)) -> ensures (pop stack) Q.
Proof.
  intros Hne H. unfold pop. destruct (rev stack) as [|x r] eqn:E; simpl.
  - apply (f_equal (@rev Value)) in E. rewrite rev_involutive in E. done.
  - apply H. apply (f_equal (@rev Value)) in E. by rewrite rev_involutive in E.
Qed.

(** The two operands of an operator are there once the stack has two
    elements. *)
Lemma pop_two_ensures stack
    (k : Value -> Value -> list Value -> outcome (list Value)) (R : list Value -> Prop) :
  (length stack <? 2)%nat = false ->
  (forall a b stack2, ensures (k a b stack2) R) ->
  ensures (do '(b, stack1) <- pop stack; do '(a, stack2) <- pop stack1; k a b stack2) R.
Proof.
  intros Hlen Hk. apply Nat.ltb_ge in Hlen.
  apply ensures_bind, pop_ensures; [destruct stack; simpl in *; [lia|done]|].
  intros b stack1 ->. rewrite length_app in Hlen. simpl in Hlen.
  apply ensures_bind, pop_ensures; [destruct stack1; simpl in *; [lia|done]|].
  intros a stack2 _. apply Hk.
Qed.

Lemma py_add_ensures a b (Q : Value -> Prop) : (forall r, Q r) -> ensures (py_add a b) Q.
Proof. intros H. destruct a, b; simpl; auto. Qed.

Lemma py_sub_ensures a b (Q : Value -> Prop) : (forall r, Q r) -> ensures (py_sub a b) Q.
Proof. intros H. destruct a, b; simpl; auto. Qed.

Lemma py_mul_ensures a b (Q : Value -> Prop) : (forall r, Q r) -> ensures (py_mul a b) Q.
Proof. intros H. destruct a, b; simpl; auto. Qed.

(** Behind the test [b == 0], [a // b] raises no [ZeroDivisionError]. *)
Lemma py_floordiv_ensures a b (Q : Value -> Prop) :
  py_eq_zero b = false -> (forall r, Q r) -> ensures (py_floordiv a b) Q.
Proof. intros Hb H. destruct a, b; simpl in *; auto. rewrite Hb. simpl. auto. Qed.

Lemma py_abs_ensures a (Q : Value -> Prop) : (forall r, Q r) -> ensures (py_abs a) Q.
Proof. intros H. destruct a; simpl; auto. Qed.

Ltac ensures_op :=
  repeat first
    [ exact I
    | apply ensures_error
    | apply ensures_bind
    | apply py_add_ensures; intros ?
    | apply py_sub_ensures; intros ?
    | apply py_mul_ensures; intros ?
    | apply py_floordiv_ensures; [assumption|intros ?]
    | apply py_abs_ensures; intros ?
    | solve [simpl; auto]
    | match goal with
      | |- ensures (if ?b then _ else _) _ => destruct b eqn:?
      end ].

Lemma body_operator_ensures p op stack (Q : list Value -> Prop) :
  (forall r, Q r) -> ensures (Parser.body_operator p op stack) Q.
Proof.
  intros H. unfold Parser.body_operator.
  destruct (length stack <? 2)%nat eqn:Hlen; [apply ensures_error|].
  apply pop_two_ensures; [exact Hlen|]. intros a b stack2. ensures_op.
Qed.

Lemma expr_operator_ensures p op stack (Q : list Value -> Prop) :
  (forall r, Q r) -> ensures (Parser.expr_operator p op stack) Q.
Proof.
  intros H. unfold Parser.expr_operator.
  destruct (length stack <? 2)%nat eqn:Hlen; [apply ensures_error|].
  apply pop_two_ensures; [exact Hlen|]. intros a b stack2. ensures_op.
Qed.

Lemma body_function_ensures p func stack (Q : list Value -> Prop) :
  (forall r, Q r) -> ensures (Parser.body_function p func stack) Q.
Proof.
  intros H. unfold Parser.body_function.
  destruct (String.eqb func "abs"); [|apply ensures_error].
  destruct (length stack <? 1)%nat eqn:Hlen; [apply ensures_error|].
  apply Nat.ltb_ge in Hlen.
  apply ensures_bind, pop_ensures; [destruct stack; simpl in *; [lia|done]|].
  intros arg stack1 _. ensures_op.
Qed.

Lemma expr_function_ensures p func stack (Q : list Value -> Prop) :
  (forall r, Q r) -> ensures (Parser.expr_function p func stack) Q.
Proof.
  intros H. unfold Parser.expr_function.
  destruct (String.eqb func "abs"); [|apply ensures_error].
  destruct (length stack <? 1)%nat eqn:Hlen; [apply ensures_error|].
  apply Nat.ltb_ge in Hlen.
  apply ensures_bind, pop_ensures; [destruct stack; simpl in *; [lia|done]|].
  intros arg stack1 _. ensures_op.
Qed.

Tactic Notation "ensures_eat" "as" ident(p) :=
  apply ensures_bind; eapply ensures_mono; [apply eat_advances; done|];
  intros p (? & ? & ?).

Lemma body_step_ensures p stack :
  ensures (Parser.body_step p stack) (fun '(_, p1) =>
    advances p p1 /\ Parser.constants p1 = Parser.constants p
    /\ (remaining p1 < remaining p)%nat).
Proof.
  unfold Parser.body_step.
  destruct (Token.type (Parser.current_token p)); try apply ensures_error.
  - ensures_eat as p1. apply ensures_bind, int_ensures. intros n. simpl. auto.
  - ensures_eat as p1. apply ensures_bind, int_ensures. intros n. simpl. auto.
  - ensures_eat as p1. destruct (Parser.constants _ !! _); simpl; auto.
  - ensures_eat as p1. apply ensures_bind, body_operator_ensures. intros r. simpl. auto.
  - ensures_eat as p1. apply ensures_bind, body_function_ensures. intros r. simpl. auto.
Qed.

Lemma expr_step_ensures p stack :
  ensures (Parser.expr_step p stack) (fun '(_, p1) =>
    advances p p1 /\ Parser.constants p1 = Parser.constants p
    /\ (remaining p1 < remaining p)%nat).
Proof.
  unfold Parser.expr_step.
  destruct (Token.type (Parser.current_token p)); try apply ensures_error.
  - ensures_eat as p1. apply ensures_bind, int_ensures. intros n. simpl. auto.
  - ensures_eat as p1. apply ensures_bind, int_ensures. intros n. simpl. auto.
  - ensures_eat as p1. destruct (Parser.constants _ !! _); simpl; auto.
    destruct (py_int 10 _); simpl; auto.
  - ensures_eat as p1. apply ensures_bind, expr_operator_ensures. intros r. simpl. auto.
  - ensures_eat as p1. apply ensures_bind, expr_function_ensures. intros r. simpl. auto.
Qed.

Lemma body_loop_ensures fuel p stack :
  (remaining p < fuel)%nat ->
  ensures (Parser.body_loop fuel p stack) (fun '(_, p1) =>
    advances p p1 /\ Parser.constants p1 = Parser.constants p).
Proof.
  revert p stack. induction fuel as [|fuel IH]; intros p stack Hf; [lia|]. simpl.
  destruct (_ || _); simpl; [split; [apply advances_refl|reflexivity]|].
  apply ensures_bind. eapply ensures_mono; [apply body_step_ensures|].
  intros [stack1 p1] (Ha & Hk & Hr).
  eapply ensures_mono; [apply IH; lia|].
  intros [stack2 p2] (Ha2 & Hk2). split; [eapply advances_trans; eassumption|congruence].
Qed.

Lemma expr_loop_ensures fuel p stack :
  (remaining p < fuel)%nat ->
  ensures (Parser.expr_loop fuel p stack) (fun '(_, p1) =>
    advances p p1 /\ Parser.constants p1 = Parser.constants p).
Proof.
  revert p stack. induction fuel as [|fuel IH]; intros p stack Hf; [lia|]. simpl.
  destruct (Parser.is_type p CONST_EXPR_END); simpl; [split; [apply advances_refl|reflexivity]|].
  apply ensures_bind. eapply ensures_mono; [apply expr_step_ensures|].
  intros [stack1 p1] (Ha & Hk & Hr).
  eapply ensures_mono; [apply IH; lia|].
  intros [stack2 p2] (Ha2 & Hk2). split; [eapply advances_trans; eassumption|congruence].
Qed.

Lemma parse_const_expression_body_ensures fuel p :
  (remaining p < fuel)%nat ->
  ensures (Parser.parse_const_expression_body fuel p) (fun '(_, p1) =>
    advances p p1 /\ Parser.constants p1 = Parser.constants p).
Proof.
  intros Hf. unfold Parser.parse_const_expression_body.
  apply ensures_bind. eapply ensures_mono; [apply body_loop_ensures, Hf|].
  intros [stack p1] (Ha & Hk).
  destruct stack as [|v [|v' stack]]; try apply ensures_error. simpl. auto.
Qed.

Lemma parse_const_expression_ensures fuel first_arg p :
  (remaining p < fuel)%nat ->
  ensures (Parser.parse_const_expression fuel first_arg p) (fun '(_, p1) =>
    advances p p1 /\ Parser.constants p1 = Parser.constants p).
Proof.
  intros Hf. unfold Parser.parse_const_expression.
  ensures_eat as p1. apply ensures_bind.
  assert (Hrest : forall stack,
    ensures
      (do '(stack1, self2) <- Parser.expr_loop fuel p1 stack;
       do self3 <- Parser.eat CONST_EXPR_END self2;
       match stack1 with
       | [v] => Ok (v, self3)
       | _ => Parser.error self3 "Invalid constant expression"
       end)
      (fun '(_, p1) => advances p p1 /\ Parser.constants p1 = Parser.constants p)).
  { intros stack. apply ensures_bind.
    eapply ensures_mono; [apply expr_loop_ensures; lia|].
    intros [stack1 p2] (Ha2 & Hk2). ensures_eat as p3.
    destruct stack1 as [|v [|v' stack1]]; try apply ensures_error. simpl.
    split; [|congruence].
    eapply advances_trans; [eassumption|]. eapply advances_trans; eassumption. }
  destruct first_arg as [name|]; simpl; [|apply Hrest].
  destruct (Parser.constants p1 !! name); simpl; [apply Hrest|].
  destruct (py_int 10 name); simpl; [apply Hrest|exact I].
Qed.

Section ParseArray.

Variable parse_value : Parser.t -> outcome (Value * Parser.t).
Variable n : nat.
Hypothesis parse_value_ensures : forall q,
  (remaining q < n)%nat ->
  ensures (parse_value q) (fun '(_, q1) =>
    advances q q1 /\ Parser.constants q1 = Parser.constants q).

Lemma array_loop_ensures fuel p values :
  (remaining p < fuel)%nat -> (remaining p <= n)%nat ->
  ensures (Parser.array_loop parse_value fuel p values) (fun '(_, p1) =>
    advances p p1 /\ Parser.constants p1 = Parser.constants p).
Proof.
  revert p values. induction fuel as [|fuel IH]; intros p values Hf Hn; [lia|]. simpl.
  destruct (Parser.is_type p COMMA); simpl; [|split; [apply advances_refl|reflexivity]].
  ensures_eat as p1. apply ensures_bind.
  eapply ensures_mono; [apply parse_value_ensures; lia|].
  intros [v p2] (Ha2 & Hk2). pose proof (advances_remaining _ _ Ha2).
  eapply ensures_mono; [apply IH; lia|].
  intros [values3 p3] (Ha3 & Hk3). split; [|congruence].
  eapply advances_trans; [eassumption|]. eapply advances_trans; eassumption.
Qed.

Lemma parse_array_with_ensures fuel p :
  (remaining p <= fuel)%nat -> (remaining p <= n)%nat ->
  ensures (Parser.parse_array_with parse_value fuel p) (fun '(_, p1) =>
    advances p p1 /\ Parser.constants p1 = Parser.constants p).
Proof.
  intros Hf Hn. unfold Parser.parse_array_with.
  apply ensures_bind. eapply ensures_mono; [apply (eat_ensures ARRAY_START); done|].
  intros p1 (Hc1 & Hty1 & Hk1 & Hr1). apply ensures_bind.
  assert (Hvalues : ensures
    (if negb (Parser.is_type p1 ARRAY_END)
     then do '(v, self2) <- parse_value p1;
          Parser.array_loop parse_value fuel self2 [v]
     else Ok ([], p1))
    (fun '(_, p2) => advances p1 p2 /\ Parser.constants p2 = Parser.constants p1)).
  { destruct (negb _); simpl; [|split; [apply advances_refl|reflexivity]].
    apply ensures_bind. eapply ensures_mono; [apply parse_value_ensures; lia|].
    intros [v p2] (Ha2 & Hk2). pose proof (advances_remaining _ _ Ha2).
    eapply ensures_mono; [apply array_loop_ensures; lia|].
    intros [values p3] (Ha3 & Hk3). split; [|congruence].
    eapply advances_trans; eassumption. }
  eapply ensures_mono; [exact Hvalues|].
  intros [values p2] ((toks & Hc2 & Hb2) & Hk2).
  apply ensures_bind. eapply ensures_mono; [apply (eat_ensures ARRAY_END); done|].
  intros p3 (Hc3 & Hty3 & Hk3 & Hr3). simpl. split; [|congruence].
  exists ([Parser.current_token p] ++ toks ++ [Parser.current_token p2]). split.
  - eapply consumes_app; [exact Hc1|]. eapply consumes_app; eassumption.
  - intros depth. rewrite !array_depth_app, Hb2. simpl. unfold bracket.
    unfold Parser.cur_type in Hty1, Hty3. rewrite Hty1, Hty3. reflexivity.
Qed.

End ParseArray.

Lemma parse_value_ensures fuel p :
  (remaining p < fuel)%nat ->
  ensures (Parser.parse_value fuel p) (fun '(_, p1) =>
    advances p p1 /\ Parser.constants p1 = Parser.constants p).
Proof.
  revert p. induction fuel as [|fuel IH]; intros p Hf; [lia|]. simpl.
  destruct (Token.type (Parser.current_token p)); try apply ensures_error.
  - ensures_eat as p1. apply ensures_bind.
    eapply ensures_mono; [apply parse_const_expression_body_ensures; lia|].
    intros [result p2] (Ha2 & Hk2). ensures_eat as p3. simpl. split; [|congruence].
    eapply advances_trans; [eassumption|]. eapply advances_trans; eassumption.
  - eapply parse_array_with_ensures; [exact IH|lia|lia].
  - ensures_eat as p1. simpl. auto.
  - ensures_eat as p1. apply ensures_bind, int_ensures. intros k. simpl. auto.
  - ensures_eat as p1. apply ensures_bind, int_ensures. intros k. simpl. auto.
  - ensures_eat as p1.
    destruct (Parser.is_type p1 CONST_EXPR_START).
    + eapply ensures_mono; [apply parse_const_expression_ensures; lia|].
      intros [v p2] (Ha2 & Hk2). split; [|congruence].
      eapply advances_trans; eassumption.
    + destruct (Parser.constants p1 !! _); simpl; auto.
Qed.

Lemma parse_define_ensures fuel p :
  (remaining p <= fuel)%nat ->
  ensures (Parser.parse_define fuel p) (fun p1 =>
    advances p p1 /\ (remaining p1 < remaining p)%nat).
Proof.
  intros Hf. unfold Parser.parse_define. ensures_eat as p1.
  destruct (negb _); [apply ensures_error|].
  ensures_eat as p2. apply ensures_bind.
  eapply ensures_mono; [apply parse_value_ensures; lia|].
  intros [value p3] (Ha3 & Hk3). simpl.
  pose proof (advances_remaining _ _ Ha3) as Hr3.
  split.
  - apply advances_constants.
    eapply advances_trans; [eassumption|]. eapply advances_trans; eassumption.
  - unfold remaining in *. unfold Parser.is_type, Parser.cur_type in *. simpl. lia.
Qed.

Lemma parse_pair_ensures fuel p :
  (remaining p <= fuel)%nat ->
  ensures (Parser.parse_pair fuel p) (fun '(_, _, p1) =>
    advances p p1 /\ (remaining p1 < remaining p)%nat).
Proof.
  intros Hf. unfold Parser.parse_pair. ensures_eat as p1. apply ensures_bind.
  assert (Hv : ensures
    (if Parser.is_type p1 CONST_EXPR_START
     then Parser.parse_const_expression fuel None p1
     else Parser.parse_value fuel p1)
    (fun '(_, p2) => advances p1 p2 /\ Parser.constants p2 = Parser.constants p1)).
  { destruct (Parser.is_type p1 CONST_EXPR_START).
    - apply parse_const_expression_ensures; lia.
    - apply parse_value_ensures; lia. }
  eapply ensures_mono; [exact Hv|].
  intros [value p2] (Ha2 & Hk2). simpl.
  pose proof (advances_remaining _ _ Ha2).
  split; [eapply advances_trans; eassumption|lia].
Qed.

Lemma parse_config_loop_ensures fuel p config :
  (remaining p < fuel)%nat ->
  ensures (Parser.parse_config_loop fuel p config) (fun _ =>
    exists p1, advances p p1 /\ Parser.cur_type p1 = EOF).
Proof.
  revert p config. induction fuel as [|fuel IH]; intros p config Hf; [lia|]. simpl.
  destruct (Parser.is_type p EOF) eqn:E; simpl.
  { exists p. split; [apply advances_refl|]. by apply is_type_true. }
  destruct (Parser.is_type p DEFINE).
  { apply ensures_bind. eapply ensures_mono; [apply parse_define_ensures; lia|].
    intros p1 (Ha1 & Hr1). eapply ensures_mono; [apply IH; lia|].
    intros _ (p2 & Ha2 & He). exists p2. split; [|exact He].
    eapply advances_trans; eassumption. }
  destruct (Parser.is_type p NAME); [|apply ensures_error].
  apply ensures_bind. eapply ensures_mono; [apply parse_pair_ensures; lia|].
  intros [[key value] p1] (Ha1 & Hr1). eapply ensures_mono; [apply IH; lia|].
  intros _ (p2 & Ha2 & He). exists p2. split; [|exact He].
  eapply advances_trans; eassumption.
Qed.

Lemma init_ensures text :
  ensures (Parser.init (Lexer.init text)) (fun p =>
    (remaining p <= String.length text)%nat
    /\ Lexer.get_next_token (Lexer.init text)
       = Ok (Parser.current_token p, Parser.lexer p)).
Proof.
  unfold Parser.init.
  pose proof (get_next_token_post (Lexer.init text)) as Hp.
  unfold token_post in Hp.
  destruct (Lexer.get_next_token (Lexer.init text)) as [[tok l]| |]; simpl; [|exact Hp|exact Hp].
  split; [|reflexivity]. destruct Hp as [Hle Hlt]. simpl in Hle, Hlt.
  unfold remaining, Parser.is_type, Parser.cur_type. simpl.
  destruct (bool_decide (Token.type tok = EOF)) eqn:E; [lia|].
  apply bool_decide_eq_false in E. specialize (Hlt E). lia.
Qed.

(** The translation ends on every input (the fuel of [parse_text] is
    never used up), and the exceptions it raises are [SyntaxError],
    [TypeError] and [ValueError]. *)
Lemma parse_text_ensures text : ensures (parse_text text) (fun _ => True).
Proof.
  unfold parse_text.
  apply ensures_bind. eapply ensures_mono; [apply init_ensures|].
  intros p [Hr _]. eapply ensures_mono; [apply parse_config_loop_ensures; lia|]. done.
Qed.

Lemma parse_text_total text : parse_text text <> OutOfFuel.
Proof. eapply ensures_ends, parse_text_ensures. Qed.

Lemma consumes_all_tokens p toks p' l0 :
  consumes p toks p' -> Parser.cur_type p' = EOF ->
  Lexer.get_next_token l0 = Ok (Parser.current_token p, Parser.lexer p) ->
  exists fuel, all_tokens fuel l0 = Ok (toks ++ [Parser.current_token p']).
Proof.
  intros Hc He. revert l0.
  induction Hc as [p p' Hl Hk|p tok l toks p' Hne Ht H IH]; intros l0 H0.
  - exists 1%nat. simpl. rewrite H0. simpl. rewrite Hk.
    rewrite bool_decide_eq_true_2 by exact He. reflexivity.
  - destruct (IH He (Parser.lexer p) Ht) as [fuel E].
    exists (S fuel). simpl. rewrite H0. simpl.
    rewrite bool_decide_eq_false_2 by exact Hne. rewrite E. reflexivity.
Qed.

(** A successful translation has read the whole token stream, and the
    stream closes every array it opens. *)
Lemma parse_text_ok_tokens text config :
  parse_text text = Ok config ->
  exists fuel toks, all_tokens fuel (Lexer.init text) = Ok toks /\ array_depth 0 toks = 0%nat.
Proof.
  unfold parse_text. intros H.
  apply bind_ok in H as (p & Hinit & Hcfg).
  pose proof (init_ensures text) as Hi. rewrite Hinit in Hi. destruct Hi as [Hr H0].
  pose proof (parse_config_loop_ensures (S (String.length text)) p [] ltac:(lia)) as Hl.
  unfold Parser.parse_config in Hcfg. rewrite Hcfg in Hl.
  destruct Hl as (p1 & (toks & Hc & Hb) & He).
  destruct (consumes_all_tokens _ _ _ _ Hc He H0) as [fuel E].
  exists fuel, (toks ++ [Parser.current_token p1]). split; [exact E|].
  rewrite array_depth_app, Hb. simpl. unfold bracket.
  unfold Parser.cur_type in He. rewrite He. reflexivity.
Qed.

(** ** The stack and the operators *)

Lemma pop_app stack x : pop (stack ++ [x]) = Ok (x, stack).
Proof. unfold pop. rewrite rev_app_distr. simpl. by rewrite rev_involutive. Qed.


Lemma two_operands (stack : list Value) a b : (length (stack ++ [a; b]) <? 2)%nat = false.
Proof. apply Nat.ltb_ge. rewrite length_app. simpl. lia. Qed.

Lemma one_operand (stack : list Value) a : (length (stack ++ [a]) <? 1)%nat = false.
Proof. apply Nat.ltb_ge. rewrite length_app. simpl. lia. Qed.

Ltac pop_two :=
  rewrite two_operands;
  match goal with
  | |- context [pop (?stack ++ [?a; ?b])] =>
      replace (stack ++ [a; b]) with ((stack ++ [a]) ++ [b]) by (by rewrite <- app_assoc)
  end;
  rewrite pop_app; simpl; rewrite pop_app; simpl.

Lemma expr_operator_sub p stack a b :
  Parser.expr_operator p "-" (stack ++ [VInt a; VInt b]) = Ok (stack ++ [VInt (a - b)]).
Proof. unfold Parser.expr_operator. pop_two. reflexivity. Qed.

Lemma body_operator_sub p stack a b :
  Parser.body_operator p "-" (stack ++ [VInt a; VInt b]) = Ok (stack ++ [VInt (a - b)]).
Proof. unfold Parser.body_operator. pop_two. reflexivity. Qed.

Lemma expr_function_abs p stack a :
  Parser.expr_function p "abs" (stack ++ [VInt a]) = Ok (stack ++ [VInt (Z.abs a)]).
Proof.
  unfold Parser.expr_function. simpl. rewrite one_operand, pop_app. reflexivity.
Qed.

Lemma body_function_abs p stack a :
  Parser.body_function p "abs" (stack ++ [VInt a]) = Ok (stack ++ [VInt (Z.abs a)]).
Proof.
  unfold Parser.body_function. simpl. rewrite one_operand, pop_app. reflexivity.
Qed.

Lemma expr_operator_div p stack a b :
  Parser.expr_operator p "/" (stack ++ [VInt a; VInt b])
  = if b =? 0 then Parser.error p "Division by zero" else Ok (stack ++ [VInt (a / b)]).
Proof.
  unfold Parser.expr_operator. pop_two. destruct (b =? 0); reflexivity.
Qed.

Lemma body_operator_div p stack a b :
  Parser.body_operator p "/" (stack ++ [VInt a; VInt b])
  = if b =? 0 then Parser.error p "Division by zero" else Ok (stack ++ [VInt (a / b)]).
Proof.
  unfold Parser.body_operator. pop_two. destruct (b =? 0); reflexivity.
Qed.

(** Inside a region nested in a value, [+] with a string operand
    concatenates the [str()] of both operands. *)
Lemma body_operator_add_str p stack a b :
  isinstance_str a || isinstance_str b = true ->
  Parser.body_operator p "+" (stack ++ [a; b])
  = Ok (stack ++ [VStr (py_str a +:+ py_str b)]).
Proof. intros H. unfold Parser.body_operator. pop_two. rewrite H. reflexivity. Qed.

(** In a region at top level or with a seed, [+] is Python's own [+]. *)
Lemma expr_operator_add p stack a b :
  Parser.expr_operator p "+" (stack ++ [a; b])
  = (do r <- py_add a b; Ok (stack ++ [r])).
Proof. unfold Parser.expr_operator. pop_two. reflexivity. Qed.

Lemma floor_div a b : b <> 0 -> is_floor a b (a / b).
Proof.
  intros Hb. split; intros H.
  - pose proof (Z.mul_div_le a b H). pose proof (Z.mul_succ_div_gt a b H). lia.
  - pose proof (Z.div_mod a b Hb). pose proof (Z.mod_neg_bound a b H). lia.
Qed.

Lemma eat_ok ty p p1 :
  Parser.eat ty p = Ok p1 ->
  Parser.cur_type p = ty
  /\ exists tok l, Lexer.get_next_token (Parser.lexer p) = Ok (tok, l)
                   /\ p1 = Parser.mk l tok (Parser.constants p).
Proof.
  unfold Parser.eat. destruct (Parser.is_type p ty) eqn:E; [|discriminate].
  apply is_type_true in E. intros H. split; [exact E|].
  destruct (Lexer.get_next_token (Parser.lexer p)) as [[tok l]| |]; simpl in H; try discriminate.
  injection H as <-. eauto.
Qed.

Lemma eat_current ty p tok l :
  Parser.cur_type p = ty -> Lexer.get_next_token (Parser.lexer p) = Ok (tok, l) ->
  Parser.eat ty p = Ok (Parser.mk l tok (Parser.constants p)).
Proof.
  intros Hty Ht. unfold Parser.eat. apply is_type_true in Hty. rewrite Hty, Ht. reflexivity.
Qed.

(** ** The properties of the specification *)

(** A closing parenthesis at the start of a token is a lexical error. *)
Lemma close_paren_unexpected l :
  Lexer.current_char l = Some ")"%char ->
  Lexer.get_next_token l = Lexer.error l "Unexpected character: )".
Proof. intros Hc. unfold Lexer.get_next_token. simpl. rewrite Hc. reflexivity. Qed.

(** C1 (the code departs from the specification). The specification
    says that [(define base_port 8000)] followed by
    [port .{base_port 80 +}.] translates to a Config with [port = 8080],
    and the repository's test [test_const_expressions] asserts it.  The
    lexer has no rule for the closing parenthesis: the translation stops
    at line 1, column 23 with the lexical error "Unexpected character",
    and [convert_to_json] exits. *)
Theorem define_closing_paren_rejected :
  parse_text ("(define base_port 8000)" +:+ newline +:+ "port .{base_port 80 +}.")
  = Raise (SyntaxError "Lexer error at 1:23: Unexpected character: )")
  /\ convert_to_json ("(define base_port 8000)" +:+ newline +:+ "port .{base_port 80 +}.")
     = Raise (SystemExit 1).
Proof. split; vm_compute; reflexivity. Qed.

(** The same input without the closing parenthesis gives the Config the
    specification describes. *)
Lemma define_without_paren_8080 :
  parse_text ("(define base_port 8000" +:+ newline +:+ "port .{base_port 80 +}.")
  = Ok [("port", VInt 8080)].
Proof. vm_compute. reflexivity. Qed.

(** C2 (the code departs from the specification). In a region that
    follows a top-level key, [+] applied to the string constant [s] and
    the integer 1 does not concatenate: Python's [+] raises [TypeError],
    as it does in [parse_const_expression] for every string and integer
    in either order.  The same expression nested inside a value, where
    [parse_const_expression_body] tests [isinstance(a, str)], yields the
    concatenation. *)
Theorem top_level_add_str_int_type_error :
  parse_text ("(define s " +:+ literal "a" +:+ " k .{s 1 +}.") = Raise TypeError
  /\ (forall p stack s n,
        Parser.expr_operator p "+" (stack ++ [VStr s; VInt n]) = Raise TypeError
        /\ Parser.expr_operator p "+" (stack ++ [VInt n; VStr s]) = Raise TypeError)
  /\ parse_text ("(define s " +:+ literal "a" +:+ " k [ .{s 1 +}. ]")
     = Ok [("k", VList [VStr "a1"])].
Proof.
  split; [vm_compute; reflexivity|]. split; [|vm_compute; reflexivity].
  intros p stack s n. rewrite !expr_operator_add. split; reflexivity.
Qed.

(** C4 (the code departs from the specification). A hexadecimal prefix
    without digits reaches [int(token.value, 16)], which raises
    [ValueError]; a text that ends in the digit [0] makes [read_number]
    evaluate [None in 'xX'], which raises [TypeError]; and [abs] of a
    string in a region at top level raises [TypeError]: none is the parse
    error of [self.error] (see [parse_text_ensures] for the exceptions the
    translation can raise). *)
Theorem failure_not_a_parse_error :
  parse_text "k 0x" = Raise ValueError
  /\ parse_text "k 0" = Raise TypeError
  /\ parse_text ("(define s " +:+ literal "a" +:+ " k .{s abs}.") = Raise TypeError
  /\ is_syntax_error (parse_text "k 0x") = false.
Proof. repeat split; vm_compute; reflexivity. Qed.

(** C7. The pair [negative_value .{5 10 - abs}.] translates to the Config
    [negative_value = 5]: [-] pops the top of the stack as its right
    operand, so the intermediate value is [5 - 10 = -5], and [abs]
    replaces it by its magnitude. *)
Theorem abs_of_negative_difference :
  parse_text "negative_value .{5 10 - abs}." = Ok [("negative_value", VInt 5)]
  /\ (forall p, Parser.expr_operator p "-" [VInt 5; VInt 10] = Ok [VInt (-5)])
  /\ (forall p, Parser.expr_function p "abs" [VInt (-5)] = Ok [VInt 5])
  /\ (forall p stack a b,
        Parser.expr_operator p "-" (stack ++ [VInt a; VInt b]) = Ok (stack ++ [VInt (a - b)]))
  /\ (forall p stack a,
        Parser.expr_function p "abs" (stack ++ [VInt a]) = Ok (stack ++ [VInt (Z.abs a)])).
Proof.
  split; [vm_compute; reflexivity|].
  split; [intros p; apply (expr_operator_sub p [] 5 10)|].
  split; [intros p; apply (expr_function_abs p [] (-5))|].
  split; [apply expr_operator_sub|apply expr_function_abs].
Qed.

(** C5. A division evaluated in a constant-expression region, by either
    evaluator, with the integers [a] below [b] on top of the stack: when
    [b = 0] the parse error "Division by zero" is raised, and otherwise
    the integer pushed in their place is the floor of [a / b]. *)
Theorem division_floor_or_error p p1 stack a b :
  Parser.cur_type p = OPERATOR ->
  Token.value (Parser.current_token p) = "/" ->
  Parser.eat OPERATOR p = Ok p1 ->
  (b = 0 ->
     Parser.expr_step p (stack ++ [VInt a; VInt b]) = Parser.error p1 "Division by zero"
     /\ Parser.body_step p (stack ++ [VInt a; VInt b]) = Parser.error p1 "Division by zero")
  /\ (b <> 0 ->
     Parser.expr_step p (stack ++ [VInt a; VInt b]) = Ok (stack ++ [VInt (a / b)], p1)
     /\ Parser.body_step p (stack ++ [VInt a; VInt b]) = Ok (stack ++ [VInt (a / b)], p1)
     /\ is_floor a b (a / b)).
Proof.
  intros Hty Hv Heat. unfold Parser.expr_step, Parser.body_step.
  unfold Parser.cur_type in Hty. rewrite Hty, Heat, Hv. simpl.
  rewrite expr_operator_div, body_operator_div.
  split; intros Hb.
  - subst b. simpl. split; reflexivity.
  - apply Z.eqb_neq in Hb as Hb'. rewrite Hb'. simpl.
    split; [reflexivity|]. split; [reflexivity|]. apply floor_div, Hb.
Qed.

Lemma division_floor_or_error_witness :
  Parser.expr_step (Parser.mk (Lexer.mk EmptyString 1 11) (Token.mk OPERATOR "/" 1 10) ∅)
                   [VInt (-7); VInt 2]
  = Ok ([VInt (-4)], Parser.mk (Lexer.mk EmptyString 1 11) (Token.mk EOF EmptyString 1 11) ∅)
  /\ Parser.body_step (Parser.mk (Lexer.mk EmptyString 1 11) (Token.mk OPERATOR "/" 1 10) ∅)
                      [VInt (-7); VInt 2]
     = Ok ([VInt (-4)], Parser.mk (Lexer.mk EmptyString 1 11) (Token.mk EOF EmptyString 1 11) ∅)
  /\ is_floor (-7) 2 (-4).
Proof.
  refine (proj2 (division_floor_or_error
                   (Parser.mk (Lexer.mk EmptyString 1 11) (Token.mk OPERATOR "/" 1 10) ∅)
                   (Parser.mk (Lexer.mk EmptyString 1 11) (Token.mk EOF EmptyString 1 11) ∅)
                   [] (-7) 2 _ _ _) _);
    [reflexivity|reflexivity|vm_compute; reflexivity|lia].
Defined.

(** C6. A bare name in value position whose next token is not the start
    of a constant expression, and which is not in the Symbol Table, is the
    value: [parse_value] returns the name as a string and raises nothing. *)
Theorem bare_name_fallback fuel p tok l :
  Parser.cur_type p = NAME ->
  Lexer.get_next_token (Parser.lexer p) = Ok (tok, l) ->
  Token.type tok <> CONST_EXPR_START ->
  Parser.constants p !! Token.value (Parser.current_token p) = None ->
  Parser.parse_value (S fuel) p
  = Ok (VStr (Token.value (Parser.current_token p)), Parser.mk l tok (Parser.constants p)).
Proof.
  intros Hty Ht Hne Hk. simpl. unfold Parser.cur_type in Hty. rewrite Hty.
  rewrite (eat_current NAME p tok l Hty Ht). simpl.
  replace (Parser.is_type _ CONST_EXPR_START) with false
    by (symmetry; apply is_type_false; exact Hne).
  rewrite Hk. reflexivity.
Qed.

Lemma bare_name_fallback_witness :
  Parser.parse_value 1 (Parser.mk (Lexer.mk " 80" 1 6) (Token.mk NAME "foo" 1 3) ∅)
  = Ok (VStr "foo", Parser.mk (Lexer.mk EmptyString 1 9) (Token.mk NUMBER "80" 1 7) ∅).
Proof.
  refine (bare_name_fallback 0
            (Parser.mk (Lexer.mk " 80" 1 6) (Token.mk NAME "foo" 1 3) ∅)
            (Token.mk NUMBER "80" 1 7) (Lexer.mk EmptyString 1 9) _ _ _ _);
    [reflexivity|vm_compute; reflexivity|discriminate|reflexivity].
Defined.

(** ** Names produced by the lexer *)

Lemma append_assoc (s1 s2 s3 : string) : (s1 +:+ s2) +:+ s3 = s1 +:+ (s2 +:+ s3).
Proof.
  induction s1 as [|c s1 IH]; [reflexivity|].
  change (String c ((s1 +:+ s2) +:+ s3) = String c (s1 +:+ (s2 +:+ s3))).
  f_equal. exact IH.
Qed.

Lemma append_empty_r (s : string) : s +:+ EmptyString = s.
Proof.
  induction s as [|c s IH]; [reflexivity|].
  change (String c (s +:+ EmptyString) = String c s). f_equal. exact IH.
Qed.

Lemma scan_while_prefix P s ln cl acc :
  exists r, fst (Lexer.scan_while P s ln cl acc) = acc +:+ r.
Proof.
  revert ln cl acc. induction s as [|c s IH]; intros ln cl acc; simpl.
  - exists EmptyString. by rewrite append_empty_r.
  - destruct (P c); simpl.
    + destruct (IH (Lexer.line (Lexer.advance (Lexer.mk (String c s) ln cl)))
                   (Lexer.col (Lexer.advance (Lexer.mk (String c s) ln cl)))
                   (acc +:+ str_of_char c)) as [r Hr].
      exists (String c r). rewrite Hr, append_assoc. reflexivity.
    + exists EmptyString. by rewrite append_empty_r.
Qed.

Lemma read_name_first l c :
  Lexer.current_char l = Some c -> Lexer.name_char c = true ->
  exists r, fst (Lexer.read_name l) = String c r.
Proof.
  unfold Lexer.read_name, Lexer.run_while, Lexer.current_char.
  destruct l as [s ln cl]; simpl. destruct s as [|c' s]; intros Hc HP; simplify_eq.
  simpl. rewrite HP. apply (scan_while_prefix _ _ _ _ (String c EmptyString)).
Qed.

Lemma drop_spaces_last l c :
  int_space c = false -> exists l', drop_spaces (l ++ [c]) = l' ++ [c].
Proof.
  intros Hc. induction l as [|a l IH]; simpl.
  - rewrite Hc. by exists [].
  - destruct (int_space a); [exact IH|]. by exists (a :: l).
Qed.

(** A text that starts with a lowercase letter is not an integer
    literal: [int()] raises [ValueError]. *)
Lemma py_int_lowercase c r :
  isalpha c && islower c = true -> py_int 10 (String c r) = None.
Proof.
  intros Hc. unfold py_int. simpl.
  assert (Hsp : int_space c = false).
  { revert Hc. destruct c as [[] [] [] [] [] [] [] []]; vm_compute; congruence. }
  rewrite Hsp.
  destruct (drop_spaces_last (rev (String.list_ascii_of_string r)) c Hsp) as [l' Hl'].
  simpl. rewrite Hl', rev_app_distr. simpl.
  assert (Hm : ascii_eqb c "-" = false /\ ascii_eqb c "+" = false
               /\ ascii_eqb c "_" = false /\ digit_value 10 c = None).
  { revert Hc. clear. destruct c as [[] [] [] [] [] [] [] []]; vm_compute; intros; try done. }
  destruct Hm as (-> & -> & Hu & Hd).
  unfold int_unsigned. simpl.
  destruct (rev l') as [|x l'']; simpl; rewrite Hu; simpl; rewrite ?Hu, Hd; reflexivity.
Qed.

Lemma get_next_token_loop_name fuel l tok l1 :
  Lexer.get_next_token_loop fuel l = Ok (tok, l1) ->
  (Token.type tok = NAME ->
     Token.value tok <> "abs" /\ py_int 10 (Token.value tok) = None)
  /\ (Token.type tok = FUNCTION -> Token.value tok = "abs").
Proof.
  revert l. induction fuel as [|fuel IH]; intros l; [discriminate|]. simpl.
  destruct (Lexer.current_char l) as [c|] eqn:Hc; [|by intros [= <- <-]].
  destruct (isspace c); [apply IH|].
  destruct (ascii_eqb c "%"); [apply IH|].
  destruct (_ && _).
  { destruct (Lexer.skip_multi_comment l); simpl; try discriminate. apply IH. }
  destruct (_ && _); [by intros [= <- <-]|].
  destruct (_ && _); [by intros [= <- <-]|].
  destruct (_ && _).
  { destruct (Lexer.read_string l) as [[v l2]| |]; simpl; try discriminate. by intros [= <- <-]. }
  destruct (ascii_eqb c "(").
  { destruct (Lexer.read_name (Lexer.advance l)) as [name l2].
    destruct (String.eqb name "define"); [by intros [= <- <-]|discriminate]. }
  destruct (ascii_eqb c "["); [by intros [= <- <-]|].
  destruct (ascii_eqb c "]"); [by intros [= <- <-]|].
  destruct (ascii_eqb c ","); [by intros [= <- <-]|].
  destruct (isdigit c).
  { destruct (Lexer.read_number l) as [[v l2]| |]; simpl; try discriminate.
    destruct (Lexer.starts_with_0x v); by intros [= <- <-]. }
  destruct (isalpha c && islower c) eqn:Hal.
  { assert (Hn : Lexer.name_char c = true).
    { apply isalpha_name_char. by apply andb_true_iff in Hal as [? _]. }
    destruct (read_name_first l c Hc Hn) as [r Hr].
    destruct (Lexer.read_name l) as [name l2]. simpl in Hr. subst name.
    destruct (String.eqb (String c r) "abs") eqn:Heq.
    { apply String.eqb_eq in Heq. intros [= <- <-]. by split. }
    apply String.eqb_neq in Heq.
    destruct (Lexer.is_operator_name _); intros [= <- <-]; [by split|].
    split; [|discriminate].
    intros _. simpl. split; [exact Heq|]. apply py_int_lowercase, Hal. }
  destruct (Lexer.is_operator_char c); [by intros [= <- <-]|discriminate].
Qed.

(** A name token is never [abs], and never an integer literal; a function
    token is always [abs]. *)
Lemma get_next_token_name l tok l1 :
  Lexer.get_next_token l = Ok (tok, l1) ->
  (Token.type tok = NAME ->
     Token.value tok <> "abs" /\ py_int 10 (Token.value tok) = None)
  /\ (Token.type tok = FUNCTION -> Token.value tok = "abs").
Proof. apply get_next_token_loop_name. Qed.

(** The identifier [abs] is lexed as the function token. *)
Lemma get_next_token_abs l l1 :
  Lexer.current_char l = Some "a"%char -> Lexer.read_name l = ("abs", l1) ->
  Lexer.get_next_token l = Ok (Token.mk FUNCTION "abs" (Lexer.line l) (Lexer.col l), l1).
Proof.
  intros Hc Hr. unfold Lexer.get_next_token. simpl. rewrite Hc. simpl. rewrite Hr. reflexivity.
Qed.

(** C3, as the code has it. For a bare-name token that the evaluator
    takes (the token after it is lexed): in a region at top level or with a
    seed ([parse_const_expression]) the value of a known constant is
    pushed, otherwise the integer the name denotes as a decimal literal,
    and when it denotes none the parse error "Unknown constant" is raised;
    in a region nested inside a value ([parse_const_expression_body]) the
    value of a known constant is pushed, and any other name is pushed as a
    string. *)
Theorem name_in_region p p1 stack :
  Parser.cur_type p = NAME ->
  Parser.eat NAME p = Ok p1 ->
  Parser.expr_step p stack
  = match Parser.constants p !! Token.value (Parser.current_token p) with
    | Some v => Ok (stack ++ [v], p1)
    | None =>
        match py_int 10 (Token.value (Parser.current_token p)) with
        | Some n => Ok (stack ++ [VInt n], p1)
        | None =>
            Parser.error p1 ("Unknown constant: " +:+ Token.value (Parser.current_token p))
        end
    end
  /\ Parser.body_step p stack
     = match Parser.constants p !! Token.value (Parser.current_token p) with
       | Some v => Ok (stack ++ [v], p1)
       | None => Ok (stack ++ [VStr (Token.value (Parser.current_token p))], p1)
       end.
Proof.
  intros Hty Heat. unfold Parser.expr_step, Parser.body_step.
  unfold Parser.cur_type in Hty. rewrite Hty, Heat. simpl.
  apply eat_ok in Heat as (_ & tok & l & _ & ->). simpl.
  split; reflexivity.
Qed.

Lemma name_in_region_witness :
  Parser.expr_step (Parser.mk (Lexer.mk "}." 1 7) (Token.mk NAME "foo" 1 4) ∅) []
  = Raise (SyntaxError "Parser error at 1:7: Unknown constant: foo")
  /\ Parser.body_step (Parser.mk (Lexer.mk "}." 1 7) (Token.mk NAME "foo" 1 4) ∅) []
     = Ok ([VStr "foo"],
           Parser.mk (Lexer.mk EmptyString 1 9) (Token.mk CONST_EXPR_END "}." 1 7) ∅).
Proof.
  exact (name_in_region
           (Parser.mk (Lexer.mk "}." 1 7) (Token.mk NAME "foo" 1 4) ∅)
           (Parser.mk (Lexer.mk EmptyString 1 9) (Token.mk CONST_EXPR_END "}." 1 7) ∅)
           [] eq_refl eq_refl).
Defined.

(** C3, as stated, fails: in the region nested inside the array of
    [k [ .{foo}. ]] the undefined name [foo] raises no error and is
    pushed onto the stack as the string ["foo"]. *)
Lemma nested_unknown_name_is_pushed :
  Parser.body_step (Parser.mk (Lexer.mk "}. ]" 1 10) (Token.mk NAME "foo" 1 7) ∅) []
  = Ok ([VStr "foo"],
        Parser.mk (Lexer.mk " ]" 1 12) (Token.mk CONST_EXPR_END "}." 1 10) ∅)
  /\ parse_text "k [ .{foo}. ]" = Ok [("k", VList [VStr "foo"])].
Proof. split; vm_compute; reflexivity. Qed.

Lemma top_level_run fuel p config fuel' p' config' :
  top_level fuel p config fuel' p' config' ->
  Parser.parse_config_loop fuel p config = Parser.parse_config_loop fuel' p' config'.
Proof.
  induction 1 as [|fuel p config p1 fuel' p' config' He Hd Hp _ IH
                  |fuel p config key value p1 fuel' p' config' He Hd Hn Hp _ IH];
    [reflexivity| |]; simpl.
  - rewrite He, Hd, Hp. exact IH.
  - rewrite He, Hd, Hn, Hp. exact IH.
Qed.

(** C10. The lexer never yields a name token [abs]: the identifier is
    lexed as the function token, the only one of that kind.  For every
    input, when the top-level loop finds that token where a key is
    expected, or where the name of a [define] is expected, the translation
    aborts with a parse error. *)
Theorem abs_never_key_nor_constant :
  (forall l tok l1,
     Lexer.get_next_token l = Ok (tok, l1) ->
     (Token.type tok = NAME -> Token.value tok <> "abs")
     /\ (Token.type tok = FUNCTION -> Token.value tok = "abs"))
  /\ (forall l l1,
        Lexer.current_char l = Some "a"%char -> Lexer.read_name l = ("abs", l1) ->
        Lexer.get_next_token l
        = Ok (Token.mk FUNCTION "abs" (Lexer.line l) (Lexer.col l), l1))
  /\ (forall text p0 fuel p config,
        Parser.init (Lexer.init text) = Ok p0 ->
        top_level (S (String.length text)) p0 [] (S fuel) p config ->
        (Parser.cur_type p = FUNCTION ->
           parse_text text = Parser.error p "Unexpected token: TokenType.FUNCTION")
        /\ (forall p1,
              Parser.cur_type p = DEFINE ->
              Parser.eat DEFINE p = Ok p1 ->
              Parser.cur_type p1 = FUNCTION ->
              parse_text text = Parser.error p1 "Expected name after define")).
Proof.
  split.
  { intros l tok l1 H. destruct (get_next_token_name l tok l1 H) as [Hn Hf].
    split; [intros Hty; apply (Hn Hty)|exact Hf]. }
  split; [apply get_next_token_abs|].
  intros text p0 fuel p config Hinit Htop.
  unfold parse_text, Parser.parse_config. rewrite Hinit, bind_ret.
  rewrite (top_level_run _ _ _ _ _ _ Htop). split.
  - intros Hty. simpl. unfold Parser.is_type. rewrite Hty. reflexivity.
  - intros p1 Hty Heat Hty1. simpl.
    unfold Parser.is_type at 1 2. rewrite Hty. simpl.
    unfold Parser.parse_define. rewrite Heat. simpl.
    unfold Parser.is_type. rewrite Hty1. reflexivity.
Qed.

Lemma abs_never_key_nor_constant_witness :
  Lexer.get_next_token (Lexer.mk "abs 5" 1 5)
  = Ok (Token.mk FUNCTION "abs" 1 5, Lexer.mk " 5" 1 8)
  /\ parse_text "k 1 abs 5"
     = Raise (SyntaxError "Parser error at 1:5: Unexpected token: TokenType.FUNCTION")
  /\ parse_text "k 1 (define abs 5"
     = Raise (SyntaxError "Parser error at 1:13: Expected name after define").
Proof.
  destruct abs_never_key_nor_constant as (_ & Hlex & Htop).
  split; [exact (Hlex (Lexer.mk "abs 5" 1 5) (Lexer.mk " 5" 1 8) eq_refl eq_refl)|].
  split.
  - refine (proj1 (Htop "k 1 abs 5"
                     (Parser.mk (Lexer.mk " 1 abs 5" 1 2) (Token.mk NAME "k" 1 1) ∅)
                     8%nat
                     (Parser.mk (Lexer.mk " 5" 1 8) (Token.mk FUNCTION "abs" 1 5) ∅)
                     [("k", VInt 1)] _ _) _);
      [vm_compute; reflexivity| |reflexivity].
    eapply top_pair; [reflexivity|reflexivity|reflexivity|vm_compute; reflexivity|].
    apply top_here.
  - refine (proj2 (Htop "k 1 (define abs 5"
                     (Parser.mk (Lexer.mk " 1 (define abs 5" 1 2) (Token.mk NAME "k" 1 1) ∅)
                     16%nat
                     (Parser.mk (Lexer.mk " abs 5" 1 12) (Token.mk DEFINE "define" 1 5) ∅)
                     [("k", VInt 1)] _ _)
                  (Parser.mk (Lexer.mk " 5" 1 16) (Token.mk FUNCTION "abs" 1 13) ∅) _ _ _);
      [vm_compute; reflexivity| |reflexivity|vm_compute; reflexivity|reflexivity].
    eapply top_pair; [reflexivity|reflexivity|reflexivity|vm_compute; reflexivity|].
    apply top_here.
Defined.

(** ** Repeated keys *)

Lemma dict_get_set key k v config :
  dict_get key (dict_set k v config)
  = if String.eqb k key then Some v else dict_get key config.
Proof.
  induction config as [|[k' v'] config IH]; simpl; [reflexivity|].
  destruct (String.eqb_spec k' k) as [->|Hne]; simpl.
  - destruct (String.eqb k key); reflexivity.
  - rewrite IH. destruct (String.eqb_spec k' key) as [->|]; [|reflexivity].
    destruct (String.eqb_spec k key) as [->|]; [congruence|reflexivity].
Qed.

Lemma dict_get_config_of key entries config :
  dict_get key (config_of entries config)
  = match last_value key entries with
    | Some v => Some v
    | None => dict_get key config
    end.
Proof.
  revert config. induction entries as [|[k v] entries IH]; intros config; simpl; [reflexivity|].
  unfold config_of in *. simpl. rewrite IH.
  destruct (last_value key entries); [reflexivity|].
  rewrite dict_get_set. destruct (String.eqb k key); reflexivity.
Qed.

(** The top-level loop performs, in input order, the assignments of the
    pairs it reads; what the Config holds never stops it. *)
Lemma parse_config_loop_entries fuel p config :
  Parser.parse_config_loop fuel p config
  = (do entries <- parse_entries_loop fuel p; Ok (config_of entries config)).
Proof.
  revert p config. induction fuel as [|fuel IH]; intros p config; simpl; [reflexivity|].
  destruct (Parser.is_type p EOF); [reflexivity|].
  destruct (Parser.is_type p DEFINE).
  { destruct (Parser.parse_define fuel p); simpl; [apply IH|reflexivity|reflexivity]. }
  destruct (Parser.is_type p NAME); [|reflexivity].
  destruct (Parser.parse_pair fuel p) as [[[key value] p1]| |]; simpl; try reflexivity.
  rewrite IH. destruct (parse_entries_loop fuel p1); reflexivity.
Qed.

(** C9. When the key/value pairs of the input are read without error,
    the translation succeeds, whether or not keys repeat, and the Config
    maps every key to the value of its last pair in input order. *)
Theorem last_write_wins text entries :
  parse_entries text = Ok entries ->
  exists config,
    parse_text text = Ok config
    /\ forall key, dict_get key config = last_value key entries.
Proof.
  unfold parse_entries, parse_text, Parser.parse_config. intros H.
  apply bind_ok in H as (p & -> & H). rewrite bind_ret.
  rewrite parse_config_loop_entries, H, bind_ret.
  exists (config_of entries []). split; [reflexivity|].
  intros key. rewrite dict_get_config_of. simpl. by destruct (last_value key entries).
Qed.

Lemma last_write_wins_witness :
  exists config,
    parse_text "a 1 b 2 a 3" = Ok config
    /\ forall key,
         dict_get key config
         = last_value key [("a", VInt 1); ("b", VInt 2); ("a", VInt 3)].
Proof.
  apply (last_write_wins "a 1 b 2 a 3" [("a", VInt 1); ("b", VInt 2); ("a", VInt 3)]).
  vm_compute. reflexivity.
Defined.

(** ** Truncated input *)

Lemma parse_text_not_ok_raises text :
  (forall config, parse_text text <> Ok config) -> exists e, parse_text text = Raise e.
Proof.
  intros H. pose proof (parse_text_total text) as Ht.
  destruct (parse_text text) as [config|e|]; [by destruct (H config)|by exists e|done].
Qed.

Lemma convert_to_json_raises text e :
  parse_text text = Raise e -> is_raise (convert_to_json text) = true.
Proof.
  unfold parse_text, convert_to_json.
  destruct (Parser.init (Lexer.init text)) as [p| |]; simpl; [|done|done].
  intros ->. by destruct e.
Qed.

(** A lexical error anywhere in the text stops the translation. *)
Lemma lexical_error_raises text fuel e :
  all_tokens fuel (Lexer.init text) = Raise e -> exists e', parse_text text = Raise e'.
Proof.
  intros Hf. apply parse_text_not_ok_raises. intros config Hok.
  destruct (parse_text_ok_tokens _ _ Hok) as (fuel' & toks & Htoks & _).
  exact (all_tokens_ok_raise _ _ _ _ _ Htoks Hf).
Qed.

(** A text that ends inside a multi-line comment or a string literal
    that is never closed, or inside an array that is still open at the end
    of the token stream, is not translated: the core raises an exception and
    returns no Config, and so does [convert_to_json].  Which exception is
    raised is the matter of [truncated_input_not_a_parse_error]. *)
Theorem truncated_input_raises text :
  ends_in_comment text \/ ends_in_string text \/ ends_in_array text ->
  (exists e, parse_text text = Raise e) /\ is_raise (convert_to_json text) = true.
Proof.
  intros H.
  assert (Hr : exists e, parse_text text = Raise e).
  { destruct H as [(l & Hs & Hc & Hp & Hno)|[(l & Hs & Hc & Hp & Hno)|(fuel & toks & Ht & Hb)]].
    - destruct (unclosed_comment_raises l Hc Hp Hno) as (ln & cl & He).
      destruct (all_tokens_scan _ _ _ Hs He) as [fuel Hf].
      exact (lexical_error_raises _ _ _ Hf).
    - destruct (unclosed_string_raises l Hc Hp Hno) as (ln & cl & He).
      destruct (all_tokens_scan _ _ _ Hs He) as [fuel Hf].
      exact (lexical_error_raises _ _ _ Hf).
    - apply parse_text_not_ok_raises. intros config Hok.
      destruct (parse_text_ok_tokens _ _ Hok) as (fuel' & toks' & Ht' & Hb').
      rewrite (all_tokens_functional _ _ _ _ _ Ht Ht') in Hb. lia. }
  split; [exact Hr|]. destruct Hr as [e He]. exact (convert_to_json_raises _ _ He).
Qed.

Lemma truncated_input_raises_witness :
  ((exists e, parse_text "k 1 <# oops" = Raise e)
   /\ is_raise (convert_to_json "k 1 <# oops") = true)
  /\ ((exists e, parse_text ("k @" +:+ dquote +:+ "abc") = Raise e)
      /\ is_raise (convert_to_json ("k @" +:+ dquote +:+ "abc")) = true)
  /\ ((exists e, parse_text "k [1, 2" = Raise e)
      /\ is_raise (convert_to_json "k [1, 2") = true).
Proof.
  split; [|split].
  - apply truncated_input_raises. left.
    exists (Lexer.mk "<# oops" 1 5). split; [|repeat split; reflexivity].
    apply (scans_token _ (Token.mk NAME "k" 1 1) (Lexer.mk " 1 <# oops" 1 2));
      [vm_compute; reflexivity|discriminate|].
    apply (scans_token _ (Token.mk NUMBER "1" 1 3) (Lexer.mk " <# oops" 1 4));
      [vm_compute; reflexivity|discriminate|].
    apply (scans_space _ " "%char); [reflexivity|reflexivity|].
    apply scans_here.
  - apply truncated_input_raises. right. left.
    exists (Lexer.mk ("@" +:+ dquote +:+ "abc") 1 3). split; [|repeat split; reflexivity].
    apply (scans_token _ (Token.mk NAME "k" 1 1) (Lexer.mk (" @" +:+ dquote +:+ "abc") 1 2));
      [vm_compute; reflexivity|discriminate|].
    apply (scans_space _ " "%char); [reflexivity|reflexivity|].
    apply scans_here.
  - apply truncated_input_raises. right. right.
    exists 6%nat,
      [Token.mk NAME "k" 1 1; Token.mk ARRAY_START "[" 1 3; Token.mk NUMBER "1" 1 4;
       Token.mk COMMA "," 1 5; Token.mk NUMBER "2" 1 7; Token.mk EOF EmptyString 1 8].
    split; [vm_compute; reflexivity|vm_compute; lia].
Defined.

(** C8 (the code departs from the specification). A truncated text is
    not always rejected with the fatal error of [self.error].  The text
    [k [0x] ends inside an array whose closing bracket is missing, and the
    translation stops in [int('0x', 16)] with [ValueError]; the text
    [k [1, 0] ends inside the array with the digit [0], and [read_number]
    stops with [TypeError]; the text [k 0x 1 <# c] ends inside a comment
    that is never closed, and the translation stops with [ValueError]
    before the lexer reaches the comment.  These are the exceptions of the
    defect of C4: no Config is returned, but what is raised is not a parse
    error, and [convert_to_json] leaves through its handler for other
    exceptions. *)
Theorem truncated_input_not_a_parse_error :
  (ends_in_array "k [0x"
   /\ parse_text "k [0x" = Raise ValueError
   /\ is_syntax_error (parse_text "k [0x") = false
   /\ convert_to_json "k [0x" = Raise (SystemExit 1))
  /\ (parse_text "k [1, 0" = Raise TypeError
      /\ is_syntax_error (parse_text "k [1, 0") = false)
  /\ (ends_in_comment "k 0x 1 <# c"
      /\ parse_text "k 0x 1 <# c" = Raise ValueError
      /\ is_syntax_error (parse_text "k 0x 1 <# c") = false).
Proof.
  split; [|split].
  - split; [|repeat split; vm_compute; reflexivity].
    exists 4%nat,
      [Token.mk NAME "k" 1 1; Token.mk ARRAY_START "[" 1 3; Token.mk HEX_NUMBER "0x" 1 4;
       Token.mk EOF EmptyString 1 6].
    split; [vm_compute; reflexivity|vm_compute; lia].
  - split; vm_compute; reflexivity.
  - split; [|split; vm_compute; reflexivity].
    exists (Lexer.mk "<# c" 1 8). split; [|repeat split; reflexivity].
    apply (scans_token _ (Token.mk NAME "k" 1 1) (Lexer.mk " 0x 1 <# c" 1 2));
      [vm_compute; reflexivity|discriminate|].
    apply (scans_token _ (Token.mk HEX_NUMBER "0x" 1 3) (Lexer.mk " 1 <# c" 1 5));
      [vm_compute; reflexivity|discriminate|].
    apply (scans_token _ (Token.mk NUMBER "1" 1 6) (Lexer.mk " <# c" 1 7));
      [vm_compute; reflexivity|discriminate|].
    apply (scans_space _ " "%char); [reflexivity|reflexivity|].
    apply scans_here.
Qed.

(** * Further properties of the code *)

(** ** Positions *)

Lemma pos_after_app s1 s2 ln cl :
  pos_after (s1 +:+ s2) ln cl
  = pos_after s2 (fst (pos_after s1 ln cl)) (snd (pos_after s1 ln cl)).
Proof.
  revert ln cl. induction s1 as [|c s1 IH]; intros ln cl; [reflexivity|].
  change (String c s1 +:+ s2) with (String c (s1 +:+ s2)). simpl.
  destruct (ascii_eqb c "010"); apply IH.
Qed.

Lemma reads_refl l : reads l EmptyString l.
Proof. split; reflexivity. Qed.

Lemma reads_trans l a l1 b l2 : reads l a l1 -> reads l1 b l2 -> reads l (a +:+ b) l2.
Proof.
  intros [Hr1 Hp1] [Hr2 Hp2]. split.
  - rewrite Hr1, Hr2. symmetry. apply append_assoc.
  - rewrite pos_after_app, <- Hp1. exact Hp2.
Qed.

Lemma reads_advance l c :
  Lexer.current_char l = Some c -> reads l (String c EmptyString) (Lexer.advance l).
Proof.
  destruct l as [s ln cl]. unfold Lexer.current_char, Lexer.advance, reads. simpl.
  destruct s as [|c' s]; intros [= ->]. simpl.
  destruct (ascii_eqb c "010"); split; reflexivity.
Qed.

Lemma peek1 l c s :
  Lexer.rest l = String c s ->
  Lexer.peek l 1 = match s with String c' _ => Some c' | EmptyString => None end.
Proof. unfold Lexer.peek. intros ->. destruct s; reflexivity. Qed.

Lemma reads_advance2 l c c' :
  Lexer.current_char l = Some c -> Lexer.peek l 1 = Some c' ->
  reads l (String c (String c' EmptyString)) (Lexer.advance (Lexer.advance l)).
Proof.
  intros Hc Hp.
  apply (reads_trans l (String c EmptyString) (Lexer.advance l) (String c' EmptyString));
    [apply reads_advance, Hc|].
  apply reads_advance.
  destruct l as [s ln cl]. unfold Lexer.current_char, Lexer.peek, Lexer.advance in *.
  simpl in *. destruct s as [|c0 [|c1 s]]; simplify_eq; simpl in *; simplify_eq.
  destruct (ascii_eqb c "010"); reflexivity.
Qed.

Lemma scan_while_reads P s ln cl acc :
  exists consumed,
    fst (Lexer.scan_while P s ln cl acc) = acc +:+ consumed
    /\ reads (Lexer.mk s ln cl) consumed (snd (Lexer.scan_while P s ln cl acc))
    /\ string_forall P consumed = true
    /\ stops_at P (Lexer.rest (snd (Lexer.scan_while P s ln cl acc))).
Proof.
  revert ln cl acc. induction s as [|c s IH]; intros ln cl acc; simpl.
  - exists EmptyString. rewrite append_empty_r. repeat split.
  - destruct (P c) eqn:HP; simpl.
    + destruct (IH (Lexer.line (Lexer.advance (Lexer.mk (String c s) ln cl)))
                   (Lexer.col (Lexer.advance (Lexer.mk (String c s) ln cl)))
                   (acc +:+ str_of_char c)) as (consumed & Hf & [Hr Hp] & Hall & Hstop).
      exists (String c consumed). split; [rewrite Hf; apply append_assoc|].
      split; [|split; [simpl; by rewrite HP, Hall|exact Hstop]].
      split; simpl in *.
      * exact (f_equal (String c) Hr).
      * rewrite Hp. unfold Lexer.advance. simpl.
        destruct (ascii_eqb c "010"); reflexivity.
    + exists EmptyString. rewrite append_empty_r.
      split; [reflexivity|]. split; [apply reads_refl|]. split; [reflexivity|exact HP].
Qed.

Lemma run_while_reads P l :
  exists consumed,
    fst (Lexer.run_while P l) = consumed
    /\ reads l consumed (snd (Lexer.run_while P l))
    /\ string_forall P consumed = true
    /\ stops_at P (Lexer.rest (snd (Lexer.run_while P l))).
Proof.
  destruct l as [s ln cl]. unfold Lexer.run_while. simpl.
  destruct (scan_while_reads P s ln cl EmptyString) as (consumed & Hf & H).
  exists consumed. split; [exact Hf|exact H].
Qed.

Lemma advance_mk c s ln cl :
  Lexer.advance (Lexer.mk (String c s) ln cl)
  = Lexer.mk s (Lexer.line (Lexer.advance (Lexer.mk (String c s) ln cl)))
               (Lexer.col (Lexer.advance (Lexer.mk (String c s) ln cl))).
Proof. unfold Lexer.advance. simpl. destruct (ascii_eqb c "010"); reflexivity. Qed.

Lemma opt_is_true o c : opt_is o c = true -> o = Some c.
Proof. destruct o as [a|]; simpl; [|discriminate]. by intros ->%Ascii.eqb_eq. Qed.

Lemma reads_nonempty P l consumed l1 c :
  Lexer.current_char l = Some c -> P c = true ->
  reads l consumed l1 -> stops_at P (Lexer.rest l1) -> consumed <> EmptyString.
Proof.
  intros Hc HP [Hr _] Hstop ->. change (Lexer.rest l = Lexer.rest l1) in Hr.
  rewrite <- Hr in Hstop.
  unfold Lexer.current_char in Hc. destruct (Lexer.rest l); simplify_eq.
  simpl in Hstop. congruence.
Qed.

Lemma skip_single_comment_reads l :
  exists consumed, reads l consumed (Lexer.skip_single_comment l).
Proof.
  unfold Lexer.skip_single_comment.
  destruct (run_while_reads (fun c => negb (ascii_eqb c "010")) l) as (consumed & _ & Hr & _).
  destruct (opt_is _ _) eqn:E; [|by exists consumed].
  apply opt_is_true in E. eexists. eapply reads_trans; [exact Hr|].
  apply reads_advance, E.
Qed.

Lemma skip_multi_comment_loop_reads s ln cl l1 :
  Lexer.skip_multi_comment_loop s ln cl = Ok l1 ->
  exists consumed, reads (Lexer.mk s ln cl) consumed l1.
Proof.
  revert ln cl. induction s as [|c s IH]; intros ln cl; simpl; [discriminate|].
  destruct (ascii_eqb c "#" && opt_is _ _) eqn:E.
  - intros [= <-]. apply andb_true_iff in E as [_ E]. apply opt_is_true in E.
    eexists. eapply reads_advance2; [reflexivity|exact E].
  - intros H. apply IH in H as [consumed H]. rewrite <- advance_mk in H.
    eexists. eapply reads_trans; [apply (reads_advance _ c); reflexivity|exact H].
Qed.

Lemma skip_multi_comment_reads l l1 c c' :
  Lexer.current_char l = Some c -> Lexer.peek l 1 = Some c' ->
  Lexer.skip_multi_comment l = Ok l1 -> exists consumed, reads l consumed l1.
Proof.
  intros Hc Hp H. unfold Lexer.skip_multi_comment in H.
  pose proof (reads_advance2 l c c' Hc Hp) as H2.
  destruct (Lexer.advance (Lexer.advance l)) as [s ln cl]. simpl in H.
  apply skip_multi_comment_loop_reads in H as [consumed H].
  eexists. eapply reads_trans; eassumption.
Qed.

Lemma read_string_loop_reads s ln cl acc r l1 :
  Lexer.read_string_loop s ln cl acc = Ok (r, l1) ->
  exists body,
    r = acc +:+ body
    /\ reads (Lexer.mk s ln cl) (escape_quotes body +:+ dquote) l1.
Proof.
  remember (String.length s) as n eqn:Hn.
  assert (Hle : (String.length s <= n)%nat) by lia. clear Hn.
  revert s Hle ln cl acc r l1. induction n as [|n IH]; intros s Hle ln cl acc r l1.
  { destruct s; simpl in *; [discriminate|lia]. }
  destruct s as [|c s']; simpl; [discriminate|]. simpl in Hle.
  destruct (ascii_eqb c "034") eqn:Ec.
  - apply Ascii.eqb_eq in Ec as ->.
    assert (Hclose : reads (Lexer.mk (String "034" s') ln cl) (escape_quotes EmptyString +:+ dquote)
                           (Lexer.advance (Lexer.mk (String "034" s') ln cl))).
    { apply (reads_advance _ "034"%char). reflexivity. }
    destruct s' as [|c' s'']; simpl.
    + intros [= <- <-]. exists EmptyString. by rewrite append_empty_r.
    + destruct (ascii_eqb c' "034") eqn:Ec'.
      * apply Ascii.eqb_eq in Ec' as ->. intros H.
        apply IH in H as (body & -> & H); [|simpl in Hle; lia].
        exists (String "034" body). split; [apply append_assoc|].
        pose proof (reads_advance2 (Lexer.mk (String "034" (String "034" s'')) ln cl)
                      "034"%char "034"%char eq_refl eq_refl) as H2.
        assert (Hmk : Lexer.advance (Lexer.advance (Lexer.mk (String "034" (String "034" s'')) ln cl))
                      = Lexer.mk s''
                          (Lexer.line (Lexer.advance (Lexer.advance
                             (Lexer.mk (String "034" (String "034" s'')) ln cl))))
                          (Lexer.col (Lexer.advance (Lexer.advance
                             (Lexer.mk (String "034" (String "034" s'')) ln cl))))).
        { reflexivity. }
        rewrite Hmk in H2.
        exact (reads_trans _ _ _ _ _ H2 H).
      * intros [= <- <-]. exists EmptyString. by rewrite append_empty_r.
  - intros H. apply IH in H as (body & -> & H); [|lia].
    exists (String c body). split; [apply append_assoc|].
    rewrite <- advance_mk in H. simpl. rewrite Ec.
    exact (reads_trans _ (String c EmptyString) _ _ _
             (reads_advance (Lexer.mk (String c s') ln cl) c eq_refl) H).
Qed.

Lemma read_string_reads l r l1 :
  Lexer.current_char l = Some "@"%char -> Lexer.peek l 1 = Some "034"%char ->
  Lexer.read_string l = Ok (r, l1) ->
  reads l ("@" +:+ dquote +:+ escape_quotes r +:+ dquote) l1.
Proof.
  intros Hc Hp H. unfold Lexer.read_string in H.
  pose proof (reads_advance2 l _ _ Hc Hp) as H2.
  destruct (Lexer.advance (Lexer.advance l)) as [s ln cl]. simpl in H.
  apply read_string_loop_reads in H as (body & -> & H).
  exact (reads_trans _ _ _ _ _ H2 H).
Qed.

Lemma read_name_reads l c :
  Lexer.current_char l = Some c -> Lexer.name_char c = true ->
  reads l (fst (Lexer.read_name l)) (snd (Lexer.read_name l))
  /\ fst (Lexer.read_name l) <> EmptyString
  /\ string_forall Lexer.name_char (fst (Lexer.read_name l)) = true.
Proof.
  intros Hc HP. unfold Lexer.read_name.
  destruct (run_while_reads Lexer.name_char l) as (consumed & Hf & Hr & Hall & Hstop).
  rewrite Hf. split; [exact Hr|]. split; [|exact Hall].
  eapply reads_nonempty; eassumption.
Qed.

Lemma read_number_reads l r l1 c :
  Lexer.current_char l = Some c -> isdigit c = true ->
  Lexer.read_number l = Ok (r, l1) ->
  reads l r l1 /\ r <> EmptyString.
Proof.
  intros Hc Hd. unfold Lexer.read_number.
  assert (Hdec : forall r l1, Ok (Lexer.run_while isdigit l) = Ok (r, l1) ->
                              reads l r l1 /\ r <> EmptyString).
  { intros r' l' [= E].
    destruct (run_while_reads isdigit l) as (consumed & Hf & Hr & _ & Hstop).
    rewrite E in Hf, Hr, Hstop. simpl in *. subst consumed.
    split; [exact Hr|]. eapply reads_nonempty; eassumption. }
  destruct (opt_is _ _) eqn:E0; [|apply Hdec].
  destruct (Lexer.peek l 1) as [x|] eqn:Hp; [|discriminate].
  destruct (ascii_eqb x "x" || ascii_eqb x "X"); [|apply Hdec].
  apply opt_is_true in E0.
  intros [= H].
  pose proof (reads_advance2 l c x Hc Hp) as H2.
  destruct (Lexer.advance (Lexer.advance l)) as [s ln cl]. simpl in H.
  destruct (scan_while_reads is_hex_char s ln cl ("0" +:+ str_of_char x))
    as (consumed & Hf & Hr & _). rewrite H in Hf, Hr. simpl in Hf, Hr. subst r.
  assert (c = "0"%char) as -> by congruence.
  split; [|discriminate].
  exact (reads_trans _ _ _ _ _ H2 Hr).
Qed.

Lemma token_at_skip l part l' tok l1 :
  reads l part l' -> token_at l' tok l1 -> token_at l tok l1.
Proof.
  intros Hr (skipped & Hr' & Hp). exists (part +:+ skipped). split.
  - rewrite append_assoc. eapply reads_trans; eassumption.
  - rewrite pos_after_app. destruct Hr as [_ <-]. exact Hp.
Qed.

Lemma token_at_here l tok l1 :
  reads l (lexeme_of tok) l1 ->
  Token.line tok = Lexer.line l -> Token.col tok = Lexer.col l ->
  token_at l tok l1.
Proof. intros Hr Hl Hc. exists EmptyString. split; [exact Hr|]. simpl. congruence. Qed.

Lemma get_next_token_loop_reads fuel l tok l1 :
  Lexer.get_next_token_loop fuel l = Ok (tok, l1) ->
  token_at l tok l1
  /\ (Token.type tok = EOF -> Lexer.rest l1 = EmptyString)
  /\ (Token.type tok <> EOF -> lexeme_of tok <> EmptyString).
Proof.
  revert l. induction fuel as [|fuel IH]; intros l; [discriminate|]. simpl.
  destruct (Lexer.current_char l) as [c|] eqn:Hc.
  2:{ intros [= <- <-]. split; [apply token_at_here; [apply reads_refl|done|done]|].
      split; [|done]. intros _. unfold Lexer.current_char in Hc.
      by destruct (Lexer.rest l). }
  destruct (isspace c) eqn:Hsp.
  { intros H. apply IH in H as (Ht & He & Hn). split; [|by split].
    unfold Lexer.skip_whitespace in Ht.
    destruct (run_while_reads isspace l) as (consumed & _ & Hr & _).
    eapply token_at_skip; eassumption. }
  destruct (ascii_eqb c "%") eqn:Hpc.
  { intros H. apply IH in H as (Ht & He & Hn). split; [|by split].
    destruct (skip_single_comment_reads (Lexer.advance l)) as [consumed Hr].
    eapply token_at_skip; [|exact Ht].
    eapply reads_trans; [apply reads_advance, Hc|exact Hr]. }
  destruct (ascii_eqb c "<" && opt_is (Lexer.peek l 1) "#") eqn:Hmc.
  { apply andb_true_iff in Hmc as [_ Hp]. apply opt_is_true in Hp.
    destruct (Lexer.skip_multi_comment l) as [l2| |] eqn:Hm; simpl; try discriminate.
    intros H. apply IH in H as (Ht & He & Hn). split; [|by split].
    destruct (skip_multi_comment_reads _ _ _ _ Hc Hp Hm) as [consumed Hr].
    eapply token_at_skip; eassumption. }
  destruct (ascii_eqb c "." && opt_is (Lexer.peek l 1) "{") eqn:H1.
  { apply andb_true_iff in H1 as [->%Ascii.eqb_eq Hp]. apply opt_is_true in Hp.
    intros [= <- <-]. split; [|by split].
    apply token_at_here; [|done|done]. apply (reads_advance2 _ _ _ Hc Hp). }
  destruct (ascii_eqb c "}" && opt_is (Lexer.peek l 1) ".") eqn:H2.
  { apply andb_true_iff in H2 as [->%Ascii.eqb_eq Hp]. apply opt_is_true in Hp.
    intros [= <- <-]. split; [|by split].
    apply token_at_here; [|done|done]. apply (reads_advance2 _ _ _ Hc Hp). }
  destruct (ascii_eqb c "@" && opt_is (Lexer.peek l 1) "034") eqn:H3.
  { apply andb_true_iff in H3 as [->%Ascii.eqb_eq Hp]. apply opt_is_true in Hp.
    destruct (Lexer.read_string l) as [[v l2]| |] eqn:Hr; simpl; try discriminate.
    intros [= <- <-]. split; [|by split].
    apply token_at_here; [|done|done]. apply (read_string_reads _ _ _ Hc Hp Hr). }
  destruct (ascii_eqb c "(") eqn:H4.
  { apply Ascii.eqb_eq in H4 as ->.
    destruct (run_while_reads Lexer.name_char (Lexer.advance l)) as (consumed & Hf & Hr & _).
    fold (Lexer.read_name (Lexer.advance l)) in Hf, Hr.
    destruct (Lexer.read_name (Lexer.advance l)) as [name l2]. simpl in Hf, Hr. subst consumed.
    destruct (String.eqb name "define") eqn:Hd; [|discriminate].
    apply String.eqb_eq in Hd as ->.
    intros [= <- <-]. split; [|by split].
    apply token_at_here; [|done|done].
    exact (reads_trans _ _ _ _ _ (reads_advance _ _ Hc) Hr). }
  destruct (ascii_eqb c "[") eqn:H5.
  { apply Ascii.eqb_eq in H5 as ->. intros [= <- <-]. split; [|by split].
    apply token_at_here; [|done|done]. apply reads_advance, Hc. }
  destruct (ascii_eqb c "]") eqn:H6.
  { apply Ascii.eqb_eq in H6 as ->. intros [= <- <-]. split; [|by split].
    apply token_at_here; [|done|done]. apply reads_advance, Hc. }
  destruct (ascii_eqb c ",") eqn:H7.
  { apply Ascii.eqb_eq in H7 as ->. intros [= <- <-]. split; [|by split].
    apply token_at_here; [|done|done]. apply reads_advance, Hc. }
  destruct (isdigit c) eqn:Hd.
  { destruct (Lexer.read_number l) as [[v l2]| |] eqn:Hr; simpl; try discriminate.
    destruct (read_number_reads _ _ _ _ Hc Hd Hr) as [Hreads Hne].
    destruct (Lexer.starts_with_0x v); intros [= <- <-];
      (split; [by apply token_at_here|split; [done|by intros _]]). }
  destruct (isalpha c && islower c) eqn:Hal.
  { assert (Hn : Lexer.name_char c = true).
    { apply isalpha_name_char. by apply andb_true_iff in Hal as [? _]. }
    destruct (read_name_reads l c Hc Hn) as (Hreads & Hne & _).
    destruct (Lexer.read_name l) as [name l2]. simpl in Hreads, Hne.
    destruct (String.eqb name "abs"); [|destruct (Lexer.is_operator_name name)];
      intros [= <- <-]; (split; [by apply token_at_here|split; [done|by intros _]]). }
  destruct (Lexer.is_operator_char c); [|discriminate].
  intros [= <- <-]. split; [|by split].
  apply token_at_here; [|done|done]. apply reads_advance, Hc.
Qed.

(** ** The shape of tokens *)

Lemma is_operator_name_cases name :
  Lexer.is_operator_name name = true ->
  name = "+" \/ name = "-" \/ name = "*" \/ name = "/".
Proof.
  unfold Lexer.is_operator_name. rewrite !orb_true_iff, !String.eqb_eq. tauto.
Qed.

Lemma is_operator_char_cases c :
  Lexer.is_operator_char c = true ->
  str_of_char c = "+" \/ str_of_char c = "-" \/ str_of_char c = "*" \/ str_of_char c = "/".
Proof.
  unfold Lexer.is_operator_char, ascii_eqb. rewrite !orb_true_iff, !Ascii.eqb_eq.
  intros [[[->| ->]| ->]| ->]; auto.
Qed.

Lemma digits_not_0x r : string_forall isdigit r = true -> Lexer.starts_with_0x r = false.
Proof.
  destruct r as [|a [|b r]]; try reflexivity. simpl.
  intros [_ [Hb _]%andb_true_iff]%andb_true_iff.
  destruct (ascii_eqb a "0"); [|reflexivity]. simpl.
  revert Hb. clear. destruct b as [[] [] [] [] [] [] [] []]; vm_compute; congruence.
Qed.

Lemma read_number_shape l r l1 c :
  Lexer.current_char l = Some c -> isdigit c = true ->
  Lexer.read_number l = Ok (r, l1) ->
  (r <> EmptyString /\ string_forall isdigit r = true)
  \/ (exists x digits,
        r = String "0" (String x digits)
        /\ (x = "x"%char \/ x = "X"%char)
        /\ string_forall is_hex_char digits = true).
Proof.
  intros Hc Hd. unfold Lexer.read_number.
  assert (Hdec : forall r l1, Ok (Lexer.run_while isdigit l) = Ok (r, l1) ->
                              r <> EmptyString /\ string_forall isdigit r = true).
  { intros r' l' [= E].
    destruct (run_while_reads isdigit l) as (consumed & Hf & Hr & Hall & Hstop).
    rewrite E in Hf, Hr, Hstop. simpl in *. subst consumed.
    split; [|exact Hall]. eapply reads_nonempty; eassumption. }
  destruct (opt_is _ _); [|left; eapply Hdec; eassumption].
  destruct (Lexer.peek l 1) as [x|] eqn:Hp; [|discriminate].
  destruct (ascii_eqb x "x" || ascii_eqb x "X") eqn:Hx; [|left; eapply Hdec; eassumption].
  intros [= H]. right.
  destruct (Lexer.advance (Lexer.advance l)) as [s ln cl]. simpl in H.
  destruct (scan_while_reads is_hex_char s ln cl ("0" +:+ str_of_char x))
    as (consumed & Hf & _ & Hall & _). rewrite H in Hf. simpl in Hf. subst r.
  exists x, consumed. split; [reflexivity|]. split; [|exact Hall].
  apply orb_true_iff in Hx as [->%Ascii.eqb_eq| ->%Ascii.eqb_eq]; auto.
Qed.

Lemma read_name_shape l c :
  Lexer.current_char l = Some c -> Lexer.name_char c = true ->
  exists r, fst (Lexer.read_name l) = String c r
            /\ string_forall Lexer.name_char r = true.
Proof.
  intros Hc Hn.
  destruct (read_name_reads l c Hc Hn) as ([Hr _] & Hne & Hall).
  unfold Lexer.current_char in Hc.
  destruct (fst (Lexer.read_name l)) as [|a r]; [done|].
  destruct (Lexer.rest l) as [|c' s]; simplify_eq.
  change (String c s = String a (r +:+ Lexer.rest (snd (Lexer.read_name l)))) in Hr.
  injection Hr as -> _. exists r. split; [reflexivity|].
  simpl in Hall. by apply andb_true_iff in Hall as [_ ?].
Qed.

Lemma get_next_token_loop_shape fuel l tok l1 :
  Lexer.get_next_token_loop fuel l = Ok (tok, l1) -> token_shape tok.
Proof.
  revert l. induction fuel as [|fuel IH]; intros l; [discriminate|]. simpl.
  destruct (Lexer.current_char l) as [c|] eqn:Hc; [|by intros [= <- <-]].
  destruct (isspace c); [apply IH|].
  destruct (ascii_eqb c "%"); [apply IH|].
  destruct (_ && _).
  { destruct (Lexer.skip_multi_comment l); simpl; try discriminate. apply IH. }
  destruct (_ && _); [by intros [= <- <-]|].
  destruct (_ && _); [by intros [= <- <-]|].
  destruct (_ && _).
  { destruct (Lexer.read_string l) as [[v l2]| |]; simpl; try discriminate. by intros [= <- <-]. }
  destruct (ascii_eqb c "(").
  { destruct (Lexer.read_name (Lexer.advance l)) as [name l2].
    destruct (String.eqb name "define"); [by intros [= <- <-]|discriminate]. }
  destruct (ascii_eqb c "["); [by intros [= <- <-]|].
  destruct (ascii_eqb c "]"); [by intros [= <- <-]|].
  destruct (ascii_eqb c ","); [by intros [= <- <-]|].
  destruct (isdigit c) eqn:Hd.
  { destruct (Lexer.read_number l) as [[v l2]| |] eqn:Hr; simpl; try discriminate.
    destruct (read_number_shape _ _ _ _ Hc Hd Hr) as [[Hne Hall]|(x & digits & -> & Hx & Hall)].
    - rewrite (digits_not_0x _ Hall). intros [= <- <-]. by split.
    - replace (Lexer.starts_with_0x _) with true
        by (destruct Hx as [-> | ->]; reflexivity).
      intros [= <- <-]. by exists x, digits. }
  destruct (isalpha c && islower c) eqn:Hal.
  { assert (Hn : Lexer.name_char c = true).
    { apply isalpha_name_char. by apply andb_true_iff in Hal as [? _]. }
    destruct (read_name_shape l c Hc Hn) as (r & Hf & Hall).
    destruct (Lexer.read_name l) as [name l2]. simpl in Hf. subst name.
    destruct (String.eqb (String c r) "abs") eqn:Heq.
    { apply String.eqb_eq in Heq. by intros [= <- <-]. }
    apply String.eqb_neq in Heq.
    destruct (Lexer.is_operator_name _) eqn:Hop; intros [= <- <-].
    - by apply is_operator_name_cases.
    - by exists c, r. }
  destruct (Lexer.is_operator_char c) eqn:Hop; [|discriminate].
  intros [= <- <-]. by apply is_operator_char_cases.
Qed.

Lemma get_next_token_eof l tok l1 :
  Lexer.get_next_token l = Ok (tok, l1) -> Token.type tok = EOF ->
  Lexer.rest l1 = EmptyString
  /\ tok = Token.mk EOF EmptyString (Lexer.line l1) (Lexer.col l1).
Proof.
  intros H Hty.
  pose proof (get_next_token_loop_shape _ _ _ _ H) as Hs.
  destruct (get_next_token_loop_reads _ _ _ _ H) as ((skipped & [_ Hp] & Hpos) & He & _).
  split; [exact (He Hty)|].
  unfold token_shape in Hs. unfold lexeme_of in Hp. rewrite Hty in Hs, Hp.
  rewrite append_empty_r, <- Hpos in Hp.
  destruct tok as [ty v ln cl]. simpl in *. by simplify_eq.
Qed.

(** ** String literals and comments *)

Lemma lexer_after_cons c s r ln cl :
  lexer_after (String c s) r ln cl
  = lexer_after s r (Lexer.line (Lexer.advance (Lexer.mk (String c (s +:+ r)) ln cl)))
                    (Lexer.col (Lexer.advance (Lexer.mk (String c (s +:+ r)) ln cl))).
Proof.
  unfold lexer_after, Lexer.advance. simpl. destruct (ascii_eqb c "010"); reflexivity.
Qed.

Lemma read_string_loop_escape body r ln cl acc :
  no_quote_first r ->
  Lexer.read_string_loop (escape_quotes body +:+ dquote +:+ r) ln cl acc
  = Ok (acc +:+ body, lexer_after (escape_quotes body +:+ dquote) r ln cl).
Proof.
  intros Hr. revert ln cl acc. induction body as [|c body IH]; intros ln cl acc.
  - change (escape_quotes EmptyString +:+ dquote +:+ r) with (String "034" r).
    rewrite append_empty_r. simpl.
    destruct r as [|c' r']; [reflexivity|].
    simpl in Hr. apply Ascii.eqb_neq in Hr. unfold ascii_eqb. rewrite Hr. reflexivity.
  - simpl escape_quotes. destruct (ascii_eqb c "034") eqn:Ec.
    + apply Ascii.eqb_eq in Ec as ->.
      change (String "034" (String "034" (escape_quotes body)) +:+ dquote +:+ r)
        with (String "034" (String "034" (escape_quotes body +:+ dquote +:+ r))).
      change (String "034" (String "034" (escape_quotes body)) +:+ dquote)
        with (String "034" (String "034" (escape_quotes body +:+ dquote))).
      simpl. rewrite IH, append_assoc. reflexivity.
    + change (String c (escape_quotes body) +:+ dquote +:+ r)
        with (String c (escape_quotes body +:+ dquote +:+ r)).
      change (String c (escape_quotes body) +:+ dquote)
        with (String c (escape_quotes body +:+ dquote)).
      cbn [Lexer.read_string_loop]. rewrite Ec, IH, append_assoc, lexer_after_cons.
      rewrite append_assoc. reflexivity.
Qed.

Lemma get_next_token_literal body r ln cl :
  no_quote_first r ->
  Lexer.get_next_token (Lexer.mk (literal (escape_quotes body) +:+ r) ln cl)
  = Ok (Token.mk STRING body ln cl, lexer_after (literal (escape_quotes body)) r ln cl).
Proof.
  intros Hr.
  assert (Htext : literal (escape_quotes body) +:+ r
                  = String "@" (String "034" (escape_quotes body +:+ dquote +:+ r))).
  { unfold literal. rewrite !append_assoc. reflexivity. }
  rewrite Htext, get_next_token_string by reflexivity.
  unfold Lexer.read_string.
  change (Lexer.advance (Lexer.advance
            (Lexer.mk (String "@" (String "034" (escape_quotes body +:+ dquote +:+ r))) ln cl)))
    with (Lexer.mk (escape_quotes body +:+ dquote +:+ r) ln (cl + 1 + 1)).
  cbn [Lexer.rest Lexer.line Lexer.col].
  rewrite read_string_loop_escape by exact Hr. reflexivity.
Qed.

Lemma skip_multi_comment_loop_closed body r ln cl :
  no_comment_end body = true ->
  Lexer.skip_multi_comment_loop (body +:+ "#>" +:+ r) ln cl
  = Ok (lexer_after (body +:+ "#>") r ln cl).
Proof.
  revert ln cl. induction body as [|c body IH]; intros ln cl Hb.
  - reflexivity.
  - change (String c body +:+ "#>" +:+ r) with (String c (body +:+ "#>" +:+ r)).
    change (String c body +:+ "#>") with (String c (body +:+ "#>")).
    simpl in Hb. apply andb_true_iff in Hb as [Hc Hb]. apply negb_true_iff in Hc.
    cbn [Lexer.skip_multi_comment_loop].
    assert (E : ascii_eqb c "#"
                && opt_is (Lexer.peek (Lexer.mk (String c (body +:+ "#>" +:+ r)) ln cl) 1) ">"
                = false).
    { destruct body as [|c' body']; [apply andb_false_r|exact Hc]. }
    rewrite E, IH by exact Hb.
    unfold lexer_after, Lexer.advance. simpl.
    destruct (ascii_eqb c "010"); reflexivity.
Qed.

Lemma get_next_token_closed_comment body r ln cl :
  no_comment_end body = true ->
  Lexer.get_next_token (Lexer.mk ("<#" +:+ body +:+ "#>" +:+ r) ln cl)
  = Lexer.get_next_token (lexer_after ("<#" +:+ body +:+ "#>") r ln cl).
Proof.
  intros Hb.
  change ("<#" +:+ body +:+ "#>" +:+ r) with (String "<" (String "#" (body +:+ "#>" +:+ r))).
  rewrite get_next_token_block_comment by reflexivity.
  unfold Lexer.skip_multi_comment.
  change (Lexer.advance (Lexer.advance (Lexer.mk (String "<" (String "#" (body +:+ "#>" +:+ r))) ln cl)))
    with (Lexer.mk (body +:+ "#>" +:+ r) ln (cl + 1 + 1)).
  cbn [Lexer.rest Lexer.line Lexer.col].
  rewrite skip_multi_comment_loop_closed by exact Hb. reflexivity.
Qed.

Lemma scan_while_all P body r ln cl acc :
  string_forall P body = true -> stops_at P r ->
  Lexer.scan_while P (body +:+ r) ln cl acc = (acc +:+ body, lexer_after body r ln cl).
Proof.
  revert ln cl acc. induction body as [|c body IH]; intros ln cl acc Hb Hr.
  - change (EmptyString +:+ r) with r. rewrite append_empty_r.
    destruct r as [|c r]; [reflexivity|]. simpl in *. rewrite Hr. reflexivity.
  - change (String c body +:+ r) with (String c (body +:+ r)).
    simpl in Hb. apply andb_true_iff in Hb as [Hc Hb].
    cbn [Lexer.scan_while]. rewrite Hc, IH by assumption.
    rewrite append_assoc. unfold lexer_after, Lexer.advance. simpl.
    destruct (ascii_eqb c "010"); reflexivity.
Qed.

Lemma pos_after_line body ln cl :
  string_forall not_newline body = true ->
  pos_after body ln cl = (ln, (cl + String.length body)%nat).
Proof.
  revert cl. induction body as [|c body IH]; intros cl Hb; simpl.
  - f_equal. lia.
  - simpl in Hb. apply andb_true_iff in Hb as [Hc Hb].
    unfold not_newline in Hc. apply negb_true_iff in Hc. rewrite Hc, IH by exact Hb.
    f_equal. lia.
Qed.

Lemma get_next_token_closed_line body r ln cl :
  string_forall not_newline body = true ->
  Lexer.get_next_token (Lexer.mk ("%" +:+ body +:+ newline +:+ r) ln cl)
  = Lexer.get_next_token (Lexer.mk r (ln + 1) 1).
Proof.
  intros Hb.
  change ("%" +:+ body +:+ newline +:+ r) with (String "%" (body +:+ String "010" r)).
  rewrite get_next_token_line_comment by reflexivity.
  unfold Lexer.skip_single_comment, Lexer.run_while.
  change (Lexer.advance (Lexer.mk (String "%" (body +:+ String "010" r)) ln cl))
    with (Lexer.mk (body +:+ String "010" r) ln (cl + 1)).
  cbn [Lexer.rest Lexer.line Lexer.col].
  rewrite (scan_while_all _ body (String "010" r)) by (exact Hb || reflexivity).
  unfold lexer_after. rewrite pos_after_line by exact Hb. reflexivity.
Qed.

Lemma scan_while_snd P s ln cl acc acc' :
  snd (Lexer.scan_while P s ln cl acc) = snd (Lexer.scan_while P s ln cl acc').
Proof.
  revert ln cl acc acc'. induction s as [|c s IH]; intros ln cl acc acc'; simpl; [reflexivity|].
  destruct (P c); [apply IH|reflexivity].
Qed.

Lemma get_next_token_space_char c s ln cl :
  isspace c = true ->
  Lexer.get_next_token (Lexer.mk (String c s) ln cl)
  = Lexer.get_next_token (Lexer.advance (Lexer.mk (String c s) ln cl)).
Proof.
  intros Hc. rewrite (get_next_token_space _ c) by (reflexivity || exact Hc).
  assert (Hskip : Lexer.skip_whitespace (Lexer.mk (String c s) ln cl)
                  = Lexer.skip_whitespace (Lexer.advance (Lexer.mk (String c s) ln cl))).
  { unfold Lexer.skip_whitespace, Lexer.run_while.
    cbn [Lexer.rest Lexer.line Lexer.col Lexer.scan_while]. rewrite Hc.
    set (a := Lexer.advance (Lexer.mk (String c s) ln cl)).
    replace (Lexer.rest a) with s
      by (unfold a, Lexer.advance; simpl; destruct (ascii_eqb c "010"); reflexivity).
    apply scan_while_snd. }
  rewrite Hskip. rewrite advance_mk.
  destruct s as [|c' s'].
  - reflexivity.
  - destruct (isspace c') eqn:Hc'.
    + symmetry. apply (get_next_token_space _ c'); [reflexivity|exact Hc'].
    + unfold Lexer.skip_whitespace, Lexer.run_while.
      cbn [Lexer.rest Lexer.line Lexer.col Lexer.scan_while]. rewrite Hc'. reflexivity.
Qed.

Lemma get_next_token_spaces body r ln cl :
  string_forall isspace body = true ->
  Lexer.get_next_token (Lexer.mk (body +:+ r) ln cl)
  = Lexer.get_next_token (lexer_after body r ln cl).
Proof.
  revert ln cl. induction body as [|c body IH]; intros ln cl Hb; [reflexivity|].
  change (String c body +:+ r) with (String c (body +:+ r)).
  simpl in Hb. apply andb_true_iff in Hb as [Hc Hb].
  rewrite get_next_token_space_char by exact Hc.
  rewrite advance_mk, IH by exact Hb.
  unfold lexer_after, Lexer.advance. simpl. destruct (ascii_eqb c "010"); reflexivity.
Qed.

(** ** What the parser keeps *)

Ltac ok_inv H :=
  repeat first
    [ discriminate H
    | match type of H with
      | bind ?m _ = Ok _ =>
          let E := fresh "E" in
          destruct m as [?| |] eqn:E; cbn [bind] in H; [|discriminate H|discriminate H]
      | (let '(_, _) := ?x in _) = Ok _ => destruct x
      | (if ?b then _ else _) = Ok _ => let E := fresh "E" in destruct b eqn:E
      | match ?x with _ => _ end = Ok _ => let E := fresh "E" in destruct x eqn:E
      end ].

Section Invariant.

Variable I : Parser.t -> Prop.
Hypothesis eat_I : forall ty p p1, Parser.eat ty p = Ok p1 -> I p -> I p1.

Lemma body_step_inv p stack stack1 p1 :
  Parser.body_step p stack = Ok (stack1, p1) -> I p -> I p1.
Proof.
  unfold Parser.body_step. intros H Hp.
  ok_inv H; injection H as <- <-; eauto.
Qed.

Lemma expr_step_inv p stack stack1 p1 :
  Parser.expr_step p stack = Ok (stack1, p1) -> I p -> I p1.
Proof.
  unfold Parser.expr_step. intros H Hp.
  ok_inv H; injection H as <- <-; eauto.
Qed.

Lemma body_loop_inv fuel p stack stack1 p1 :
  Parser.body_loop fuel p stack = Ok (stack1, p1) -> I p -> I p1.
Proof.
  revert p stack. induction fuel as [|fuel IH]; intros p stack H Hp; [discriminate|].
  simpl in H. destruct (_ || _); [by injection H as <- <-|].
  destruct (Parser.body_step p stack) as [[stack2 p2]| |] eqn:E; try discriminate.
  simpl in H. eauto using body_step_inv.
Qed.

Lemma expr_loop_inv fuel p stack stack1 p1 :
  Parser.expr_loop fuel p stack = Ok (stack1, p1) -> I p -> I p1.
Proof.
  revert p stack. induction fuel as [|fuel IH]; intros p stack H Hp; [discriminate|].
  simpl in H. destruct (Parser.is_type p CONST_EXPR_END); [by injection H as <- <-|].
  destruct (Parser.expr_step p stack) as [[stack2 p2]| |] eqn:E; try discriminate.
  simpl in H. eauto using expr_step_inv.
Qed.

Lemma parse_const_expression_body_inv fuel p v p1 :
  Parser.parse_const_expression_body fuel p = Ok (v, p1) -> I p -> I p1.
Proof.
  unfold Parser.parse_const_expression_body. intros H Hp.
  destruct (Parser.body_loop fuel p []) as [[stack p2]| |] eqn:E; try discriminate.
  simpl in H. destruct stack as [|v' [|]]; try discriminate.
  injection H as <- <-. eauto using body_loop_inv.
Qed.

Lemma parse_const_expression_inv fuel first_arg p v p1 :
  Parser.parse_const_expression fuel first_arg p = Ok (v, p1) -> I p -> I p1.
Proof.
  unfold Parser.parse_const_expression. intros H Hp.
  destruct (Parser.eat CONST_EXPR_START p) as [p2| |] eqn:E1; try discriminate.
  cbn [bind] in H.
  match type of H with bind ?m _ = _ => destruct m as [stack| |]; try discriminate end.
  cbn [bind] in H.
  destruct (Parser.expr_loop fuel p2 stack) as [[stack1 p3]| |] eqn:E2; try discriminate.
  cbn [bind] in H.
  destruct (Parser.eat CONST_EXPR_END p3) as [p4| |] eqn:E3; try discriminate.
  cbn [bind] in H. destruct stack1 as [|v' [|]]; try discriminate.
  injection H as <- <-. eauto using expr_loop_inv.
Qed.

Lemma array_loop_inv parse_value fuel p values values1 p1 :
  (forall p v p1, parse_value p = Ok (v, p1) -> I p -> I p1) ->
  Parser.array_loop parse_value fuel p values = Ok (values1, p1) -> I p -> I p1.
Proof.
  intros Hv. revert p values. induction fuel as [|fuel IH]; intros p values H Hp; [discriminate|].
  simpl in H. destruct (Parser.is_type p COMMA); [|by injection H as <- <-].
  destruct (Parser.eat COMMA p) as [p2| |] eqn:E1; try discriminate. cbn [bind] in H.
  destruct (parse_value p2) as [[v p3]| |] eqn:E2; try discriminate. cbn [bind] in H.
  eauto.
Qed.

Lemma parse_array_with_inv parse_value fuel p v p1 :
  (forall p v p1, parse_value p = Ok (v, p1) -> I p -> I p1) ->
  Parser.parse_array_with parse_value fuel p = Ok (v, p1) -> I p -> I p1.
Proof.
  intros Hv. unfold Parser.parse_array_with. intros H Hp.
  destruct (Parser.eat ARRAY_START p) as [p2| |] eqn:E1; try discriminate. cbn [bind] in H.
  assert (I p2) as Hp2 by eauto.
  match type of H with bind ?m _ = _ => destruct m as [[values p3]| |] eqn:E2; try discriminate end.
  cbn [bind] in H.
  destruct (Parser.eat ARRAY_END p3) as [p4| |] eqn:E3; try discriminate. cbn [bind] in H.
  injection H as <- <-. apply (eat_I _ _ _ E3).
  destruct (negb _).
  - destruct (parse_value p2) as [[v1 p5]| |] eqn:E4; try discriminate. cbn [bind] in E2.
    eapply array_loop_inv; eauto.
  - by injection E2 as <- <-.
Qed.

Lemma parse_value_inv fuel p v p1 :
  Parser.parse_value fuel p = Ok (v, p1) -> I p -> I p1.
Proof.
  revert p v p1. induction fuel as [|fuel IH]; intros p v p1 H Hp; [discriminate|].
  simpl in H. destruct (Token.type (Parser.current_token p)); try discriminate.
  - ok_inv H. injection H as <- <-. eauto using parse_const_expression_body_inv.
  - eapply parse_array_with_inv; eauto.
  - ok_inv H. injection H as <- <-. eauto.
  - ok_inv H. injection H as <- <-. eauto.
  - ok_inv H. injection H as <- <-. eauto.
  - destruct (Parser.eat NAME p) as [p2| |] eqn:E1; try discriminate. cbn [bind] in H.
    destruct (Parser.is_type p2 CONST_EXPR_START).
    + eauto using parse_const_expression_inv.
    + ok_inv H; injection H as <- <-; eauto.
Qed.

End Invariant.

Lemma eat_constants ty p p1 :
  Parser.eat ty p = Ok p1 -> Parser.constants p1 = Parser.constants p.
Proof. intros (_ & tok & l & _ & ->)%eat_ok. reflexivity. Qed.

Lemma eat_shape ty p p1 :
  Parser.eat ty p = Ok p1 -> token_shape (Parser.current_token p1).
Proof.
  intros (_ & tok & l & H & ->)%eat_ok. simpl.
  exact (get_next_token_loop_shape _ _ _ _ H).
Qed.

Lemma parse_value_constants fuel p v p1 :
  Parser.parse_value fuel p = Ok (v, p1) -> Parser.constants p1 = Parser.constants p.
Proof.
  intros H.
  apply (parse_value_inv (fun q => Parser.constants q = Parser.constants p)) in H;
    [exact H| |reflexivity].
  intros ty q q1 Hq <-. by apply eat_constants in Hq.
Qed.

Lemma parse_const_expression_constants fuel first_arg p v p1 :
  Parser.parse_const_expression fuel first_arg p = Ok (v, p1) ->
  Parser.constants p1 = Parser.constants p.
Proof.
  intros H.
  apply (parse_const_expression_inv (fun q => Parser.constants q = Parser.constants p)) in H;
    [exact H| |reflexivity].
  intros ty q q1 Hq <-. by apply eat_constants in Hq.
Qed.

Lemma parse_pair_ok fuel p key v p1 :
  Parser.parse_pair fuel p = Ok (key, v, p1) ->
  key = Token.value (Parser.current_token p)
  /\ Parser.cur_type p = NAME
  /\ Parser.constants p1 = Parser.constants p
  /\ (token_shape (Parser.current_token p) -> token_shape (Parser.current_token p1)).
Proof.
  unfold Parser.parse_pair. intros H.
  destruct (Parser.eat NAME p) as [p2| |] eqn:E1; try discriminate. cbn [bind] in H.
  match type of H with bind ?m _ = _ => destruct m as [[v' p3]| |] eqn:E2; try discriminate end.
  cbn [bind] in H. injection H as <- <- <-.
  pose proof (eat_constants _ _ _ E1) as Hk. pose proof (eat_shape _ _ _ E1) as Hs.
  apply eat_ok in E1 as [Hty _].
  split; [reflexivity|]. split; [exact Hty|].
  destruct (Parser.is_type p2 CONST_EXPR_START).
  - split; [rewrite <- Hk; eapply parse_const_expression_constants, E2|].
    intros _.
    apply (parse_const_expression_inv (fun q => token_shape (Parser.current_token q))) in E2;
      [exact E2| |exact Hs].
    intros ty q q1 Hq _. eapply eat_shape, Hq.
  - split; [rewrite <- Hk; eapply parse_value_constants, E2|].
    intros _.
    apply (parse_value_inv (fun q => token_shape (Parser.current_token q))) in E2;
      [exact E2| |exact Hs].
    intros ty q q1 Hq _. eapply eat_shape, Hq.
Qed.

Lemma parse_define_ok fuel p p' :
  Parser.parse_define fuel p = Ok p' ->
  exists p1 p2 v p3,
    Parser.eat DEFINE p = Ok p1
    /\ Parser.cur_type p1 = NAME
    /\ Parser.eat NAME p1 = Ok p2
    /\ Parser.parse_value fuel p2 = Ok (v, p3)
    /\ p' = Parser.mk (Parser.lexer p3) (Parser.current_token p3)
                      (<[Token.value (Parser.current_token p1) := v]> (Parser.constants p)).
Proof.
  unfold Parser.parse_define. intros H.
  destruct (Parser.eat DEFINE p) as [p1| |] eqn:E1; try discriminate. cbn [bind] in H.
  destruct (negb _) eqn:En; [discriminate|]. apply negb_false_iff, is_type_true in En.
  destruct (Parser.eat NAME p1) as [p2| |] eqn:E2; try discriminate. cbn [bind] in H.
  destruct (Parser.parse_value fuel p2) as [[v p3]| |] eqn:E3; try discriminate.
  cbn [bind] in H. injection H as <-.
  exists p1, p2, v, p3. repeat split; try assumption.
  rewrite (parse_value_constants _ _ _ _ E3), (eat_constants _ _ _ E2),
    (eat_constants _ _ _ E1). reflexivity.
Qed.

Lemma parse_define_shape fuel p p' :
  Parser.parse_define fuel p = Ok p' -> token_shape (Parser.current_token p').
Proof.
  intros (p1 & p2 & v & p3 & _ & _ & E2 & E3 & ->)%parse_define_ok. simpl.
  apply (parse_value_inv (fun q => token_shape (Parser.current_token q))) in E3;
    [exact E3| |eapply eat_shape, E2].
  intros ty q q1 Hq _. eapply eat_shape, Hq.
Qed.

(** ** The keys of the Config *)

Lemma keys_dict_set key v config :
  keys (dict_set key v config)
  = if bool_decide (key ∈ keys config) then keys config else keys config ++ [key].
Proof.
  unfold keys. induction config as [|[k v'] config IH]; [reflexivity|]. simpl.
  destruct (String.eqb_spec k key) as [->|Hne]; simpl.
  - rewrite bool_decide_eq_true_2 by left. reflexivity.
  - rewrite IH.
    destruct (decide (key ∈ map fst config)) as [Hin|Hin].
    + rewrite !bool_decide_eq_true_2; [reflexivity|by right|exact Hin].
    + rewrite !bool_decide_eq_false_2; [reflexivity| |exact Hin].
      intros [?|?]%elem_of_cons; [congruence|contradiction].
Qed.

Lemma keys_dict_set_NoDup key v config :
  NoDup (keys config) -> NoDup (keys (dict_set key v config)).
Proof.
  intros H. rewrite keys_dict_set. case_bool_decide as Hin; [exact H|].
  apply NoDup_app. split; [exact H|]. split; [|apply NoDup_singleton].
  intros x Hx Hx'. apply elem_of_cons in Hx' as [->|Hx']; [contradiction|].
  by apply elem_of_nil in Hx'.
Qed.

Lemma keys_dict_set_Forall (P : string -> Prop) key v config :
  P key -> Forall P (keys config) -> Forall P (keys (dict_set key v config)).
Proof.
  intros Hk H. rewrite keys_dict_set. case_bool_decide; [exact H|].
  apply Forall_app. split; [exact H|]. by constructor.
Qed.

Lemma parse_config_loop_keys fuel p config config' :
  Parser.parse_config_loop fuel p config = Ok config' ->
  token_shape (Parser.current_token p) ->
  NoDup (keys config) -> Forall is_name (keys config) ->
  NoDup (keys config') /\ Forall is_name (keys config').
Proof.
  revert p config. induction fuel as [|fuel IH]; intros p config H Hs Hnd Hall; [discriminate|].
  simpl in H. destruct (Parser.is_type p EOF); [by injection H as <-|].
  destruct (Parser.is_type p DEFINE).
  { destruct (Parser.parse_define fuel p) as [p1| |] eqn:E; try discriminate.
    cbn [bind] in H. eapply IH; eauto using parse_define_shape. }
  destruct (Parser.is_type p NAME) eqn:En; [|discriminate].
  destruct (Parser.parse_pair fuel p) as [[[key v] p1]| |] eqn:E; try discriminate.
  cbn [bind] in H. apply parse_pair_ok in E as (-> & Hty & _ & Hs1).
  eapply IH; [exact H|by apply Hs1|by apply keys_dict_set_NoDup|].
  apply keys_dict_set_Forall; [|exact Hall].
  unfold token_shape in Hs. unfold Parser.cur_type in Hty. rewrite Hty in Hs. exact Hs.
Qed.

(** ** The failures of the lexer *)

Lemma lexical_error_skip l part l' e :
  reads l part l' -> lexical_error_at l' e -> lexical_error_at l e.
Proof.
  intros Hr (consumed & l2 & m & Hr' & ->). exists (part +:+ consumed), l2, m.
  split; [eapply reads_trans; eassumption|reflexivity].
Qed.

Lemma ends_with_zero_skip l part l' :
  reads l part l' -> ends_with_zero l' -> ends_with_zero l.
Proof.
  intros [Hr _] [consumed Hz]. exists (part +:+ consumed).
  rewrite Hr, Hz. symmetry. apply append_assoc.
Qed.

Lemma skip_multi_comment_loop_raise s ln cl e :
  Lexer.skip_multi_comment_loop s ln cl = Raise e ->
  lexical_error_at (Lexer.mk s ln cl) e.
Proof.
  revert ln cl. induction s as [|c s IH]; intros ln cl; simpl.
  - intros [= <-]. exists EmptyString, (Lexer.mk EmptyString ln cl), "Unclosed multi-line comment".
    split; [apply reads_refl|reflexivity].
  - destruct (ascii_eqb c "#" && opt_is _ _); [discriminate|].
    intros H. apply IH in H. rewrite <- advance_mk in H.
    eapply lexical_error_skip; [apply (reads_advance _ c); reflexivity|exact H].
Qed.

Lemma read_string_loop_raise s ln cl acc e :
  Lexer.read_string_loop s ln cl acc = Raise e ->
  lexical_error_at (Lexer.mk s ln cl) e.
Proof.
  remember (String.length s) as n eqn:Hn.
  assert (Hle : (String.length s <= n)%nat) by lia. clear Hn.
  revert s Hle ln cl acc. induction n as [|n IH]; intros s Hle ln cl acc.
  { destruct s; simpl in *; [|lia]. intros [= <-].
    exists EmptyString, (Lexer.mk EmptyString ln cl), "Unclosed string".
    split; [apply reads_refl|reflexivity]. }
  destruct s as [|c s']; simpl.
  { intros [= <-]. exists EmptyString, (Lexer.mk EmptyString ln cl), "Unclosed string".
    split; [apply reads_refl|reflexivity]. }
  simpl in Hle. destruct (ascii_eqb c "034") eqn:Ec.
  - apply Ascii.eqb_eq in Ec as ->.
    destruct s' as [|c' s'']; [discriminate|].
    destruct (ascii_eqb c' "034") eqn:Ec'; [|discriminate].
    apply Ascii.eqb_eq in Ec' as ->. intros H.
    apply IH in H; [|simpl in Hle; lia].
    eapply lexical_error_skip; [|exact H].
    exact (reads_advance2 (Lexer.mk (String "034" (String "034" s'')) ln cl)
             "034"%char "034"%char eq_refl eq_refl).
  - intros H. apply IH in H; [|lia]. rewrite <- advance_mk in H.
    eapply lexical_error_skip; [apply (reads_advance _ c); reflexivity|exact H].
Qed.

Lemma get_next_token_loop_raise fuel l e :
  Lexer.get_next_token_loop fuel l = Raise e ->
  lexical_error_at l e \/ (e = TypeError /\ ends_with_zero l).
Proof.
  assert (Hskip : forall l part l' e,
    reads l part l' ->
    lexical_error_at l' e \/ (e = TypeError /\ ends_with_zero l') ->
    lexical_error_at l e \/ (e = TypeError /\ ends_with_zero l)).
  { intros l0 part l' e0 Hr [H|[-> H]];
      [left; eapply lexical_error_skip|right; split; [done|eapply ends_with_zero_skip]];
      eassumption. }
  revert l. induction fuel as [|fuel IH]; intros l; [discriminate|]. simpl.
  destruct (Lexer.current_char l) as [c|] eqn:Hc; [|discriminate].
  destruct (isspace c) eqn:Hsp.
  { intros H. apply IH in H. unfold Lexer.skip_whitespace in H.
    destruct (run_while_reads isspace l) as (consumed & _ & Hr & _). eauto. }
  destruct (ascii_eqb c "%") eqn:Hpc.
  { intros H. apply IH in H.
    destruct (skip_single_comment_reads (Lexer.advance l)) as [consumed Hr].
    eapply Hskip; [|exact H].
    eapply reads_trans; [apply reads_advance, Hc|exact Hr]. }
  destruct (ascii_eqb c "<" && opt_is (Lexer.peek l 1) "#") eqn:Hmc.
  { apply andb_true_iff in Hmc as [_ Hp]. apply opt_is_true in Hp.
    destruct (Lexer.skip_multi_comment l) as [l2|e'|] eqn:Hm; simpl; try discriminate.
    - intros H. apply IH in H.
      destruct (skip_multi_comment_reads _ _ _ _ Hc Hp Hm) as [consumed Hr]. eauto.
    - intros [= <-]. left. unfold Lexer.skip_multi_comment in Hm.
      pose proof (reads_advance2 l _ _ Hc Hp) as H2.
      destruct (Lexer.advance (Lexer.advance l)) as [s ln cl]. simpl in Hm.
      eapply lexical_error_skip; [exact H2|]. eapply skip_multi_comment_loop_raise, Hm. }
  destruct (ascii_eqb c "." && opt_is (Lexer.peek l 1) "{"); [discriminate|].
  destruct (ascii_eqb c "}" && opt_is (Lexer.peek l 1) "."); [discriminate|].
  destruct (ascii_eqb c "@" && opt_is (Lexer.peek l 1) "034") eqn:H3.
  { apply andb_true_iff in H3 as [->%Ascii.eqb_eq Hp]. apply opt_is_true in Hp.
    destruct (Lexer.read_string l) as [[v l2]|e'|] eqn:Hr; simpl; try discriminate.
    intros [= <-]. left. unfold Lexer.read_string in Hr.
    pose proof (reads_advance2 l _ _ Hc Hp) as H2.
    destruct (Lexer.advance (Lexer.advance l)) as [s ln cl]. simpl in Hr.
    eapply lexical_error_skip; [exact H2|]. eapply read_string_loop_raise, Hr. }
  destruct (ascii_eqb c "(") eqn:H4.
  { destruct (run_while_reads Lexer.name_char (Lexer.advance l)) as (consumed & Hf & Hr & _).
    fold (Lexer.read_name (Lexer.advance l)) in Hf, Hr.
    destruct (Lexer.read_name (Lexer.advance l)) as [name l2]. simpl in Hf, Hr.
    destruct (String.eqb name "define"); [discriminate|].
    intros [= <-]. left. eexists _, l2, _. split; [|reflexivity].
    exact (reads_trans _ _ _ _ _ (reads_advance _ _ Hc) Hr). }
  destruct (ascii_eqb c "["); [discriminate|].
  destruct (ascii_eqb c "]"); [discriminate|].
  destruct (ascii_eqb c ","); [discriminate|].
  destruct (isdigit c) eqn:Hd.
  { destruct (Lexer.read_number l) as [[v l2]|e'|] eqn:Hr; simpl.
    - destruct (Lexer.starts_with_0x v); discriminate.
    - intros [= <-]. right. unfold Lexer.read_number in Hr. cbv zeta in Hr.
      destruct (opt_is (Lexer.current_char l) "0") eqn:E0; [|discriminate Hr].
      apply opt_is_true in E0.
      destruct (Lexer.peek l 1) as [x|] eqn:Hp.
      { destruct (ascii_eqb x "x" || ascii_eqb x "X"); discriminate Hr. }
      split; [by injection Hr as <-|]. exists EmptyString.
      unfold Lexer.current_char, Lexer.peek in *.
      destruct (Lexer.rest l) as [|c0 [|c1 s]]; simpl in *; simplify_eq. reflexivity.
    - discriminate. }
  destruct (isalpha c && islower c).
  { destruct (Lexer.read_name l) as [name l2].
    destruct (String.eqb name "abs"); [|destruct (Lexer.is_operator_name name)]; discriminate. }
  destruct (Lexer.is_operator_char c); [discriminate|].
  intros [= <-]. left. eexists EmptyString, l, _. split; [apply reads_refl|reflexivity].
Qed.

Lemma get_next_token_stray l c :
  Lexer.current_char l = Some c -> stray_char c = true ->
  Lexer.get_next_token l = Lexer.error l ("Unexpected character: " +:+ str_of_char c).
Proof.
  intros Hc Hs. unfold Lexer.get_next_token. cbn [Lexer.get_next_token_loop]. rewrite Hc.
  destruct c as [[] [] [] [] [] [] [] []]; vm_compute in Hs; try discriminate Hs; reflexivity.
Qed.

(** ** Texts without tokens *)

Lemma get_next_token_end ln cl :
  Lexer.get_next_token (Lexer.mk EmptyString ln cl)
  = Ok (Token.mk EOF EmptyString ln cl, Lexer.mk EmptyString ln cl).
Proof. reflexivity. Qed.

Lemma get_next_token_last_line body ln cl :
  string_forall not_newline body = true ->
  Lexer.get_next_token (Lexer.mk ("%" +:+ body) ln cl)
  = Lexer.get_next_token (lexer_after body EmptyString ln (cl + 1)).
Proof.
  intros Hb. change ("%" +:+ body) with (String "%" body).
  rewrite get_next_token_line_comment by reflexivity.
  unfold Lexer.skip_single_comment, Lexer.run_while.
  change (Lexer.advance (Lexer.mk (String "%" body) ln cl)) with (Lexer.mk body ln (cl + 1)).
  cbn [Lexer.rest Lexer.line Lexer.col].
  pose proof (scan_while_all not_newline body EmptyString ln (cl + 1) EmptyString Hb I) as E.
  rewrite append_empty_r in E. unfold not_newline in E at 1. rewrite E. reflexivity.
Qed.

Lemma blank_eof text :
  blank text ->
  forall ln cl, exists ln' cl',
    Lexer.get_next_token (Lexer.mk text ln cl)
    = Ok (Token.mk EOF EmptyString ln' cl', Lexer.mk EmptyString ln' cl').
Proof.
  induction 1 as [|c s Hc _ IH|body s Hb _ IH|body Hb|body s Hb _ IH]; intros ln cl.
  - exists ln, cl. apply get_next_token_end.
  - rewrite get_next_token_space_char, advance_mk by exact Hc. apply IH.
  - rewrite get_next_token_closed_line by exact Hb. apply IH.
  - rewrite get_next_token_last_line by exact Hb. unfold lexer_after.
    eexists _, _. apply get_next_token_end.
  - rewrite get_next_token_closed_comment by exact Hb. apply IH.
Qed.

(** ** The stack of a constant expression *)

Lemma pop_ok stack x r : pop stack = Ok (x, r) -> stack = r ++ [x].
Proof.
  unfold pop. destruct (rev stack) as [|y l] eqn:E; [discriminate|].
  intros [= <- <-]. rewrite <- (rev_involutive stack), E. reflexivity.
Qed.

Lemma take_two (s : list Value) a b : take (length (s ++ [a; b]) - 2) (s ++ [a; b]) = s.
Proof.
  rewrite length_app. simpl. replace (length s + 2 - 2)%nat with (length s) by lia.
  by rewrite take_app_length.
Qed.

Lemma take_one (s : list Value) a : take (length (s ++ [a]) - 1) (s ++ [a]) = s.
Proof.
  rewrite length_app. simpl. replace (length s + 1 - 1)%nat with (length s) by lia.
  by rewrite take_app_length.
Qed.

Lemma expr_operator_stack p op stack stack1 :
  Parser.expr_operator p op stack = Ok stack1 ->
  exists s a b r, stack = s ++ [a; b] /\ stack1 = s ++ [r].
Proof.
  unfold Parser.expr_operator. intros H.
  destruct (length stack <? 2)%nat; [discriminate|].
  destruct (pop stack) as [[b s1]| |] eqn:E1; try discriminate. cbn [bind] in H.
  destruct (pop s1) as [[a s2]| |] eqn:E2; try discriminate. cbn [bind] in H.
  apply pop_ok in E1 as ->. apply pop_ok in E2 as ->.
  assert (forall r', stack1 = s2 ++ [r'] ->
            exists s a0 b0 r, (s2 ++ [a]) ++ [b] = s ++ [a0; b0] /\ stack1 = s ++ [r]) as Hdone.
  { intros r' ->. exists s2, a, b, r'. by rewrite <- app_assoc. }
  ok_inv H; injection H as <-; eauto.
Qed.

Lemma body_operator_stack p op stack stack1 :
  Parser.body_operator p op stack = Ok stack1 ->
  exists s a b r, stack = s ++ [a; b] /\ stack1 = s ++ [r].
Proof.
  unfold Parser.body_operator. intros H.
  destruct (length stack <? 2)%nat; [discriminate|].
  destruct (pop stack) as [[b s1]| |] eqn:E1; try discriminate. cbn [bind] in H.
  destruct (pop s1) as [[a s2]| |] eqn:E2; try discriminate. cbn [bind] in H.
  apply pop_ok in E1 as ->. apply pop_ok in E2 as ->.
  assert (forall r', stack1 = s2 ++ [r'] ->
            exists s a0 b0 r, (s2 ++ [a]) ++ [b] = s ++ [a0; b0] /\ stack1 = s ++ [r]) as Hdone.
  { intros r' ->. exists s2, a, b, r'. by rewrite <- app_assoc. }
  ok_inv H; injection H as <-; eauto.
Qed.

Lemma expr_function_stack p func stack stack1 :
  Parser.expr_function p func stack = Ok stack1 ->
  exists s a r, stack = s ++ [a] /\ stack1 = s ++ [r].
Proof.
  unfold Parser.expr_function. intros H.
  destruct (String.eqb func "abs"); [|discriminate].
  destruct (length stack <? 1)%nat; [discriminate|].
  destruct (pop stack) as [[a s1]| |] eqn:E1; try discriminate. cbn [bind] in H.
  apply pop_ok in E1 as ->. ok_inv H. injection H as <-. eauto.
Qed.

Lemma body_function_stack p func stack stack1 :
  Parser.body_function p func stack = Ok stack1 ->
  exists s a r, stack = s ++ [a] /\ stack1 = s ++ [r].
Proof.
  unfold Parser.body_function. intros H.
  destruct (String.eqb func "abs"); [|discriminate].
  destruct (length stack <? 1)%nat; [discriminate|].
  destruct (pop stack) as [[a s1]| |] eqn:E1; try discriminate. cbn [bind] in H.
  apply pop_ok in E1 as ->. ok_inv H. injection H as <-. eauto.
Qed.

Lemma step_stack_push (stack : list Value) v :
  (0 <= length stack)%nat
  /\ exists r, stack ++ [v] = take (length stack - 0) stack ++ [r].
Proof.
  split; [lia|]. exists v. by rewrite Nat.sub_0_r, firstn_all.
Qed.

Lemma step_stack_two (s : list Value) a b r :
  (2 <= length (s ++ [a; b]))%nat
  /\ exists r', s ++ [r] = take (length (s ++ [a; b]) - 2) (s ++ [a; b]) ++ [r'].
Proof.
  split; [rewrite length_app; simpl; lia|]. exists r. by rewrite take_two.
Qed.

Lemma step_stack_one (s : list Value) a r :
  (1 <= length (s ++ [a]))%nat
  /\ exists r', s ++ [r] = take (length (s ++ [a]) - 1) (s ++ [a]) ++ [r'].
Proof.
  split; [rewrite length_app; simpl; lia|]. exists r. by rewrite take_one.
Qed.

Lemma expr_step_stack p stack stack1 p1 :
  Parser.expr_step p stack = Ok (stack1, p1) ->
  (arity (Parser.cur_type p) <= length stack)%nat
  /\ exists r, stack1 = take (length stack - arity (Parser.cur_type p)) stack ++ [r].
Proof.
  unfold Parser.expr_step, Parser.cur_type. intros H.
  destruct (Token.type (Parser.current_token p)); try discriminate; cbn [arity].
  - ok_inv H. injection H as <- <-. apply step_stack_push.
  - ok_inv H. injection H as <- <-. apply step_stack_push.
  - ok_inv H; injection H as <- <-; apply step_stack_push.
  - ok_inv H. injection H as <- <-.
    match goal with E : Parser.expr_operator _ _ _ = Ok _ |- _ =>
      apply expr_operator_stack in E as (s & x & y & r & -> & ->) end.
    apply step_stack_two.
  - ok_inv H. injection H as <- <-.
    match goal with E : Parser.expr_function _ _ _ = Ok _ |- _ =>
      apply expr_function_stack in E as (s & x & r & -> & ->) end.
    apply step_stack_one.
Qed.

Lemma body_step_stack p stack stack1 p1 :
  Parser.body_step p stack = Ok (stack1, p1) ->
  (arity (Parser.cur_type p) <= length stack)%nat
  /\ exists r, stack1 = take (length stack - arity (Parser.cur_type p)) stack ++ [r].
Proof.
  unfold Parser.body_step, Parser.cur_type. intros H.
  destruct (Token.type (Parser.current_token p)); try discriminate; cbn [arity].
  - ok_inv H. injection H as <- <-. apply step_stack_push.
  - ok_inv H. injection H as <- <-. apply step_stack_push.
  - ok_inv H; injection H as <- <-; apply step_stack_push.
  - ok_inv H. injection H as <- <-.
    match goal with E : Parser.body_operator _ _ _ = Ok _ |- _ =>
      apply body_operator_stack in E as (s & x & y & r & -> & ->) end.
    apply step_stack_two.
  - ok_inv H. injection H as <- <-.
    match goal with E : Parser.body_function _ _ _ = Ok _ |- _ =>
      apply body_function_stack in E as (s & x & r & -> & ->) end.
    apply step_stack_one.
Qed.

(** ** The conversion of number tokens *)

Lemma drop_spaces_id l :
  Forall (fun c => int_space c = false) l ->
  rev (drop_spaces (rev (drop_spaces l))) = l.
Proof.
  intros H.
  assert (Hd : forall l', Forall (fun c => int_space c = false) l' -> drop_spaces l' = l').
  { intros [|c l'] Hl; [reflexivity|]. simpl. by rewrite (Forall_inv Hl). }
  rewrite (Hd l H), Hd, rev_involutive; [reflexivity|].
  by apply List.Forall_rev.
Qed.

Lemma string_forall_Forall P s :
  string_forall P s = true ->
  Forall (fun c => P c = true) (String.list_ascii_of_string s).
Proof.
  induction s as [|c s IH]; simpl; [constructor|].
  intros [Hc Hs]%andb_true_iff. constructor; auto.
Qed.

Lemma isdigit_cases c :
  isdigit c = true ->
  int_space c = false /\ ascii_eqb c "-" = false /\ ascii_eqb c "+" = false
  /\ ascii_eqb c "_" = false
  /\ (if ascii_digit c then exists d, digit_value 10 c = Some d /\ 0 <= d
      else digit_value 10 c = None).
Proof.
  destruct c as [[] [] [] [] [] [] [] []]; vm_compute; intros H; try discriminate H;
    repeat split; try reflexivity; eexists; (split; [reflexivity|discriminate]).
Qed.

Lemma is_hex_char_cases c :
  is_hex_char c = true ->
  int_space c = false /\ ascii_eqb c "_" = false
  /\ exists d, digit_value 16 c = Some d /\ 0 <= d.
Proof.
  destruct c as [[] [] [] [] [] [] [] []]; vm_compute; intros H; try discriminate H;
    repeat split; eexists; (split; [reflexivity|discriminate]).
Qed.

Lemma int_digits_decimal s acc :
  string_forall isdigit s = true -> 0 <= acc ->
  if string_forall ascii_digit s
  then exists n, int_digits 10 (String.list_ascii_of_string s) acc false = Some n /\ 0 <= n
  else int_digits 10 (String.list_ascii_of_string s) acc false = None.
Proof.
  revert acc. induction s as [|c s IH]; intros acc Hs Hacc; simpl.
  - eauto.
  - simpl in Hs. apply andb_true_iff in Hs as [Hc Hs].
    destruct (isdigit_cases c Hc) as (_ & _ & _ & -> & Hd).
    destruct (ascii_digit c); simpl.
    + destruct Hd as (d & -> & Hd). apply IH; [exact Hs|lia].
    + by rewrite Hd.
Qed.

Lemma int_digits_hex s acc :
  string_forall is_hex_char s = true -> 0 <= acc ->
  exists n, int_digits 16 (String.list_ascii_of_string s) acc false = Some n /\ 0 <= n.
Proof.
  revert acc. induction s as [|c s IH]; intros acc Hs Hacc; simpl.
  - eauto.
  - simpl in Hs. apply andb_true_iff in Hs as [Hc Hs].
    destruct (is_hex_char_cases c Hc) as (_ & -> & d & -> & Hd).
    apply IH; [exact Hs|lia].
Qed.

Lemma py_int_number s :
  s <> EmptyString -> string_forall isdigit s = true ->
  if string_forall ascii_digit s
  then exists n, py_int 10 s = Some n /\ 0 <= n
  else py_int 10 s = None.
Proof.
  intros Hne Hs. unfold py_int.
  rewrite drop_spaces_id.
  2:{ eapply Forall_impl; [apply string_forall_Forall, Hs|].
      intros c Hc. by destruct (isdigit_cases c Hc) as [? _]. }
  pose proof (int_digits_decimal s 0 Hs (Z.le_refl 0)) as Hd.
  destruct s as [|c s]; [done|]. simpl in Hs. apply andb_true_iff in Hs as [Hc _].
  destruct (isdigit_cases c Hc) as (_ & Hm & Hp & Hu & _).
  cbn [String.list_ascii_of_string]. rewrite Hm, Hp.
  unfold int_unsigned.
  replace (match String.list_ascii_of_string s with
           | [] => c :: String.list_ascii_of_string s
           | x :: l' =>
               if (10 =? 16) && ascii_eqb c "0" && (ascii_eqb x "x" || ascii_eqb x "X")
               then match l' with
                    | [] => l'
                    | u :: l'' => if ascii_eqb u "_" then l'' else l'
                    end
               else c :: String.list_ascii_of_string s
           end) with (c :: String.list_ascii_of_string s)
    by (destruct (String.list_ascii_of_string s); reflexivity).
  rewrite Hu. exact Hd.
Qed.

Lemma py_int_hex x digits :
  x = "x"%char \/ x = "X"%char ->
  string_forall is_hex_char digits = true ->
  match digits with
  | EmptyString => py_int 16 (String "0" (String x digits)) = None
  | String _ _ => exists n, py_int 16 (String "0" (String x digits)) = Some n /\ 0 <= n
  end.
Proof.
  intros Hx Hs. unfold py_int.
  rewrite drop_spaces_id.
  2:{ cbn [String.list_ascii_of_string]. constructor; [reflexivity|].
      constructor; [by destruct Hx as [-> | ->]|].
      eapply Forall_impl; [apply string_forall_Forall, Hs|].
      intros c Hc. by destruct (is_hex_char_cases c Hc) as [? _]. }
  cbn [String.list_ascii_of_string].
  change (ascii_eqb "0" "-") with false. change (ascii_eqb "0" "+") with false. cbv iota.
  unfold int_unsigned.
  replace ((16 =? 16) && ascii_eqb "0" "0" && (ascii_eqb x "x" || ascii_eqb x "X")) with true
    by (destruct Hx as [-> | ->]; reflexivity).
  destruct digits as [|c digits]; [reflexivity|].
  pose proof (int_digits_hex (String c digits) 0 Hs (Z.le_refl 0)) as Hd.
  simpl in Hs. apply andb_true_iff in Hs as [Hc _].
  destruct (is_hex_char_cases c Hc) as (_ & Hu & _).
  cbn [String.list_ascii_of_string] in *. rewrite Hu. cbv iota. rewrite Hu. exact Hd.
Qed.

(** ** The two evaluators of constant expressions *)

Lemma pop_int stack x r :
  Forall (fun v => isinstance_int v = true) stack ->
  pop stack = Ok (x, r) ->
  (exists n, x = VInt n) /\ Forall (fun v => isinstance_int v = true) r.
Proof.
  intros Hall ->%pop_ok. apply Forall_app in Hall as [Hr Hx].
  split; [|exact Hr]. apply Forall_inv in Hx. destruct x; try discriminate. eauto.
Qed.

Lemma operator_agree p op stack :
  Forall (fun v => isinstance_int v = true) stack ->
  Parser.body_operator p op stack = Parser.expr_operator p op stack.
Proof.
  intros Hall. unfold Parser.body_operator, Parser.expr_operator.
  destruct (length stack <? 2)%nat; [reflexivity|].
  destruct (pop stack) as [[b s1]| |] eqn:E1; try reflexivity. cbn [bind].
  destruct (pop_int _ _ _ Hall E1) as [[nb ->] Hall1].
  destruct (pop s1) as [[a s2]| |] eqn:E2; try reflexivity. cbn [bind].
  destruct (pop_int _ _ _ Hall1 E2) as [[na ->] _]. reflexivity.
Qed.

Lemma function_agree p func stack :
  Forall (fun v => isinstance_int v = true) stack ->
  Parser.body_function p func stack = Parser.expr_function p func stack.
Proof.
  intros Hall. unfold Parser.body_function, Parser.expr_function.
  destruct (String.eqb func "abs"); [|reflexivity].
  destruct (length stack <? 1)%nat; [reflexivity|].
  destruct (pop stack) as [[a s1]| |] eqn:E1; try reflexivity. cbn [bind].
  destruct (pop_int _ _ _ Hall E1) as [[na ->] _]. reflexivity.
Qed.

(** ** The loop of an array *)


(** * Further properties: the lexer *)

(** X1. A token returned by [get_next_token] is a slice of the text: the
    lexer has read some skipped characters (white space and comments) and
    then exactly the characters the token stands for, the line and column
    of the token are those of the first of these characters, and the
    line and column of the lexer are those that follow the last.  The
    end-of-input token is returned only when nothing is left unread, and
    every other token stands for at least one character. *)
Theorem token_is_slice_of_text l tok l1 :
  Lexer.get_next_token l = Ok (tok, l1) ->
  token_at l tok l1
  /\ (Token.type tok = EOF -> Lexer.rest l1 = EmptyString)
  /\ (Token.type tok <> EOF -> lexeme_of tok <> EmptyString).
Proof. apply get_next_token_loop_reads. Qed.

Lemma token_is_slice_of_text_witness :
  token_at (Lexer.mk (" % c" +:+ newline +:+ "  port 80") 1 1)
           (Token.mk NAME "port" 2 3) (Lexer.mk " 80" 2 7)
  /\ (NAME = EOF -> Lexer.rest (Lexer.mk " 80" 2 7) = EmptyString)
  /\ (NAME <> EOF -> lexeme_of (Token.mk NAME "port" 2 3) <> EmptyString).
Proof.
  apply (token_is_slice_of_text (Lexer.mk (" % c" +:+ newline +:+ "  port 80") 1 1)
           (Token.mk NAME "port" 2 3) (Lexer.mk " 80" 2 7)).
  vm_compute. reflexivity.
Defined.

(** X2. The value of a token returned by [get_next_token] has the shape
    of its type: no token has one of the three comment types; a number is
    a non-empty run of digits; a hexadecimal number is [0x] or [0X]
    followed by hexadecimal digits (possibly none); a name begins with a
    lower-case letter, continues with letters, digits and underscores and
    is not [abs]; an operator is one of [+ - * /]; the only function is
    [abs]; the other types have their fixed text. *)
Theorem lexer_token_shape l tok l1 :
  Lexer.get_next_token l = Ok (tok, l1) -> token_shape tok.
Proof. apply get_next_token_loop_shape. Qed.

Lemma lexer_token_shape_witness :
  token_shape (Token.mk HEX_NUMBER "0X1f" 1 2).
Proof.
  apply (lexer_token_shape (Lexer.mk " 0X1f, 2" 1 1) (Token.mk HEX_NUMBER "0X1f" 1 2)
           (Lexer.mk ", 2" 1 6)).
  vm_compute. reflexivity.
Defined.

(** X3. Once [get_next_token] has returned the end-of-input token, every
    further call returns the same token and leaves the lexer as it is. *)
Theorem end_of_input_repeats l tok l1 :
  Lexer.get_next_token l = Ok (tok, l1) -> Token.type tok = EOF ->
  Lexer.get_next_token l1 = Ok (tok, l1).
Proof.
  intros H Hty. destruct (get_next_token_eof _ _ _ H Hty) as [Hr ->].
  destruct l1 as [s ln cl]. simpl in Hr. subst s. reflexivity.
Qed.

Lemma end_of_input_repeats_witness :
  Lexer.get_next_token (Lexer.mk EmptyString 3 8)
  = Ok (Token.mk EOF EmptyString 3 8, Lexer.mk EmptyString 3 8).
Proof.
  apply (end_of_input_repeats (Lexer.mk "  % end" 3 1)).
  - vm_compute. reflexivity.
  - reflexivity.
Defined.

(** X4. A string literal is read back as the string it denotes: for every
    string [body], the literal made of [@], a double quote, [body] with
    each of its double quotes doubled, and a closing double quote, when
    followed by a text that does not begin with a double quote, is lexed as
    one string token with the value [body], at the position where the
    literal begins, and the lexer stands right after the literal. *)
Theorem string_literal_round_trip body r ln cl :
  no_quote_first r ->
  Lexer.get_next_token (Lexer.mk (literal (escape_quotes body) +:+ r) ln cl)
  = Ok (Token.mk STRING body ln cl,
        lexer_after (literal (escape_quotes body)) r ln cl).
Proof. apply get_next_token_literal. Qed.

Lemma string_literal_round_trip_witness :
  Lexer.get_next_token
    (Lexer.mk (literal (escape_quotes ("say " +:+ dquote +:+ "hi" +:+ dquote)) +:+ " x") 1 1)
  = Ok (Token.mk STRING ("say " +:+ dquote +:+ "hi" +:+ dquote) 1 1,
        lexer_after (literal (escape_quotes ("say " +:+ dquote +:+ "hi" +:+ dquote))) " x" 1 1).
Proof.
  apply (string_literal_round_trip ("say " +:+ dquote +:+ "hi" +:+ dquote) " x" 1 1).
  simpl. discriminate.
Defined.

(** X5. A closed multi-line comment is skipped: when the text between
    [<#] and [#>] contains no [#>], the token returned is the one found
    after the comment, from the line and column that follow it. *)
Theorem block_comment_is_skipped body r ln cl :
  no_comment_end body = true ->
  Lexer.get_next_token (Lexer.mk ("<#" +:+ body +:+ "#>" +:+ r) ln cl)
  = Lexer.get_next_token (lexer_after ("<#" +:+ body +:+ "#>") r ln cl).
Proof. apply get_next_token_closed_comment. Qed.

Lemma block_comment_is_skipped_witness :
  Lexer.get_next_token
    (Lexer.mk ("<#" +:+ (" a # >" +:+ newline +:+ " b ") +:+ "#>" +:+ " port") 1 1)
  = Lexer.get_next_token
      (lexer_after ("<#" +:+ (" a # >" +:+ newline +:+ " b ") +:+ "#>") " port" 1 1).
Proof.
  apply (block_comment_is_skipped (" a # >" +:+ newline +:+ " b ") " port" 1 1).
  vm_compute. reflexivity.
Defined.

(** X6. A single-line comment is skipped up to and including the end of
    its line: the token returned is the one found from column 1 of the
    next line; and a single-line comment that ends the text, with no
    newline after it, is followed by the end of input. *)
Theorem line_comment_is_skipped body r ln cl :
  string_forall not_newline body = true ->
  Lexer.get_next_token (Lexer.mk ("%" +:+ body +:+ newline +:+ r) ln cl)
  = Lexer.get_next_token (Lexer.mk r (ln + 1) 1)
  /\ Lexer.get_next_token (Lexer.mk ("%" +:+ body) ln cl)
     = Ok (Token.mk EOF EmptyString ln (cl + 1 + String.length body),
           Lexer.mk EmptyString ln (cl + 1 + String.length body)).
Proof.
  intros Hb. split; [by apply get_next_token_closed_line|].
  rewrite get_next_token_last_line by exact Hb.
  unfold lexer_after. rewrite pos_after_line by exact Hb. apply get_next_token_end.
Qed.

Lemma line_comment_is_skipped_witness :
  Lexer.get_next_token (Lexer.mk ("%" +:+ " 10 MB <#" +:+ newline +:+ "port 80") 4 9)
  = Lexer.get_next_token (Lexer.mk "port 80" (4 + 1) 1)
  /\ Lexer.get_next_token (Lexer.mk ("%" +:+ " 10 MB <#") 4 9)
     = Ok (Token.mk EOF EmptyString 4 (9 + 1 + String.length " 10 MB <#"),
           Lexer.mk EmptyString 4 (9 + 1 + String.length " 10 MB <#")).
Proof.
  apply (line_comment_is_skipped " 10 MB <#" "port 80" 4 9).
  vm_compute. reflexivity.
Defined.

(** X7. Leading white space is skipped, whatever follows it: the token
    returned is the one found after the white space, from the line and
    column that [advance] gives over it. *)
Theorem white_space_is_skipped body r ln cl :
  string_forall isspace body = true ->
  Lexer.get_next_token (Lexer.mk (body +:+ r) ln cl)
  = Lexer.get_next_token (lexer_after body r ln cl).
Proof. apply get_next_token_spaces. Qed.

Lemma white_space_is_skipped_witness :
  Lexer.get_next_token (Lexer.mk ((" " +:+ newline +:+ "  ") +:+ " [1]") 1 1)
  = Lexer.get_next_token (lexer_after (" " +:+ newline +:+ "  ") " [1]" 1 1).
Proof.
  apply (white_space_is_skipped (" " +:+ newline +:+ "  ") " [1]" 1 1).
  vm_compute. reflexivity.
Defined.

(** X8. [get_next_token] always ends, and it fails in two ways only: with
    a lexical error whose line and column are those of the lexer after
    some prefix of the unread text, or with [TypeError], which happens only
    when the unread text ends with the digit [0]. *)
Theorem lexer_failure_kinds l :
  Lexer.get_next_token l <> OutOfFuel
  /\ forall e, Lexer.get_next_token l = Raise e ->
       lexical_error_at l e \/ (e = TypeError /\ ends_with_zero l).
Proof.
  split.
  - pose proof (get_next_token_post l) as H. intros E. rewrite E in H. exact H.
  - intros e. apply get_next_token_loop_raise.
Qed.

Lemma lexer_failure_kinds_witness :
  lexical_error_at (Lexer.mk "  <# b" 1 1)
    (SyntaxError "Lexer error at 1:7: Unclosed multi-line comment")
  \/ (SyntaxError "Lexer error at 1:7: Unclosed multi-line comment" = TypeError
      /\ ends_with_zero (Lexer.mk "  <# b" 1 1)).
Proof.
  apply (proj2 (lexer_failure_kinds (Lexer.mk "  <# b" 1 1))).
  vm_compute. reflexivity.
Defined.

(** X9. A token cannot begin with a letter that is not lower-case, an
    underscore, an opening brace or a closing parenthesis: at such a
    character [get_next_token] raises the lexical error "Unexpected
    character" with the line and column of that character. *)
Theorem stray_character_rejected l c :
  Lexer.current_char l = Some c -> stray_char c = true ->
  Lexer.get_next_token l = Lexer.error l ("Unexpected character: " +:+ str_of_char c).
Proof. apply get_next_token_stray. Qed.

Lemma stray_character_rejected_witness :
  Lexer.get_next_token (Lexer.mk "Port 80" 2 5)
  = Lexer.error (Lexer.mk "Port 80" 2 5) ("Unexpected character: " +:+ str_of_char "P").
Proof.
  apply (stray_character_rejected (Lexer.mk "Port 80" 2 5) "P"); reflexivity.
Defined.

(** * Further properties: the parser *)

(** X10. A [define] that succeeds binds exactly one constant: the name is
    the token after [(define], the value bound is the one [parse_value]
    returned for the tokens after the name, an earlier binding of that
    name is replaced, and every other constant is as before. *)
Theorem define_binds_one_constant fuel p p' :
  Parser.parse_define fuel p = Ok p' ->
  exists p1 p2 v p3,
    Parser.eat DEFINE p = Ok p1
    /\ Parser.cur_type p1 = NAME
    /\ Parser.eat NAME p1 = Ok p2
    /\ Parser.parse_value fuel p2 = Ok (v, p3)
    /\ Parser.constants p' !! Token.value (Parser.current_token p1) = Some v
    /\ forall other, other <> Token.value (Parser.current_token p1) ->
         Parser.constants p' !! other = Parser.constants p !! other.
Proof.
  intros (p1 & p2 & v & p3 & E1 & Hty & E2 & E3 & ->)%parse_define_ok.
  exists p1, p2, v, p3. repeat split; try assumption; simpl.
  - apply lookup_insert_eq.
  - intros other Hne. by apply lookup_insert_ne.
Qed.

Lemma define_binds_one_constant_witness :
  exists p1 p2 v p3,
    Parser.eat DEFINE (Parser.mk (Lexer.mk " x 5" 1 8) (Token.mk DEFINE "define" 1 1)
                                 (<["x" := VInt 1]> ∅)) = Ok p1
    /\ Parser.cur_type p1 = NAME
    /\ Parser.eat NAME p1 = Ok p2
    /\ Parser.parse_value 1 p2 = Ok (v, p3)
    /\ Parser.constants
         (Parser.mk (Lexer.mk EmptyString 1 12) (Token.mk EOF EmptyString 1 12)
                    (<["x" := VInt 5]> (<["x" := VInt 1]> ∅)))
       !! Token.value (Parser.current_token p1) = Some v
    /\ forall other, other <> Token.value (Parser.current_token p1) ->
         Parser.constants
           (Parser.mk (Lexer.mk EmptyString 1 12) (Token.mk EOF EmptyString 1 12)
                      (<["x" := VInt 5]> (<["x" := VInt 1]> ∅)))
         !! other
         = Parser.constants
             (Parser.mk (Lexer.mk " x 5" 1 8) (Token.mk DEFINE "define" 1 1)
                        (<["x" := VInt 1]> ∅))
           !! other.
Proof.
  apply (define_binds_one_constant 1
           (Parser.mk (Lexer.mk " x 5" 1 8) (Token.mk DEFINE "define" 1 1)
                      (<["x" := VInt 1]> ∅))).
  vm_compute. reflexivity.
Defined.

(** X11. Reading a value changes no constant: after [parse_value], and
    after [parse_const_expression] with or without a seed, the Symbol
    Table is the one before the call. *)
Theorem values_keep_constants fuel first_arg p v p1 :
  Parser.parse_value fuel p = Ok (v, p1)
  \/ Parser.parse_const_expression fuel first_arg p = Ok (v, p1) ->
  Parser.constants p1 = Parser.constants p.
Proof.
  intros [H|H];
    [eapply parse_value_constants|eapply parse_const_expression_constants]; exact H.
Qed.

Lemma values_keep_constants_witness :
  Parser.constants
    (Parser.mk (Lexer.mk EmptyString 1 7) (Token.mk EOF EmptyString 1 7) (<["y" := VInt 2]> ∅))
  = Parser.constants
      (Parser.mk (Lexer.mk "1, y]" 1 2) (Token.mk ARRAY_START "[" 1 1) (<["y" := VInt 2]> ∅)).
Proof.
  refine (values_keep_constants 3 None
            (Parser.mk (Lexer.mk "1, y]" 1 2) (Token.mk ARRAY_START "[" 1 1)
                       (<["y" := VInt 2]> ∅))
            (VList [VInt 1; VInt 2])
            (Parser.mk (Lexer.mk EmptyString 1 7) (Token.mk EOF EmptyString 1 7)
                       (<["y" := VInt 2]> ∅))
            (or_introl _)).
  vm_compute. reflexivity.
Defined.

(** X12. The keys of a translated Config are pairwise distinct, and each
    of them is a name of the language: it begins with a lower-case
    letter, continues with letters, digits and underscores, and is not
    [abs]. *)
Theorem config_keys_are_distinct_names text config :
  parse_text text = Ok config ->
  NoDup (keys config) /\ Forall is_name (keys config).
Proof.
  unfold parse_text, Parser.init. intros H.
  destruct (Lexer.get_next_token (Lexer.init text)) as [[tok l1]| |] eqn:E; try discriminate.
  cbn [bind] in H. eapply parse_config_loop_keys; [exact H| | |].
  - exact (get_next_token_loop_shape _ _ _ _ E).
  - constructor.
  - constructor.
Qed.

Lemma config_keys_are_distinct_names_witness :
  NoDup (keys [("a", VInt 3); ("b_2", VInt 2)])
  /\ Forall is_name (keys [("a", VInt 3); ("b_2", VInt 2)]).
Proof.
  apply (config_keys_are_distinct_names "a 1 b_2 2 a 3").
  vm_compute. reflexivity.
Defined.

(** X13. One step of either evaluator of constant expressions that
    succeeds takes from the top of the stack as many values as its token
    needs (two for an operator, one for a function, none for a number or
    a name), which the stack must hold, leaves the values below them as
    they are, and pushes exactly one value. *)
Theorem region_step_stack_effect p stack stack1 p1 :
  Parser.expr_step p stack = Ok (stack1, p1)
  \/ Parser.body_step p stack = Ok (stack1, p1) ->
  (arity (Parser.cur_type p) <= length stack)%nat
  /\ exists r, stack1 = take (length stack - arity (Parser.cur_type p)) stack ++ [r].
Proof.
  intros [H|H]; [eapply expr_step_stack|eapply body_step_stack]; exact H.
Qed.

Lemma region_step_stack_effect_witness :
  (arity OPERATOR <= length [VInt 1; VInt 2; VInt 3])%nat
  /\ exists r, [VInt 1; VInt 6]
               = take (length [VInt 1; VInt 2; VInt 3] - arity OPERATOR)
                      [VInt 1; VInt 2; VInt 3] ++ [r].
Proof.
  refine (region_step_stack_effect
            (Parser.mk (Lexer.mk " +}." 1 9) (Token.mk OPERATOR "*" 1 8) ∅)
            [VInt 1; VInt 2; VInt 3] [VInt 1; VInt 6]
            (Parser.mk (Lexer.mk "}." 1 11) (Token.mk OPERATOR "+" 1 10) ∅)
            (or_introl _)).
  vm_compute. reflexivity.
Defined.



(** X15. The two edges of an array: [[]] with nothing between the
    brackets is the empty list; and a comma must be followed by an
    element, so that a comma right before the closing bracket raises the
    parse error "Unexpected token in value" at the bracket. *)
Theorem array_edge_cases fuel p p1 :
  (Parser.cur_type p = ARRAY_START ->
   Parser.eat ARRAY_START p = Ok p1 ->
   Parser.cur_type p1 = ARRAY_END ->
   forall p2, Parser.eat ARRAY_END p1 = Ok p2 ->
     Parser.parse_value (S fuel) p = Ok (VList [], p2))
  /\ (Parser.cur_type p = COMMA ->
      Parser.eat COMMA p = Ok p1 ->
      Parser.cur_type p1 = ARRAY_END ->
      forall fuel' values,
        Parser.array_loop (Parser.parse_value (S fuel)) (S fuel') p values
        = Parser.error p1 "Unexpected token in value: TokenType.ARRAY_END").
Proof.
  split.
  - intros Hty E1 Hty1 p2 E2. simpl. unfold Parser.cur_type in Hty. rewrite Hty.
    unfold Parser.parse_array_with. rewrite E1. cbn [bind].
    apply is_type_true in Hty1. rewrite Hty1. cbn [negb bind]. rewrite E2. reflexivity.
  - intros Hty E1 Hty1 fuel' values. cbn [Parser.array_loop].
    apply is_type_true in Hty. rewrite Hty, E1. cbn [bind]. simpl.
    unfold Parser.cur_type in Hty1. rewrite Hty1. reflexivity.
Qed.

Lemma array_edge_cases_witness :
  Parser.parse_value 1 (Parser.mk (Lexer.mk " ]" 1 2) (Token.mk ARRAY_START "[" 1 1) ∅)
  = Ok (VList [], Parser.mk (Lexer.mk EmptyString 1 4) (Token.mk EOF EmptyString 1 4) ∅)
  /\ Parser.array_loop (Parser.parse_value 1) 1
       (Parser.mk (Lexer.mk " ]" 1 4) (Token.mk COMMA "," 1 3) ∅) [VInt 1]
     = Parser.error (Parser.mk (Lexer.mk EmptyString 1 6) (Token.mk ARRAY_END "]" 1 5) ∅)
         "Unexpected token in value: TokenType.ARRAY_END".
Proof.
  split.
  - refine (proj1 (array_edge_cases 0
                     (Parser.mk (Lexer.mk " ]" 1 2) (Token.mk ARRAY_START "[" 1 1) ∅)
                     (Parser.mk (Lexer.mk EmptyString 1 4) (Token.mk ARRAY_END "]" 1 3) ∅))
                  _ _ _ _ _);
      [reflexivity|vm_compute; reflexivity|reflexivity|vm_compute; reflexivity].
  - refine (proj2 (array_edge_cases 0
                     (Parser.mk (Lexer.mk " ]" 1 4) (Token.mk COMMA "," 1 3) ∅)
                     (Parser.mk (Lexer.mk EmptyString 1 6) (Token.mk ARRAY_END "]" 1 5) ∅))
                  _ _ _ 0%nat [VInt 1]);
      [reflexivity|vm_compute; reflexivity|reflexivity].
Defined.

(** X16. A constant expression with nothing between [.{] and [}.]: at top
    level it raises the parse error "Invalid constant expression",
    reported at the token after [}.]; nested inside a value it raises the
    same error, reported at [}.]; and after a name that is a constant it
    is the value of that constant. *)
Theorem empty_region_cases fuel p p1 p2 :
  Parser.cur_type p = CONST_EXPR_START ->
  Parser.eat CONST_EXPR_START p = Ok p1 ->
  Parser.cur_type p1 = CONST_EXPR_END ->
  Parser.eat CONST_EXPR_END p1 = Ok p2 ->
  Parser.parse_const_expression (S fuel) None p
  = Parser.error p2 "Invalid constant expression"
  /\ Parser.parse_value (S (S fuel)) p = Parser.error p1 "Invalid constant expression"
  /\ forall name v,
       Parser.constants p !! name = Some v ->
       Parser.parse_const_expression (S fuel) (Some name) p = Ok (v, p2).
Proof.
  intros Hty E1 Hty1 E2. pose proof (eat_constants _ _ _ E1) as Hk.
  apply is_type_true in Hty1. repeat split.
  - unfold Parser.parse_const_expression. rewrite E1. cbn [bind Parser.expr_loop].
    rewrite Hty1. cbn [bind]. rewrite E2. reflexivity.
  - cbn [Parser.parse_value]. unfold Parser.cur_type in Hty. rewrite Hty, E1. cbn [bind].
    unfold Parser.parse_const_expression_body. cbn [Parser.body_loop].
    rewrite Hty1. reflexivity.
  - intros name v Hv. unfold Parser.parse_const_expression. rewrite E1. cbn [bind].
    rewrite Hk, Hv. cbn [bind Parser.expr_loop]. rewrite Hty1. cbn [bind].
    rewrite E2. reflexivity.
Qed.

Lemma empty_region_cases_witness :
  Parser.parse_const_expression 1 None
    (Parser.mk (Lexer.mk "}. b" 1 5) (Token.mk CONST_EXPR_START ".{" 1 3) (<["n" := VInt 7]> ∅))
  = Parser.error
      (Parser.mk (Lexer.mk EmptyString 1 9) (Token.mk NAME "b" 1 8) (<["n" := VInt 7]> ∅))
      "Invalid constant expression"
  /\ Parser.parse_value 2
       (Parser.mk (Lexer.mk "}. b" 1 5) (Token.mk CONST_EXPR_START ".{" 1 3)
                  (<["n" := VInt 7]> ∅))
     = Parser.error
         (Parser.mk (Lexer.mk " b" 1 7) (Token.mk CONST_EXPR_END "}." 1 5)
                    (<["n" := VInt 7]> ∅))
         "Invalid constant expression"
  /\ forall name v,
       Parser.constants
         (Parser.mk (Lexer.mk "}. b" 1 5) (Token.mk CONST_EXPR_START ".{" 1 3)
                    (<["n" := VInt 7]> ∅)) !! name = Some v ->
       Parser.parse_const_expression 1 (Some name)
         (Parser.mk (Lexer.mk "}. b" 1 5) (Token.mk CONST_EXPR_START ".{" 1 3)
                    (<["n" := VInt 7]> ∅))
       = Ok (v, Parser.mk (Lexer.mk EmptyString 1 9) (Token.mk NAME "b" 1 8)
                          (<["n" := VInt 7]> ∅)).
Proof.
  refine (empty_region_cases 0
            (Parser.mk (Lexer.mk "}. b" 1 5) (Token.mk CONST_EXPR_START ".{" 1 3)
                       (<["n" := VInt 7]> ∅))
            (Parser.mk (Lexer.mk " b" 1 7) (Token.mk CONST_EXPR_END "}." 1 5)
                       (<["n" := VInt 7]> ∅))
            (Parser.mk (Lexer.mk EmptyString 1 9) (Token.mk NAME "b" 1 8)
                       (<["n" := VInt 7]> ∅))
            _ _ _ _);
    [reflexivity|vm_compute; reflexivity|reflexivity|vm_compute; reflexivity].
Defined.

(** X17. No name token of the lexer denotes an integer.  So, in a
    constant expression at top level, the conversion [int(name)] never
    succeeds on a token of the text: a name that is not a constant raises
    the parse error "Unknown constant", and as the seed of a constant
    expression it raises "Invalid constant expression argument". *)
Theorem unknown_name_in_region l tok l1 :
  Lexer.get_next_token l = Ok (tok, l1) ->
  Token.type tok = NAME ->
  py_int 10 (Token.value tok) = None
  /\ forall fuel p p1 stack,
       Parser.constants p !! Token.value tok = None ->
       (Parser.current_token p = tok ->
        Parser.eat NAME p = Ok p1 ->
        Parser.expr_step p stack
        = Parser.error p1 ("Unknown constant: " +:+ Token.value tok))
       /\ (Parser.eat CONST_EXPR_START p = Ok p1 ->
           Parser.parse_const_expression fuel (Some (Token.value tok)) p
           = Parser.error p1 ("Invalid constant expression argument: " +:+ Token.value tok)).
Proof.
  intros H Hty.
  assert (Hint : py_int 10 (Token.value tok) = None).
  { pose proof (get_next_token_loop_shape _ _ _ _ H) as Hs.
    unfold token_shape in Hs. rewrite Hty in Hs.
    destruct Hs as (c & r & -> & Hc & _). by apply py_int_lowercase. }
  split; [exact Hint|]. intros fuel p p1 stack Hk. split.
  - intros <- E. unfold Parser.expr_step. rewrite Hty, E. cbn [bind].
    rewrite (eat_constants _ _ _ E), Hk, Hint. reflexivity.
  - intros E. unfold Parser.parse_const_expression. rewrite E. cbn [bind].
    rewrite (eat_constants _ _ _ E), Hk, Hint. reflexivity.
Qed.

Lemma unknown_name_in_region_witness :
  py_int 10 "foo" = None
  /\ Parser.expr_step (Parser.mk (Lexer.mk " 1 +}." 1 7) (Token.mk NAME "foo" 1 4) ∅) []
     = Parser.error (Parser.mk (Lexer.mk " +}." 1 9) (Token.mk NUMBER "1" 1 8) ∅)
         "Unknown constant: foo".
Proof.
  destruct (unknown_name_in_region (Lexer.mk "foo 1 +}." 1 4) (Token.mk NAME "foo" 1 4)
              (Lexer.mk " 1 +}." 1 7)) as [Hint Hstep];
    [vm_compute; reflexivity|reflexivity|].
  split; [exact Hint|].
  refine (proj1 (Hstep 0%nat
                   (Parser.mk (Lexer.mk " 1 +}." 1 7) (Token.mk NAME "foo" 1 4) ∅)
                   (Parser.mk (Lexer.mk " +}." 1 9) (Token.mk NUMBER "1" 1 8) ∅)
                   [] _) _ _);
    [reflexivity|reflexivity|vm_compute; reflexivity].
Defined.

(** X18. A text of white space and comments only (runs of white space,
    single-line comments, closed multi-line comments) translates to the
    empty Config. *)
Theorem blank_text_gives_empty_config text :
  blank text -> parse_text text = Ok [] /\ convert_to_json text = Ok [].
Proof.
  intros H. destruct (blank_eof text H 1 1) as (ln & cl & E).
  unfold parse_text, convert_to_json, Parser.init, Lexer.init. rewrite E. split; reflexivity.
Qed.

Lemma blank_text_gives_empty_config_witness :
  parse_text (String " " ("%" +:+ " no keys" +:+ newline +:+ ("<#" +:+ " # > " +:+ "#>" +:+ ("%" +:+ " end"))))
  = Ok []
  /\ convert_to_json (String " " ("%" +:+ " no keys" +:+ newline +:+ ("<#" +:+ " # > " +:+ "#>" +:+ ("%" +:+ " end"))))
     = Ok [].
Proof.
  apply (blank_text_gives_empty_config
           (String " " ("%" +:+ " no keys" +:+ newline +:+ ("<#" +:+ " # > " +:+ "#>" +:+ ("%" +:+ " end"))))).
  apply blank_space; [reflexivity|].
  apply blank_line; [reflexivity|].
  apply blank_block; [reflexivity|].
  apply blank_last_line. reflexivity.
Defined.

(** X19. The pops and the divisions of the parser are guarded.  On
    every text the core of the translation ends, and it never raises
    [IndexError] (every [pop] is preceded by a test of the length of the
    stack, and [stack[0]] by the test that the stack holds one value) nor
    [ZeroDivisionError] (every division is preceded by the test
    [b == 0]).  What else it may raise is not stated here: beside the
    parse error, [TypeError] and [ValueError], the interpreter's limits,
    which are outside the model, raise exceptions of their own. *)
Theorem pops_and_divisions_are_guarded text :
  parse_text text <> OutOfFuel
  /\ parse_text text <> Raise IndexError
  /\ parse_text text <> Raise ZeroDivisionError.
Proof.
  split; [apply parse_text_total|].
  pose proof (parse_text_ensures text) as He.
  split; intros H; rewrite H in He; exact He.
Qed.

(** X20. What [convert_to_json] does with the outcome of the core: a
    Config is returned as it is; a failure on the first token, which
    [Parser(lexer)] reads before the [try], reaches the caller as the
    exception raised; every later failure ends in [sys.exit(1)], whatever
    the exception was. *)
Theorem convert_to_json_outcomes text :
  (forall config, convert_to_json text = Ok config <-> parse_text text = Ok config)
  /\ (forall e, Parser.init (Lexer.init text) = Raise e -> convert_to_json text = Raise e)
  /\ (forall p e,
        Parser.init (Lexer.init text) = Ok p ->
        parse_text text = Raise e ->
        convert_to_json text = Raise (SystemExit 1))
  /\ convert_to_json text <> OutOfFuel.
Proof.
  pose proof (parse_text_total text) as Ht. revert Ht.
  unfold convert_to_json, parse_text.
  destruct (Parser.init (Lexer.init text)) as [p|e0|]; cbn [bind].
  - destruct (Parser.parse_config _ p) as [config|e0|]; intros Ht; [| |done].
    + repeat split; done.
    + destruct e0; cbn; repeat split; done.
  - intros _. split; [intros config; split; discriminate|].
    split; [by intros e [= ->]|]. split; [discriminate|discriminate].
  - done.
Qed.

Lemma convert_to_json_outcomes_witness :
  convert_to_json "Port 80"
  = Raise (SyntaxError "Lexer error at 1:1: Unexpected character: P")
  /\ convert_to_json "port 80 Host"
     = Raise (SystemExit 1).
Proof.
  destruct (convert_to_json_outcomes "Port 80") as (_ & Hfirst & _).
  destruct (convert_to_json_outcomes "port 80 Host") as (_ & _ & Hlater & _).
  split.
  - apply Hfirst. vm_compute. reflexivity.
  - apply (Hlater (Parser.mk (Lexer.mk " 80 Host" 1 5) (Token.mk NAME "port" 1 1) ∅)
                  (SyntaxError "Lexer error at 1:9: Unexpected character: H"));
      vm_compute; reflexivity.
Defined.

(** X21. A bare name in value position that is a constant, and whose next
    token is not the start of a constant expression, is replaced by the
    value of the constant. *)
Theorem constant_is_looked_up fuel p tok l v :
  Parser.cur_type p = NAME ->
  Lexer.get_next_token (Parser.lexer p) = Ok (tok, l) ->
  Token.type tok <> CONST_EXPR_START ->
  Parser.constants p !! Token.value (Parser.current_token p) = Some v ->
  Parser.parse_value (S fuel) p = Ok (v, Parser.mk l tok (Parser.constants p)).
Proof.
  intros Hty Ht Hne Hk. simpl. unfold Parser.cur_type in Hty. rewrite Hty.
  rewrite (eat_current NAME p tok l Hty Ht). simpl.
  replace (Parser.is_type _ CONST_EXPR_START) with false
    by (symmetry; apply is_type_false; exact Hne).
  rewrite Hk. reflexivity.
Qed.

Lemma constant_is_looked_up_witness :
  Parser.parse_value 1
    (Parser.mk (Lexer.mk " b 2" 1 6) (Token.mk NAME "size" 1 2)
               (<["size" := VList [VInt 1; VStr "x"]]> ∅))
  = Ok (VList [VInt 1; VStr "x"],
        Parser.mk (Lexer.mk " 2" 1 8) (Token.mk NAME "b" 1 7)
                  (Parser.constants
                     (Parser.mk (Lexer.mk " b 2" 1 6) (Token.mk NAME "size" 1 2)
                                (<["size" := VList [VInt 1; VStr "x"]]> ∅)))).
Proof.
  refine (constant_is_looked_up 0
            (Parser.mk (Lexer.mk " b 2" 1 6) (Token.mk NAME "size" 1 2)
                       (<["size" := VList [VInt 1; VStr "x"]]> ∅))
            (Token.mk NAME "b" 1 7) (Lexer.mk " 2" 1 8)
            (VList [VInt 1; VStr "x"]) _ _ _ _);
    [reflexivity|vm_compute; reflexivity|discriminate|vm_compute; reflexivity].
Defined.

(** X22. Which number tokens of the lexer [int] converts, in a text of
    characters with code points below 256.  A decimal number with a
    character that is not among [0] to [9] is not converted: on that range
    [isdigit] also admits the superscript digits one, two and three, on
    which [int] raises [ValueError].  A decimal number of the digits [0]
    to [9] only, and of at most 4300 of them (the length up to which
    [int] converts a decimal string; longer ones are outside the model),
    converts to a non-negative integer.  A hexadecimal number converts,
    to a non-negative integer, exactly when a digit follows its prefix: on
    the bare prefix [int] raises [ValueError]. *)
Theorem number_token_conversion l tok l1 :
  Lexer.get_next_token l = Ok (tok, l1) ->
  (Token.type tok = NUMBER ->
     (string_forall ascii_digit (Token.value tok) = false ->
      int_ 10 (Token.value tok) = Raise ValueError)
     /\ (string_forall ascii_digit (Token.value tok) = true ->
         (String.length (Token.value tok) <= 4300)%nat ->
         exists n, int_ 10 (Token.value tok) = Ok n /\ 0 <= n))
  /\ (Token.type tok = HEX_NUMBER ->
      if (String.length (Token.value tok) =? 2)%nat
      then int_ 16 (Token.value tok) = Raise ValueError
      else exists n, int_ 16 (Token.value tok) = Ok n /\ 0 <= n).
Proof.
  intros H. pose proof (get_next_token_loop_shape _ _ _ _ H) as Hs.
  unfold token_shape in Hs. split; intros Hty; rewrite Hty in Hs; unfold int_.
  - destruct Hs as [Hne Hall]. pose proof (py_int_number _ Hne Hall) as Hi.
    split; intros Hd; rewrite Hd in Hi.
    + by rewrite Hi.
    + intros _. destruct Hi as (n & -> & Hn). by exists n.
  - destruct Hs as (x & digits & -> & Hx & Hall).
    pose proof (py_int_hex x digits Hx Hall) as Hi.
    destruct digits as [|c digits]; simpl.
    + by rewrite Hi.
    + destruct Hi as (n & -> & Hn). by exists n.
Qed.

Lemma number_token_conversion_witness :
  int_ 10 ("12" +:+ String "178" EmptyString) = Raise ValueError
  /\ (exists n, int_ 10 "0042" = Ok n /\ 0 <= n)
  /\ int_ 16 "0x" = Raise ValueError.
Proof.
  split; [|split].
  - refine (proj1 (proj1 (number_token_conversion
                            (Lexer.mk (" 12" +:+ String "178" " ]") 1 1)
                            (Token.mk NUMBER ("12" +:+ String "178" EmptyString) 1 2)
                            (Lexer.mk " ]" 1 5) _) _) _);
      [vm_compute; reflexivity|reflexivity|vm_compute; reflexivity].
  - refine (proj2 (proj1 (number_token_conversion
                            (Lexer.mk "0042 ]" 1 1) (Token.mk NUMBER "0042" 1 1)
                            (Lexer.mk " ]" 1 5) _) _) _ _);
      [vm_compute; reflexivity|reflexivity|vm_compute; reflexivity|simpl; lia].
  - refine (proj2 (number_token_conversion
                     (Lexer.mk "0x ]" 1 1) (Token.mk HEX_NUMBER "0x" 1 1)
                     (Lexer.mk " ]" 1 3) _) _);
      [vm_compute; reflexivity|reflexivity].
Defined.

(** * Further properties: the tests *)

(** X23. The tests [test_basic_parsing], [test_arrays] and
    [test_hex_numbers] pass: [convert_to_json] returns a Config, and each
    key that a test looks up has the value the test asserts. *)
Theorem tests_that_pass :
  (exists result,
     convert_to_json test_basic_parsing_config = Ok result
     /\ dict_get "server_name" result = Some (VStr "Test Server")
     /\ dict_get "port" result = Some (VInt 8080)
     /\ dict_get "max_connections" result = Some (VInt 100))
  /\ (exists result,
        convert_to_json test_arrays_config = Ok result
        /\ dict_get "allowed_ips" result
           = Some (VList [VStr "192.168.1.1"; VStr "10.0.0.1"; VStr "127.0.0.1"])
        /\ dict_get "ports" result = Some (VList [VInt 80; VInt 443; VInt 8080])
        /\ dict_get "mixed_array" result = Some (VList [VInt 1; VStr "two"; VInt 3]))
  /\ (exists result,
        convert_to_json test_hex_numbers_config = Ok result
        /\ dict_get "hex_small" result = Some (VInt 10)
        /\ dict_get "hex_big" result = Some (VInt 255)
        /\ dict_get "hex_upper" result = Some (VInt 43981)).
Proof.
  repeat split; eexists; (split; [vm_compute; reflexivity|]); repeat split.
Qed.

(** X24. The tests [test_define_constants],
    [test_nested_const_expressions], [test_complex_array] and
    [test_string_escaping] do not reach their assertions:
    [convert_to_json] ends in [sys.exit(1)].  In the first three the
    lexer meets the closing parenthesis of the first [define], for which
    it has no rule; in the last, the escaped quotes of the Python source
    are plain double quotes in the text, so the literal ends at the second
    one and the lexer meets the upper-case letter after it. *)
Theorem tests_that_exit :
  (parse_text test_define_constants_config
   = Raise (SyntaxError "Lexer error at 2:30: Unexpected character: )")
   /\ convert_to_json test_define_constants_config = Raise (SystemExit 1))
  /\ (parse_text test_nested_const_expressions_config
      = Raise (SyntaxError "Lexer error at 2:24: Unexpected character: )")
      /\ convert_to_json test_nested_const_expressions_config = Raise (SystemExit 1))
  /\ (parse_text test_complex_array_config
      = Raise (SyntaxError "Lexer error at 2:28: Unexpected character: )")
      /\ convert_to_json test_complex_array_config = Raise (SystemExit 1))
  /\ (parse_text test_string_escaping_config
      = Raise (SyntaxError "Lexer error at 2:27: Unexpected character: H")
      /\ convert_to_json test_string_escaping_config = Raise (SystemExit 1)).
Proof. repeat split; vm_compute; reflexivity. Qed.

(** * Further properties: the two evaluators *)

(** X25. On a stack of integers the evaluator of nested constant
    expressions ([parse_const_expression_body]) and the evaluator of
    constant expressions at top level ([parse_const_expression]) do the
    same: every operator and every function gives the same stack or the
    same error, and so does a whole step on a token that is not a name,
    or is the name of a constant. *)
Theorem evaluators_agree_on_integers p stack :
  Forall (fun v => isinstance_int v = true) stack ->
  (forall op, Parser.body_operator p op stack = Parser.expr_operator p op stack)
  /\ (forall func, Parser.body_function p func stack = Parser.expr_function p func stack)
  /\ (Parser.cur_type p <> NAME
      \/ is_Some (Parser.constants p !! Token.value (Parser.current_token p)) ->
      Parser.body_step p stack = Parser.expr_step p stack).
Proof.
  intros Hall. split; [intros op; by apply operator_agree|].
  split; [intros func; by apply function_agree|].
  intros Hname. unfold Parser.body_step, Parser.expr_step, Parser.cur_type in *.
  destruct (Token.type (Parser.current_token p)); try reflexivity.
  - destruct (Parser.eat NAME p) as [p1| |] eqn:E; try reflexivity. cbn [bind].
    rewrite (eat_constants _ _ _ E).
    destruct Hname as [Hne|[v Hv]]; [done|]. rewrite Hv. reflexivity.
  - destruct (Parser.eat OPERATOR p) as [p1| |]; try reflexivity. cbn [bind].
    by rewrite operator_agree.
  - destruct (Parser.eat FUNCTION p) as [p1| |]; try reflexivity. cbn [bind].
    by rewrite function_agree.
Qed.

Lemma evaluators_agree_on_integers_witness :
  (forall op,
     Parser.body_operator (Parser.mk (Lexer.mk "}." 1 9) (Token.mk OPERATOR "/" 1 8) ∅)
                          op [VInt 7; VInt 0]
     = Parser.expr_operator (Parser.mk (Lexer.mk "}." 1 9) (Token.mk OPERATOR "/" 1 8) ∅)
                            op [VInt 7; VInt 0])
  /\ (forall func,
        Parser.body_function (Parser.mk (Lexer.mk "}." 1 9) (Token.mk OPERATOR "/" 1 8) ∅)
                             func [VInt 7; VInt 0]
        = Parser.expr_function (Parser.mk (Lexer.mk "}." 1 9) (Token.mk OPERATOR "/" 1 8) ∅)
                               func [VInt 7; VInt 0])
  /\ (Parser.cur_type (Parser.mk (Lexer.mk "}." 1 9) (Token.mk OPERATOR "/" 1 8) ∅) <> NAME
      \/ is_Some (Parser.constants (Parser.mk (Lexer.mk "}." 1 9) (Token.mk OPERATOR "/" 1 8) ∅)
                  !! Token.value
                       (Parser.current_token
                          (Parser.mk (Lexer.mk "}." 1 9) (Token.mk OPERATOR "/" 1 8) ∅))) ->
      Parser.body_step (Parser.mk (Lexer.mk "}." 1 9) (Token.mk OPERATOR "/" 1 8) ∅)
                       [VInt 7; VInt 0]
      = Parser.expr_step (Parser.mk (Lexer.mk "}." 1 9) (Token.mk OPERATOR "/" 1 8) ∅)
                         [VInt 7; VInt 0]).
Proof.
  apply (evaluators_agree_on_integers
           (Parser.mk (Lexer.mk "}." 1 9) (Token.mk OPERATOR "/" 1 8) ∅)
           [VInt 7; VInt 0]).
  repeat constructor.
Defined.
